(** * Community calendar backend: accounts, events and interactions

    A shallow embedding of the Express routers [routes/auth.js],
    [routes/events.js] and the admin router, over MongoDB collections
    modelled as finite maps from document id to document.  Handlers are
    pure functions from the store and a request to the new store and the
    HTTP response; every early [return res.status(..)] of the source is a
    branch that leaves the store as it was. *)

From Stdlib Require Import ZArith NArith String Ascii List Permutation OrdersEx Lia.
From stdpp Require Import base gmap strings list sorting.

Set Warnings "-register-all".

Local Open Scope string_scope.
Local Open Scope list_scope.
Local Open Scope Z_scope.

(** ** JavaScript strings

    A string is a sequence of characters with codes 0 to 255: the first
    256 code points of Unicode, each of them one UTF-16 unit, so that
    [length] counts characters.  [toLowerCase] and [trim] are the
    JavaScript methods on that alphabet: the capitals are A to Z and the
    accented capitals 192 to 222 except the multiplication sign 215, each
    32 below its small letter; the white space is the controls 9 to 13,
    the space 32 and the no-break space 160. *)
Module Text.

Definition code (c : ascii) : N := N_of_ascii c.

Definition is_upper (c : ascii) : bool :=
  ((65 <=? code c) && (code c <=? 90)
   || (192 <=? code c) && (code c <=? 222) && negb (code c =? 215))%N.

Definition lower (c : ascii) : ascii :=
  if is_upper c then ascii_of_N (code c + 32) else c.

Fixpoint toLowerCase (s : string) : string :=
  match s with
  | EmptyString => EmptyString
  | String c s' => String (lower c) (toLowerCase s')
  end.

(** White space and line terminators of [String.prototype.trim]. *)
Definition is_space (c : ascii) : bool :=
  ((9 <=? code c) && (code c <=? 13) || (code c =? 32) || (code c =? 160))%N.

Fixpoint trimStart (l : list ascii) : list ascii :=
  match l with
  | c :: l' => if is_space c then trimStart l' else l
  | [] => []
  end.

Definition trim (s : string) : string :=
  string_of_list_ascii
    (rev (trimStart (rev (trimStart (list_ascii_of_string s))))).

Definition is_digit (c : ascii) : bool :=
  ((48 <=? code c) && (code c <=? 57))%N.

(** [needle] occurs in [hay] when letter case is ignored. *)
Definition ci_substring (needle hay : string) : Prop :=
  ∃ pre post : string,
    toLowerCase hay = pre +:+ toLowerCase needle +:+ post.

End Text.

(** ** JSON values carried by request bodies

    [JUndefined] is what reading an absent property yields.  Numbers are
    the integers among the JSON numbers. *)
Inductive JsVal :=
| JUndefined
| JNull
| JBool (b : bool)
| JNum (n : Z)
| JStr (s : string)
| JArr (l : list JsVal)
| JObj (l : list (string * JsVal)).

(** The [ToBoolean] conversion used by [if (v)], [!v] and [&&]. *)
Definition truthy (v : JsVal) : bool :=
  match v with
  | JUndefined | JNull => false
  | JBool b => b
  | JNum n => negb (n =? 0)
  | JStr s => negb (String.eqb s "")
  | JArr _ | JObj _ => true
  end.

(** [req.body]: an object, read by property name. *)
Abbreviation Body := (gmap string JsVal).

Definition field (b : Body) (k : string) : JsVal :=
  default JUndefined (b !! k).

(** ** Collaborators outside the repository

    The syntax checks of Joi's [email()] and [uri()], bcrypt, and the
    regular-expression engine behind [$regex] and [new RegExp] with the
    [i] option.  [regex p] is [None] when [p] is not a pattern the engine
    accepts (the call throws), and otherwise the test telling whether
    [p] matches somewhere in a string. *)
Class Platform := {
  joi_email : string → bool;
  joi_uri : string → bool;
  bcrypt_hash : string → string;
  bcrypt_compare : string → string → bool;
  regex : string → option (string → bool);
}.

(** ** Joi schemas as data and their validation *)
Module Joi.

Inductive Code :=
| any_required | any_only
| string_base | string_empty | string_min | string_max
| string_email | string_uri | string_pattern_base
| number_base | number_min | number_unsafe
| array_base | array_max
| object_unknown.

(** [error.details[0]]: where validation stopped and why. *)
Record Error := { path : string; code : Code }.

Inductive Format :=
| free
| email
| uri
| pattern (matches : string → bool).

Inductive Kind :=
| string_ (min max : option nat) (allow_empty : bool) (fmt : Format)
| valid_ (allowed : list string)
| number_ (min : Z)
| array_of_strings (max : nat).

Record Key := {
  name : string;
  kind : Kind;
  required : bool;
  messages : list (Code * string);
}.

Abbreviation Schema := (list Key).

Definition Code_eqb (a b : Code) : bool :=
  match a, b with
  | any_required, any_required | any_only, any_only
  | string_base, string_base | string_empty, string_empty
  | string_min, string_min | string_max, string_max
  | string_email, string_email | string_uri, string_uri
  | string_pattern_base, string_pattern_base
  | number_base, number_base | number_min, number_min
  | number_unsafe, number_unsafe
  | array_base, array_base | array_max, array_max
  | object_unknown, object_unknown => true
  | _, _ => false
  end.

Section Validate.
Context `{Platform}.

Definition check_format (fmt : Format) (s : string) : option Code :=
  match fmt with
  | free => None
  | email => if joi_email s then None else Some string_email
  | uri => if joi_uri s then None else Some string_uri
  | pattern m => if m s then None else Some string_pattern_base
  end.

Definition check_string (min max : option nat) (allow_empty : bool)
    (fmt : Format) (v : JsVal) : option Code :=
  match v with
  | JStr s =>
      if String.eqb s "" then
        if allow_empty then None else Some string_empty
      else if match min with
              | Some n => (String.length s <? n)%nat
              | None => false
              end then Some string_min
      else if match max with
              | Some n => (n <? String.length s)%nat
              | None => false
              end then Some string_max
      else check_format fmt s
  | _ => Some string_base
  end.

(** Decimal digits, optionally signed: the strings the number type
    converts before checking. *)
Fixpoint digits_value (acc : Z) (l : list ascii) : option Z :=
  match l with
  | [] => Some acc
  | c :: l' =>
      if Text.is_digit c
      then digits_value (10 * acc + (Z.of_N (Text.code c) - 48)) l'
      else None
  end.

Definition number_of_string (s : string) : option Z :=
  match list_ascii_of_string s with
  | [] => None
  | c :: l =>
      if Ascii.eqb c "-" then
        match l with [] => None | _ => Z.opp <$> digits_value 0 l end
      else digits_value 0 (c :: l)
  end.

Definition max_safe_integer : Z := 2 ^ 53 - 1.

Definition check_number_value (min n : Z) : option Code :=
  if (max_safe_integer <? Z.abs n) then Some number_unsafe
  else if n <? min then Some number_min
  else None.

Definition check_number (min : Z) (v : JsVal) : option Code :=
  match v with
  | JNum n => check_number_value min n
  | JStr s =>
      match number_of_string s with
      | Some n => check_number_value min n
      | None => Some number_base
      end
  | _ => Some number_base
  end.

Definition check_item (v : JsVal) : option Code :=
  check_string None None false free v.

Fixpoint check_items (l : list JsVal) : option Code :=
  match l with
  | [] => None
  | v :: l' =>
      match check_item v with
      | Some c => Some c
      | None => check_items l'
      end
  end.

Definition check_kind (k : Kind) (v : JsVal) : option Code :=
  match k with
  | string_ min max allow_empty fmt => check_string min max allow_empty fmt v
  | valid_ allowed =>
      match v with
      | JStr s => if existsb (String.eqb s) allowed then None else Some any_only
      | _ => Some any_only
      end
  | number_ min => check_number min v
  | array_of_strings max =>
      match v with
      | JArr l =>
          match check_items l with
          | Some c => Some c
          | None => if (max <? length l)%nat then Some array_max else None
          end
      | _ => Some array_base
      end
  end.

Definition check_key (k : Key) (b : Body) : option Code :=
  match b !! name k with
  | None | Some JUndefined =>
      if required k then Some any_required else None
  | Some v => check_kind (kind k) v
  end.

(** Keys are checked in the order the schema lists them. *)
Fixpoint check_keys (sch : Schema) (b : Body) : option Error :=
  match sch with
  | [] => None
  | k :: sch' =>
      match check_key k b with
      | Some c => Some {| path := name k; code := c |}
      | None => check_keys sch' b
      end
  end.

Definition known (sch : Schema) (k : string) : bool :=
  existsb (λ key, String.eqb (name key) k) sch.

Definition unknown_key (sch : Schema) (b : Body) : option Error :=
  match List.filter (λ kv, negb (known sch kv.1)) (map_to_list b) with
  | kv :: _ => Some {| path := kv.1; code := object_unknown |}
  | [] => None
  end.

(** [schema.validate(req.body).error], with the default [abortEarly]. *)
Definition validate (sch : Schema) (b : Body) : option Error :=
  match check_keys sch b with
  | Some e => Some e
  | None => unknown_key sch b
  end.

(** The text the schema's [messages] gives the error, when it has one. *)
Definition custom_message (sch : Schema) (e : Error) : option string :=
  match List.find (λ k, String.eqb (name k) (path e)) sch with
  | Some k =>
      snd <$> List.find (λ m, Code_eqb m.1 (code e)) (messages k)
  | None => None
  end.

End Validate.
End Joi.

(** ** Documents

    [models/User] and [models/Event] are not among the sources; the
    records list the attributes the handlers read and write. *)
Abbreviation ObjectId := N.

(** Modelled from the spec: the User document of [models/User]
    (username, email, password hash, zipcode, isAdmin, lastLogin,
    createdAt). *)
Record User := {
  username : string;
  email : string;
  password : string;
  zipcode : string;
  isAdmin : bool;
  lastLogin : option Z;
  createdAt : Z;
}.

Record Rsvp := { user_id : ObjectId; status : string }.

Record Comment := {
  comment_id : ObjectId;
  comment_user_id : ObjectId;
  comment_username : string;
  text : string;
  comment_created_at : Z;
}.

(** The attributes a client supplies through [eventSchema]. *)
Record Details := {
  title : string;
  description : option string;
  category : string;
  date : string;
  time : option string;
  location : string;
  contact_info : option string;
  image_url : option string;
  max_capacity : Z;
  tags : list string;
}.

(** Modelled from the spec: the Event document of [models/Event]. *)
Record Event := {
  details : Details;
  organizer : string;
  organizer_id : ObjectId;
  attendees_going : Z;
  attendees_interested : Z;
  rsvps : list Rsvp;
  favorites : list ObjectId;
  comments : list Comment;
  created_at : Z;
  updated_at : Z;
}.

(** The two collections, and the next id the driver hands out. *)
Record State := {
  users : gmap ObjectId User;
  events : gmap ObjectId Event;
  next_oid : ObjectId;
}.

Definition set_users (s : State) (us : gmap ObjectId User) : State :=
  {| users := us; events := events s; next_oid := next_oid s |}.

Definition set_events (s : State) (es : gmap ObjectId Event) : State :=
  {| users := users s; events := es; next_oid := next_oid s |}.

Definition take_oid (s : State) : State :=
  {| users := users s; events := events s; next_oid := N.succ (next_oid s) |}.

Definition empty_state : State :=
  {| users := ∅; events := ∅; next_oid := 1%N |}.

(** ** Responses *)

(** Modelled from the spec: what [Event.toClientJSON] of [models/Event]
    returns, the event with the viewer's own RSVP status (empty when
    there is none) and favorite flag folded in. *)
Record ClientEvent := {
  event_id : ObjectId;
  event : Event;
  viewer_rsvp_status : string;
  is_favorited : bool;
}.

Inductive Payload :=
| Message (m : string)
| Invalid (e : Joi.Error) (custom : option string)
| Unauthenticated
| NotAdmin
| Session (id : ObjectId) (name mail : string) (admin : bool) (token : ObjectId)
| OneEvent (v : ClientEvent)
| Events (l : list ClientEvent)
| RsvpSet (id : ObjectId) (rsvp_status : JsVal)
| FavoriteSet (id : ObjectId) (favorited : JsVal)
| OneComment (c : Comment)
| Comments (l : list Comment)
| Cleared (m : string) (deletedCount : nat)
| Empty.

Record Response := { http_status : Z; payload : Payload }.

Definition respond (code : Z) (p : Payload) : Response :=
  {| http_status := code; payload := p |}.

Definition message (code : Z) (m : string) : Response :=
  respond code (Message m).

(** A bearer token after verification: the user id it carries, or nothing
    when the header is missing or the token does not verify. *)
Abbreviation Token := (option ObjectId).

Inductive Request :=
| PostRegister (body : Body)
| PostLogin (body : Body)
| GetEvents (tok : Token) (category search : option string)
| GetEvent (tok : Token) (id : ObjectId)
| PostEvent (tok : Token) (body : Body)
| PutEvent (tok : Token) (id : ObjectId) (body : Body)
| DeleteEvent (tok : Token) (id : ObjectId)
| PostRsvp (tok : Token) (id : ObjectId) (body : Body)
| PostFavorite (tok : Token) (id : ObjectId) (body : Body)
| PostComment (tok : Token) (id : ObjectId) (body : Body)
| GetComments (tok : Token) (id : ObjectId)
| DeleteClearAll (tok : Token)
| AdminDeleteUser (tok : Token) (id : ObjectId)
| AdminDeleteEvent (tok : Token) (id : ObjectId).

(** ** Collection queries *)

(** [Model.findOne(filter)]: some document that passes the filter. *)
Definition findOne {A} (p : A → bool) (m : gmap ObjectId A) : option (ObjectId * A) :=
  List.find (λ kv, p kv.2) (map_to_list m).

(** [Model.deleteMany(filter)]. *)
Definition deleteMany {A} (p : A → bool) (m : gmap ObjectId A) : gmap ObjectId A :=
  filter (λ kv, p kv.2 = false) m.

(** [Array.prototype.findIndex]; [None] stands for [-1]. *)
Fixpoint findIndex {A} (p : A → bool) (l : list A) : option nat :=
  match l with
  | [] => None
  | x :: l' => if p x then Some O else S <$> findIndex p l'
  end.

(** [l.splice(i, 1)]. *)
Definition splice1 {A} (i : nat) (l : list A) : list A :=
  take i l ++ drop (S i) l.

(** [Array.prototype.sort(cmp)]: stable; [cmp a b > 0] puts [a] after [b]. *)
Fixpoint sort_insert {A} (cmp : A → A → Z) (x : A) (l : list A) : list A :=
  match l with
  | [] => [x]
  | y :: l' => if 0 <? cmp x y then y :: sort_insert cmp x l' else x :: l
  end.

Definition Array_sort {A} (cmp : A → A → Z) (l : list A) : list A :=
  foldr (sort_insert cmp) [] l.

(** ** The guards

    [middleware/auth] is not among the sources. *)

(** Modelled from the spec: the required-auth guard of [middleware/auth],
    which rejects a missing or invalid token and otherwise attaches the
    user id and the user record to the request. *)
Definition auth (s : State) (tok : Token) : Response + (ObjectId * User) :=
  match tok with
  | None => inl (respond 401 Unauthenticated)
  | Some uid =>
      match users s !! uid with
      | None => inl (respond 401 Unauthenticated)
      | Some u => inr (uid, u)
      end
  end.

(** Modelled from the spec: the optional-auth guard of [middleware/auth],
    which resolves the identity the same way but falls back to an
    anonymous viewer instead of rejecting. *)
Definition optionalAuth (s : State) (tok : Token) : option ObjectId :=
  match auth s tok with
  | inr (uid, _) => Some uid
  | inl _ => None
  end.

(** Modelled from the spec: the admin-required guard of [middleware/auth],
    required-auth followed by the [isAdmin] check, with a rejection of
    its own for a user who is not an administrator. *)
Definition adminAuth (s : State) (tok : Token) : Response + (ObjectId * User) :=
  match auth s tok with
  | inl r => inl r
  | inr (uid, u) =>
      if isAdmin u then inr (uid, u) else inl (respond 403 NotAdmin)
  end.

(** ** Schemas of [routes/auth.js] and [routes/events.js] *)

Definition all_digits (l : list ascii) : bool := forallb Text.is_digit l.

(** [/^\d{5}(-\d{4})?$/] *)
Definition zipcode_pattern (s : string) : bool :=
  let l := list_ascii_of_string s in
  all_digits (take 5 l) && (length (take 5 l) =? 5)%nat &&
  match drop 5 l with
  | [] => true
  | c :: l' => Ascii.eqb c "-" && all_digits l' && (length l' =? 4)%nat
  end.

(** [/^\d{4}-\d{2}-\d{2}$/] *)
Definition date_pattern (s : string) : bool :=
  match list_ascii_of_string s with
  | [y1; y2; y3; y4; d1; m1; m2; d2; a1; a2] =>
      all_digits [y1; y2; y3; y4; m1; m2; a1; a2] &&
      Ascii.eqb d1 "-" && Ascii.eqb d2 "-"
  | _ => false
  end.

Definition registerSchema : Joi.Schema := [
  {| Joi.name := "username";
     Joi.kind := Joi.string_ (Some 3%nat) (Some 30%nat) false Joi.free;
     Joi.required := true;
     Joi.messages := [
       (Joi.string_min, "Username must be at least 3 characters");
       (Joi.string_max, "Username must be less than 30 characters");
       (Joi.any_required, "Username is required")] |};
  {| Joi.name := "email";
     Joi.kind := Joi.string_ None None false Joi.email;
     Joi.required := true;
     Joi.messages := [
       (Joi.string_email, "Please enter a valid email address");
       (Joi.any_required, "Email is required")] |};
  {| Joi.name := "password";
     Joi.kind := Joi.string_ (Some 6%nat) (Some 100%nat) false Joi.free;
     Joi.required := true;
     Joi.messages := [
       (Joi.string_min, "Password must be at least 6 characters");
       (Joi.string_max, "Password is too long");
       (Joi.any_required, "Password is required")] |};
  {| Joi.name := "zipcode";
     Joi.kind := Joi.string_ None None false (Joi.pattern zipcode_pattern);
     Joi.required := true;
     Joi.messages := [
       (Joi.string_pattern_base,
        "Please enter a valid zip code (5 digits, e.g., 12345)");
       (Joi.any_required, "Zip code is required")] |}
].

Definition loginSchema : Joi.Schema := [
  {| Joi.name := "email";
     Joi.kind := Joi.string_ None None false Joi.email;
     Joi.required := true; Joi.messages := [] |};
  {| Joi.name := "password";
     Joi.kind := Joi.string_ None None false Joi.free;
     Joi.required := true; Joi.messages := [] |}
].

Definition categories : list string :=
  ["general"; "garage_sale"; "sports"; "church"; "town_meeting";
   "community"; "fundraiser"; "workshop"; "festival"].

Definition eventSchema : Joi.Schema := [
  {| Joi.name := "title";
     Joi.kind := Joi.string_ (Some 3%nat) (Some 100%nat) false Joi.free;
     Joi.required := true; Joi.messages := [] |};
  {| Joi.name := "description";
     Joi.kind := Joi.string_ None (Some 2000%nat) true Joi.free;
     Joi.required := false; Joi.messages := [] |};
  {| Joi.name := "category";
     Joi.kind := Joi.valid_ categories;
     Joi.required := true; Joi.messages := [] |};
  {| Joi.name := "date";
     Joi.kind := Joi.string_ None None false (Joi.pattern date_pattern);
     Joi.required := true; Joi.messages := [] |};
  {| Joi.name := "time";
     Joi.kind := Joi.string_ None None true Joi.free;
     Joi.required := false; Joi.messages := [] |};
  {| Joi.name := "location";
     Joi.kind := Joi.string_ None (Some 200%nat) false Joi.free;
     Joi.required := true; Joi.messages := [] |};
  {| Joi.name := "contact_info";
     Joi.kind := Joi.string_ None (Some 100%nat) true Joi.free;
     Joi.required := false; Joi.messages := [] |};
  {| Joi.name := "image_url";
     Joi.kind := Joi.string_ None None true Joi.uri;
     Joi.required := false; Joi.messages := [] |};
  {| Joi.name := "max_capacity";
     Joi.kind := Joi.number_ 0;
     Joi.required := false; Joi.messages := [] |};
  {| Joi.name := "tags";
     Joi.kind := Joi.array_of_strings 10;
     Joi.required := false; Joi.messages := [] |}
].

(** ** Event documents under mutation *)

Definition set_details (ev : Event) (d : Details) (now : Z) : Event :=
  {| details := d; organizer := organizer ev; organizer_id := organizer_id ev;
     attendees_going := attendees_going ev;
     attendees_interested := attendees_interested ev;
     rsvps := rsvps ev; favorites := favorites ev; comments := comments ev;
     created_at := created_at ev; updated_at := now |}.

Definition set_rsvps (ev : Event) (going interested : Z) (l : list Rsvp) : Event :=
  {| details := details ev; organizer := organizer ev;
     organizer_id := organizer_id ev;
     attendees_going := going; attendees_interested := interested;
     rsvps := l; favorites := favorites ev; comments := comments ev;
     created_at := created_at ev; updated_at := updated_at ev |}.

Definition set_favorites (ev : Event) (l : list ObjectId) : Event :=
  {| details := details ev; organizer := organizer ev;
     organizer_id := organizer_id ev;
     attendees_going := attendees_going ev;
     attendees_interested := attendees_interested ev;
     rsvps := rsvps ev; favorites := l; comments := comments ev;
     created_at := created_at ev; updated_at := updated_at ev |}.

Definition set_comments (ev : Event) (l : list Comment) : Event :=
  {| details := details ev; organizer := organizer ev;
     organizer_id := organizer_id ev;
     attendees_going := attendees_going ev;
     attendees_interested := attendees_interested ev;
     rsvps := rsvps ev; favorites := favorites ev; comments := l;
     created_at := created_at ev; updated_at := updated_at ev |}.

Definition string_items (l : list JsVal) : list string :=
  omap (λ v, match v with JStr s => Some s | _ => None end) l.

Definition set_string (b : Body) (k : string) (old : string) : string :=
  match b !! k with Some (JStr s) => s | _ => old end.

Definition set_optional (b : Body) (k : string) (old : option string) : option string :=
  match b !! k with Some (JStr s) => Some s | _ => old end.

(** [Object.assign(doc, req.body)] on the schema's keys: a key the body
    carries overwrites the attribute, the others stay. *)
Definition assign (d : Details) (b : Body) : Details :=
  {| title := set_string b "title" (title d);
     description := set_optional b "description" (description d);
     category := set_string b "category" (category d);
     date := set_string b "date" (date d);
     time := set_optional b "time" (time d);
     location := set_string b "location" (location d);
     contact_info := set_optional b "contact_info" (contact_info d);
     image_url := set_optional b "image_url" (image_url d);
     max_capacity :=
       match b !! "max_capacity" with
       | Some (JNum n) => n
       | Some (JStr s) => default (max_capacity d) (Joi.number_of_string s)
       | _ => max_capacity d
       end;
     tags :=
       match b !! "tags" with
       | Some (JArr l) => string_items l
       | _ => tags d
       end |}.

(** Modelled from the spec: the defaults [models/Event] gives a new
    document ([max_capacity] 0 and no tags; the counters at zero and no
    RSVP, favorite or comment follow in [new_event]). *)
Definition blank_details : Details :=
  {| title := ""; description := None; category := ""; date := "";
     time := None; location := ""; contact_info := None; image_url := None;
     max_capacity := 0; tags := [] |}.

(** Modelled from the spec: [new Event({...req.body, organizer,
    organizer_id})] with the defaults of [models/Event]. *)
Definition new_event (b : Body) (uid : ObjectId) (u : User) (now : Z) : Event :=
  {| details := assign blank_details b;
     organizer := username u; organizer_id := uid;
     attendees_going := 0; attendees_interested := 0;
     rsvps := []; favorites := []; comments := [];
     created_at := now; updated_at := now |}.

(** Modelled from the spec: [Event.toClientJSON(viewerId)] of
    [models/Event], the specification's [projectForViewer]. *)
Definition toClientJSON (id : ObjectId) (ev : Event) (viewer : option ObjectId) : ClientEvent :=
  {| event_id := id; event := ev;
     viewer_rsvp_status :=
       match viewer with
       | Some uid =>
           match List.find (λ r, (user_id r =? uid)%N) (rsvps ev) with
           | Some r => status r
           | None => ""
           end
       | None => ""
       end;
     is_favorited :=
       match viewer with
       | Some uid => existsb (N.eqb uid) (favorites ev)
       | None => false
       end |}.

(** The mutation of [POST /:id/rsvp] once the status has been accepted
    and the event loaded. *)
Definition drop_rsvp (ev : Event) (uid : ObjectId) : Event :=
  match findIndex (λ r, (user_id r =? uid)%N) (rsvps ev) with
  | Some i =>
      let oldStatus := default "" (status <$> rsvps ev !! i) in
      set_rsvps ev
        (if String.eqb oldStatus "going"
         then attendees_going ev - 1 else attendees_going ev)
        (if String.eqb oldStatus "interested"
         then attendees_interested ev - 1 else attendees_interested ev)
        (splice1 i (rsvps ev))
  | None => ev
  end.

Definition push_rsvp (ev : Event) (uid : ObjectId) (rsvp_status : string) : Event :=
  if negb (String.eqb rsvp_status "") && negb (String.eqb rsvp_status "not_going")
  then
    set_rsvps ev
      (if String.eqb rsvp_status "going"
       then attendees_going ev + 1 else attendees_going ev)
      (if String.eqb rsvp_status "interested"
       then attendees_interested ev + 1 else attendees_interested ev)
      (rsvps ev ++ [{| user_id := uid; status := rsvp_status |}])
  else ev.

Definition apply_rsvp (ev : Event) (uid : ObjectId) (rsvp_status : string) : Event :=
  push_rsvp (drop_rsvp ev uid) uid rsvp_status.

(** [['going', 'interested', 'not_going', ''].includes(v)] *)
Definition rsvp_status_of (v : JsVal) : option string :=
  match v with
  | JStr s =>
      if existsb (String.eqb s) ["going"; "interested"; "not_going"; ""]
      then Some s else None
  | _ => None
  end.

(** The mutation of [POST /:id/favorite]. *)
Definition apply_favorite (ev : Event) (uid : ObjectId) (v : JsVal) : Event :=
  match truthy v, findIndex (N.eqb uid) (favorites ev) with
  | true, None => set_favorites ev (favorites ev ++ [uid])
  | false, Some favIndex => set_favorites ev (splice1 favIndex (favorites ev))
  | _, _ => ev
  end.

(** Modelled from the spec: the unique indexes of [models/User] on
    [username] and [email], the final arbiter of an insert; a violation
    is error 11000 and names the key of the index. *)
Definition duplicate_key (us : gmap ObjectId User) (u : User) : option string :=
  if bool_decide (is_Some (findOne (λ v, String.eqb (username v) (username u)) us))
  then Some "username"
  else if bool_decide (is_Some (findOne (λ v, String.eqb (email v) (email u)) us))
  then Some "email"
  else None.

(** ** The handlers *)
Section Handlers.
Context `{Platform}.

Definition invalid (sch : Joi.Schema) (e : Joi.Error) : Response :=
  respond 400 (Invalid e (Joi.custom_message sch e)).

(** [jwt.sign({ userId }, ..)]: the token, as the claim it carries. *)
Definition generateToken (userId : ObjectId) : ObjectId := userId.

Definition session (id : ObjectId) (u : User) : Payload :=
  Session id (username u) (email u) (isAdmin u) (generateToken id).

(** [POST /api/auth/register] *)
Definition register (now : Z) (s : State) (body : Body) : State * Response :=
  match Joi.validate registerSchema body with
  | Some e => (s, invalid registerSchema e)
  | None =>
      match field body "username", field body "email",
            field body "password", field body "zipcode" with
      | JStr username0, JStr email0, JStr password0, JStr zipcode0 =>
          let username1 := Text.trim username0 in
          let email1 := Text.trim (Text.toLowerCase email0) in
          let zipcode1 := Text.trim zipcode0 in
          match regex ("^" +:+ username1 +:+ "$") with
          | None =>
              (s, message 500 "Unable to create account. Please try again later.")
          | Some re =>
              let matches (u : User) : bool :=
                String.eqb (email u) email1 || re (username u) in
              match findOne matches (users s) with
              | Some (_, existingUser) =>
                  if String.eqb (email existingUser) email1
                  then (s, message 409 "This email is already registered. Please use a different email or try logging in.")
                  else (s, message 409 "This username is already taken. Please choose a different username.")
              | None =>
                  let user :=
                    {| username := username1; email := email1;
                       password := bcrypt_hash password0; zipcode := zipcode1;
                       isAdmin := false; lastLogin := None; createdAt := now |} in
                  match duplicate_key (users s) user with
                  | Some key =>
                      (s, message 409 ("This " +:+ key +:+ " is already registered. Please use a different " +:+ key +:+ "."))
                  | None =>
                      let id := next_oid s in
                      (take_oid (set_users s (<[id := user]> (users s))),
                       respond 201 (session id user))
                  end
              end
          end
      | _, _, _, _ =>
          (s, message 500 "Unable to create account. Please try again later.")
      end
  end.

Definition set_lastLogin (u : User) (now : Z) : User :=
  {| username := username u; email := email u; password := password u;
     zipcode := zipcode u; isAdmin := isAdmin u; lastLogin := Some now;
     createdAt := createdAt u |}.

(** [POST /api/auth/login] *)
Definition login (now : Z) (s : State) (body : Body) : State * Response :=
  match Joi.validate loginSchema body with
  | Some e => (s, invalid loginSchema e)
  | None =>
      match field body "email", field body "password" with
      | JStr email0, JStr password0 =>
          let email1 := Text.trim (Text.toLowerCase email0) in
          match findOne (λ u, String.eqb (email u) email1) (users s) with
          | None =>
              (s, message 401 "Invalid email or password. Please check your credentials and try again.")
          | Some (id, user) =>
              if negb (bcrypt_compare password0 (password user))
              then (s, message 401 "Invalid email or password. Please check your credentials and try again.")
              else
                let user' := set_lastLogin user now in
                (set_users s (<[id := user']> (users s)),
                 respond 200 (session id user'))
          end
      | _, _ => (s, message 500 "Unable to log in. Please try again later.")
      end
  end.

(** The filter [GET /api/events] builds from [req.query]. *)
Definition category_filter (category0 : option string) (ev : Event) : bool :=
  match category0 with
  | Some c => if String.eqb c "" then true else String.eqb (category (details ev)) c
  | None => true
  end.

Definition search_fields (ev : Event) : list string :=
  [title (details ev)] ++ option_list (description (details ev))
    ++ [location (details ev)].

Definition search_filter (re : string → bool) (ev : Event) : bool :=
  existsb re (search_fields ev).

(** [.sort({ date: 1, created_at: -1 })] *)
Definition listing_leb (a b : ObjectId * Event) : bool :=
  match String.compare (date (details a.2)) (date (details b.2)) with
  | Lt => true
  | Eq => created_at b.2 <=? created_at a.2
  | Gt => false
  end.

Definition listing_le (a b : ObjectId * Event) : Prop := listing_leb a b = true.

#[global] Instance listing_le_dec a b : Decision (listing_le a b).
Proof. unfold listing_le. apply _. Defined.

Definition find_sorted (p : Event → bool) (es : gmap ObjectId Event)
    : list (ObjectId * Event) :=
  merge_sort listing_le (List.filter (λ kv, p kv.2) (map_to_list es)).

(** [GET /api/events] *)
Definition list_events (s : State) (tok : Token) (category0 search : option string)
    : State * Response :=
  let viewer := optionalAuth s tok in
  let project l := Events ((λ kv, toClientJSON kv.1 kv.2 viewer) <$> l) in
  match search with
  | Some t =>
      if String.eqb t "" then
        (s, respond 200 (project (find_sorted (category_filter category0) (events s))))
      else
        match regex t with
        | None => (s, message 500 "Failed to fetch events")
        | Some re =>
            (s, respond 200 (project (find_sorted
               (λ ev, category_filter category0 ev && search_filter re ev) (events s))))
        end
  | None =>
      (s, respond 200 (project (find_sorted (category_filter category0) (events s))))
  end.

(** [GET /api/events/:id] *)
Definition get_event (s : State) (tok : Token) (id : ObjectId) : State * Response :=
  match events s !! id with
  | None => (s, message 404 "Event not found")
  | Some ev => (s, respond 200 (OneEvent (toClientJSON id ev (optionalAuth s tok))))
  end.

(** [POST /api/events] *)
Definition create_event (now : Z) (s : State) (tok : Token) (body : Body)
    : State * Response :=
  match auth s tok with
  | inl r => (s, r)
  | inr (userId, user) =>
      match Joi.validate eventSchema body with
      | Some e => (s, invalid eventSchema e)
      | None =>
          let id := next_oid s in
          let ev := new_event body userId user now in
          (take_oid (set_events s (<[id := ev]> (events s))),
           respond 201 (OneEvent (toClientJSON id ev (Some userId))))
      end
  end.

(** [PUT /api/events/:id] *)
Definition update_event (now : Z) (s : State) (tok : Token) (id : ObjectId)
    (body : Body) : State * Response :=
  match auth s tok with
  | inl r => (s, r)
  | inr (userId, _) =>
      match Joi.validate eventSchema body with
      | Some e => (s, invalid eventSchema e)
      | None =>
          match events s !! id with
          | None => (s, message 404 "Event not found")
          | Some ev =>
              if negb (organizer_id ev =? userId)%N
              then (s, message 403 "You can only edit your own events")
              else
                let ev' := set_details ev (assign (details ev) body) now in
                (set_events s (<[id := ev']> (events s)),
                 respond 200 (OneEvent (toClientJSON id ev' (Some userId))))
          end
      end
  end.

(** [DELETE /api/events/:id] *)
Definition delete_event (s : State) (tok : Token) (id : ObjectId) : State * Response :=
  match auth s tok with
  | inl r => (s, r)
  | inr (userId, _) =>
      match events s !! id with
      | None => (s, message 404 "Event not found")
      | Some ev =>
          if negb (organizer_id ev =? userId)%N
          then (s, message 403 "You can only delete your own events")
          else (set_events s (delete id (events s)), respond 204 Empty)
      end
  end.

(** [POST /api/events/:id/rsvp] *)
Definition rsvp (s : State) (tok : Token) (id : ObjectId) (body : Body)
    : State * Response :=
  match auth s tok with
  | inl r => (s, r)
  | inr (userId, _) =>
      let rsvp_status := field body "rsvp_status" in
      match rsvp_status_of rsvp_status with
      | None => (s, message 400 "Invalid RSVP status")
      | Some st =>
          match events s !! id with
          | None => (s, message 404 "Event not found")
          | Some ev =>
              (set_events s (<[id := apply_rsvp ev userId st]> (events s)),
               respond 200 (RsvpSet id rsvp_status))
          end
      end
  end.

(** [POST /api/events/:id/favorite] *)
Definition favorite (s : State) (tok : Token) (id : ObjectId) (body : Body)
    : State * Response :=
  match auth s tok with
  | inl r => (s, r)
  | inr (userId, _) =>
      let is_favorited0 := field body "is_favorited" in
      match events s !! id with
      | None => (s, message 404 "Event not found")
      | Some ev =>
          (set_events s (<[id := apply_favorite ev userId is_favorited0]> (events s)),
           respond 200 (FavoriteSet id is_favorited0))
      end
  end.

(** [POST /api/events/:id/comments] *)
Definition add_comment (now : Z) (s : State) (tok : Token) (id : ObjectId)
    (body : Body) : State * Response :=
  match auth s tok with
  | inl r => (s, r)
  | inr (userId, user) =>
      let text0 := field body "text" in
      if negb (truthy text0) then (s, message 400 "Comment text is required")
      else
        match text0 with
        | JStr t =>
            if (String.length (Text.trim t) =? 0)%nat
            then (s, message 400 "Comment text is required")
            else if (500 <? String.length t)%nat
            then (s, message 400 "Comment cannot exceed 500 characters")
            else
              match events s !! id with
              | None => (s, message 404 "Event not found")
              | Some ev =>
                  let newComment :=
                    {| comment_id := next_oid s; comment_user_id := userId;
                       comment_username := username user;
                       text := Text.trim t; comment_created_at := now |} in
                  let ev' := set_comments ev (comments ev ++ [newComment]) in
                  (take_oid (set_events s (<[id := ev']> (events s))),
                   respond 201 (OneComment newComment))
              end
        | _ => (s, message 500 "Failed to add comment")
        end
  end.

(** The same route from the text of [:id].  [Event.findById] casts the
    text to an id; when the text does not spell one the query throws and
    the handler's [catch] answers.  The text of the comment is checked
    before the query is made. *)
Section PathText.

Variable castObjectId : string → option ObjectId.

Definition comment_route (now : Z) (s : State) (tok : Token) (id : string)
    (body : Body) : State * Response :=
  match auth s tok with
  | inl r => (s, r)
  | inr (userId, user) =>
      let text0 := field body "text" in
      if negb (truthy text0) then (s, message 400 "Comment text is required")
      else
        match text0 with
        | JStr t =>
            if (String.length (Text.trim t) =? 0)%nat
            then (s, message 400 "Comment text is required")
            else if (500 <? String.length t)%nat
            then (s, message 400 "Comment cannot exceed 500 characters")
            else
              match castObjectId id with
              | None => (s, message 500 "Failed to add comment")
              | Some eventId =>
                  match events s !! eventId with
                  | None => (s, message 404 "Event not found")
                  | Some ev =>
                      let newComment :=
                        {| comment_id := next_oid s; comment_user_id := userId;
                           comment_username := username user;
                           text := Text.trim t; comment_created_at := now |} in
                      let ev' := set_comments ev (comments ev ++ [newComment]) in
                      (take_oid (set_events s (<[eventId := ev']> (events s))),
                       respond 201 (OneComment newComment))
                  end
              end
        | _ => (s, message 500 "Failed to add comment")
        end
  end.

End PathText.

(** [(a, b) => b.created_at - a.created_at] *)
Definition newest_first (a b : Comment) : Z :=
  comment_created_at b - comment_created_at a.

(** [GET /api/events/:id/comments] *)
Definition get_comments (s : State) (tok : Token) (id : ObjectId) : State * Response :=
  match events s !! id with
  | None => (s, message 404 "Event not found")
  | Some ev => (s, respond 200 (Comments (Array_sort newest_first (comments ev))))
  end.

(** [DELETE /api/events/admin/clear-all]: the route carries no guard. *)
Definition clear_all (s : State) : State * Response :=
  (set_events s (deleteMany (λ _, true) (events s)),
   respond 200 (Cleared "All events cleared"
     (size (events s) - size (deleteMany (λ _, true) (events s)))%nat)).

(** [DELETE /api/admin/users/:id].  [userId] is the id that the path
    spells as [toString] prints it; on such a path the route's comparison
    of the two texts is the comparison of the two ids. *)
Definition admin_delete_user (s : State) (tok : Token) (userId : ObjectId)
    : State * Response :=
  match adminAuth s tok with
  | inl r => (s, r)
  | inr (me, _) =>
      if (userId =? me)%N then (s, message 400 "Cannot delete your own account")
      else
        match users s !! userId with
        | None => (s, message 404 "User not found")
        | Some _ =>
            let es := deleteMany (λ ev, (organizer_id ev =? userId)%N) (events s) in
            (set_users (set_events s es) (delete userId (users s)),
             message 200 "User and their events deleted successfully")
        end
  end.

(** [DELETE /api/admin/events/:id] *)
Definition admin_delete_event (s : State) (tok : Token) (eventId : ObjectId)
    : State * Response :=
  match adminAuth s tok with
  | inl r => (s, r)
  | inr _ =>
      match events s !! eventId with
      | None => (s, message 404 "Event not found")
      | Some _ =>
          (set_events s (delete eventId (events s)),
           message 200 "Event deleted successfully")
      end
  end.

(** The routers: one request, at server time [now]. *)
Definition handle (now : Z) (s : State) (r : Request) : State * Response :=
  match r with
  | PostRegister body => register now s body
  | PostLogin body => login now s body
  | GetEvents tok category0 search => list_events s tok category0 search
  | GetEvent tok id => get_event s tok id
  | PostEvent tok body => create_event now s tok body
  | PutEvent tok id body => update_event now s tok id body
  | DeleteEvent tok id => delete_event s tok id
  | PostRsvp tok id body => rsvp s tok id body
  | PostFavorite tok id body => favorite s tok id body
  | PostComment tok id body => add_comment now s tok id body
  | GetComments tok id => get_comments s tok id
  | DeleteClearAll _ => clear_all s
  | AdminDeleteUser tok id => admin_delete_user s tok id
  | AdminDeleteEvent tok id => admin_delete_event s tok id
  end.

(** A run of requests, each with its time stamp. *)
Definition run (s : State) (l : list (Z * Request)) : State :=
  foldl (λ s' r, (handle r.1 s' r.2).1) s l.

End Handlers.

(** ** A regular-expression engine for examples

    The part of PCRE syntax made of literal characters, [.], the greedy
    quantifiers [+], [*] and [?] after a single character, a leading [^]
    and a trailing [$], matched without regard to letter case.  Any other
    use of a metacharacter is left out: [compile] gives [None] for it. *)
Module Pcre.

Inductive Atom := Lit (c : ascii) | Dot.
Inductive Quant := One | Plus | Star | Opt.

Record Pattern := {
  from_start : bool;
  items : list (Atom * Quant);
  to_end : bool;
}.

Definition metacharacters : list ascii :=
  list_ascii_of_string "\^$.|?*+()[]{}".

Definition is_meta (c : ascii) : bool := existsb (Ascii.eqb c) metacharacters.

Definition plain (p : string) : bool :=
  forallb (λ c, negb (is_meta c)) (list_ascii_of_string p).

Definition atom_of (c : ascii) : option Atom :=
  if Ascii.eqb c "." then Some Dot
  else if is_meta c then None
  else Some (Lit c).

Definition quant_of (c : ascii) : option Quant :=
  if Ascii.eqb c "+" then Some Plus
  else if Ascii.eqb c "*" then Some Star
  else if Ascii.eqb c "?" then Some Opt
  else None.

Definition add_item (a : Atom) (q : Quant)
    (r : option (list (Atom * Quant) * bool)) : option (list (Atom * Quant) * bool) :=
  match r with
  | Some (l, e) => Some ((a, q) :: l, e)
  | None => None
  end.

Fixpoint parse_items (l : list ascii) : option (list (Atom * Quant) * bool) :=
  match l with
  | [] => Some ([], false)
  | c :: l' =>
      match l' with
      | [] =>
          if Ascii.eqb c "$" then Some ([], true)
          else match atom_of c with
               | Some a => Some ([(a, One)], false)
               | None => None
               end
      | d :: l'' =>
          match atom_of c with
          | None => None
          | Some a =>
              match quant_of d with
              | Some q => add_item a q (parse_items l'')
              | None => add_item a One (parse_items l')
              end
          end
      end
  end.

Definition parse (p : string) : option Pattern :=
  match list_ascii_of_string p with
  | c :: l =>
      if Ascii.eqb c "^"
      then (λ r, {| from_start := true; items := r.1; to_end := r.2 |}) <$> parse_items l
      else (λ r, {| from_start := false; items := r.1; to_end := r.2 |}) <$> parse_items (c :: l)
  | [] => Some {| from_start := false; items := []; to_end := false |}
  end.

Definition newline : ascii := ascii_of_N 10.

Definition atom_matches (a : Atom) (c : ascii) : bool :=
  match a with
  | Lit x => Ascii.eqb (Text.lower x) (Text.lower c)
  | Dot => negb (Ascii.eqb c newline)
  end.

Fixpoint star (a : Atom) (k : list ascii → bool) (s : list ascii) : bool :=
  k s ||
  match s with
  | c :: s' => atom_matches a c && star a k s'
  | [] => false
  end.

Fixpoint match_items (p : list (Atom * Quant)) (k : list ascii → bool)
    (s : list ascii) : bool :=
  match p with
  | [] => k s
  | (a, q) :: p' =>
      match q with
      | One =>
          match s with
          | c :: s' => atom_matches a c && match_items p' k s'
          | [] => false
          end
      | Plus =>
          match s with
          | c :: s' => atom_matches a c && star a (match_items p' k) s'
          | [] => false
          end
      | Star => star a (match_items p' k) s
      | Opt =>
          match_items p' k s ||
          match s with
          | c :: s' => atom_matches a c && match_items p' k s'
          | [] => false
          end
      end
  end.

(** [$] holds at the end of the subject and before a final newline. *)
Definition at_end (e : bool) (rest : list ascii) : bool :=
  if e then
    match rest with
    | [] => true
    | [c] => Ascii.eqb c newline
    | _ => false
    end
  else true.

Fixpoint search (m : list ascii → bool) (s : list ascii) : bool :=
  m s ||
  match s with
  | _ :: s' => search m s'
  | [] => false
  end.

Definition test (p : Pattern) (s : string) : bool :=
  let m := match_items (items p) (at_end (to_end p)) in
  if from_start p then m (list_ascii_of_string s)
  else search m (list_ascii_of_string s).

Definition compile (p : string) : option (string → bool) :=
  test <$> parse p.

End Pcre.

(** ** A platform for examples

    An address is accepted when it has text on both sides of one [@] and
    a dot in the part after it; a URI when it has a scheme before [:];
    the password hash is a reversible tag. *)
Module Sample.

Definition has_char (c : ascii) (l : list ascii) : bool := existsb (Ascii.eqb c) l.

Fixpoint split_at (c : ascii) (l : list ascii) : option (list ascii * list ascii) :=
  match l with
  | [] => None
  | x :: l' =>
      if Ascii.eqb x c then Some ([], l')
      else (λ r, (x :: r.1, r.2)) <$> split_at c l'
  end.

Definition email_ok (s : string) : bool :=
  match split_at "@" (list_ascii_of_string s) with
  | Some (local_part, domain) =>
      negb (length local_part =? 0)%nat && negb (has_char "@" domain) &&
      negb (has_char " " (local_part ++ domain)) &&
      match split_at "." domain with
      | Some (host, tld) => negb (length host =? 0)%nat && negb (length tld =? 0)%nat
      | None => false
      end
  | None => false
  end.

Definition uri_ok (s : string) : bool :=
  match split_at ":" (list_ascii_of_string s) with
  | Some (scheme, _) => negb (length scheme =? 0)%nat
  | None => false
  end.

Definition hash (p : string) : string := "hash:" +:+ p.

Definition compare (candidate hashed : string) : bool :=
  String.eqb (hash candidate) hashed.

#[export] Instance platform : Platform := {|
  joi_email := email_ok;
  joi_uri := uri_ok;
  bcrypt_hash := hash;
  bcrypt_compare := compare;
  regex := Pcre.compile;
|}.

End Sample.

(** ** The admin bootstrap of [create-admin.js]

    The answers typed at the prompts; [makeAdmin] is only asked for when
    the account exists and is not an administrator yet. *)
Section Bootstrap.
Context `{Platform}.

Definition set_isAdmin (u : User) : User :=
  {| username := username u; email := email u; password := password u;
     zipcode := zipcode u; isAdmin := true; lastLogin := lastLogin u;
     createdAt := createdAt u |}.

Definition createAdmin (now : Z) (s : State)
    (username0 email0 password0 zipcode0 makeAdmin : string) : State :=
  match findOne (λ u, String.eqb (email u) email0 || String.eqb (username u) username0)
          (users s) with
  | Some (id, existingUser) =>
      if isAdmin existingUser then s
      else if String.eqb (Text.toLowerCase makeAdmin) "yes"
              || String.eqb (Text.toLowerCase makeAdmin) "y"
      then set_users s (<[id := set_isAdmin existingUser]> (users s))
      else s
  | None =>
      let adminUser :=
        {| username := username0; email := email0;
           password := bcrypt_hash password0; zipcode := zipcode0;
           isAdmin := true; lastLogin := None; createdAt := now |} in
      take_oid (set_users s (<[next_oid s := adminUser]> (users s)))
  end.

(** The stores the service can be in: empty collections, then any
    sequence of requests and bootstrap runs. *)
Inductive reachable : State → Prop :=
| reach_empty : reachable empty_state
| reach_request now s r : reachable s → reachable (handle now s r).1
| reach_bootstrap now s u e p z a :
    reachable s → reachable (createAdmin now s u e p z a).

(** The stores reached through the routes alone, registration being
    the only way in for an account. *)
Inductive served : State → Prop :=
| served_empty : served empty_state
| served_request now s r : served s → served (handle now s r).1.

End Bootstrap.

(** ** Invariants of the data model *)

(** The number of entries of [l] with the given status. *)
Definition count_status (st : string) (l : list Rsvp) : Z :=
  Z.of_nat (length (List.filter (λ r, String.eqb (status r) st) l)).

Record event_ok (ev : Event) : Prop := {
  one_rsvp_per_user : NoDup (user_id <$> rsvps ev);
  going_counted : attendees_going ev = count_status "going" (rsvps ev);
  interested_counted : attendees_interested ev = count_status "interested" (rsvps ev);
  favorites_once : NoDup (favorites ev);
}.

Definition events_ok (es : gmap ObjectId Event) : Prop :=
  ∀ id ev, es !! id = Some ev → event_ok ev.

Definition store_ok (s : State) : Prop := events_ok (events s).

(** Stored addresses are in lower case and no two accounts share one. *)
Definition emails_ok (us : gmap ObjectId User) : Prop :=
  (∀ i u, us !! i = Some u → Text.toLowerCase (email u) = email u) ∧
  (∀ i j u v, us !! i = Some u → us !! j = Some v → email u = email v → i = j).

(** ** The RSVP transition in the words of the specification

    Remove the user's entry, taking one off the counter of its status
    when that was [going] or [interested]; then, when the new status is
    [going] or [interested], add a new entry and one to its counter. *)
Definition entries_of (uid : ObjectId) (l : list Rsvp) : list Rsvp :=
  List.filter (λ r, (user_id r =? uid)%N) l.

Definition entries_but (uid : ObjectId) (l : list Rsvp) : list Rsvp :=
  List.filter (λ r, negb (user_id r =? uid)%N) l.

Definition spec_remove (ev : Event) (uid : ObjectId) : Event :=
  set_rsvps ev
    (attendees_going ev - count_status "going" (entries_of uid (rsvps ev)))
    (attendees_interested ev - count_status "interested" (entries_of uid (rsvps ev)))
    (entries_but uid (rsvps ev)).

Definition spec_insert (ev : Event) (uid : ObjectId) (st : string) : Event :=
  if String.eqb st "going"
  then set_rsvps ev (attendees_going ev + 1) (attendees_interested ev)
         (rsvps ev ++ [{| user_id := uid; status := "going" |}])
  else if String.eqb st "interested"
  then set_rsvps ev (attendees_going ev) (attendees_interested ev + 1)
         (rsvps ev ++ [{| user_id := uid; status := "interested" |}])
  else ev.

Definition spec_rsvp (ev : Event) (uid : ObjectId) (st : string) : Event :=
  spec_insert (spec_remove ev uid) uid st.

Definition rsvp_statuses : list string := ["going"; "interested"; "not_going"; ""].

(** ** Substring search, decided *)

Fixpoint prefix_ci (p s : list ascii) : bool :=
  match p, s with
  | [], _ => true
  | x :: p', c :: s' => Ascii.eqb (Text.lower x) (Text.lower c) && prefix_ci p' s'
  | _ :: _, [] => false
  end.

Definition ci_includes (needle hay : string) : bool :=
  Pcre.search (prefix_ci (list_ascii_of_string needle)) (list_ascii_of_string hay).

(** What the listing promises of its order: earlier date first, and on
    the same date the later creation first. *)
Definition listed_before (a b : Event) : Prop :=
  String.ltb (date (details a)) (date (details b)) = true ∨
  (date (details a) = date (details b) ∧ created_at b ≤ created_at a).

(** What the search promises for text without metacharacters. *)
Definition search_hit (t : string) (ev : Event) : Prop :=
  Text.ci_substring t (title (details ev)) ∨
  (∃ d, description (details ev) = Some d ∧ Text.ci_substring t d) ∨
  Text.ci_substring t (location (details ev)).

Definition category_hit (c : option string) (ev : Event) : Prop :=
  ∀ c0, c = Some c0 → c0 ≠ "" → category (details ev) = c0.

(** What the search does with a pattern the engine accepts: the pattern
    matches in the title, the description or the location. *)
Definition pattern_hit `{Platform} (search : option string) (ev : Event) : Prop :=
  ∀ t re, search = Some t → t ≠ "" → regex t = Some re →
    re (title (details ev)) = true ∨
    (∃ d, description (details ev) = Some d ∧ re d = true) ∨
    re (location (details ev)) = true.

(** An engine reads text without metacharacters as itself. *)
Definition literal_search `{Platform} : Prop :=
  ∀ p, Pcre.plain p = true →
    ∃ re, regex p = Some re ∧ ∀ s, re s = true ↔ Text.ci_substring p s.

(** ** Worked stores, on the example platform *)
Module Scenario.
Import Sample.

Definition account (u e : string) : Body :=
  list_to_map [("username", JStr u); ("email", JStr e);
               ("password", JStr "secret1"); ("zipcode", JStr "12345")].

Definition party (t d : string) : Body :=
  list_to_map [("title", JStr t); ("category", JStr "general");
               ("date", JStr d); ("location", JStr "Town hall")].

Definition alice : ObjectId := 1%N.
Definition bob : ObjectId := 2%N.
Definition picnic : ObjectId := 3%N.
Definition root : ObjectId := 4%N.

(** Alice and Bob register; Alice posts an event. *)
Definition town : State :=
  run empty_state [
    (1, PostRegister (account "alice" "alice@example.com"));
    (2, PostRegister (account "bob" "bob@example.com"));
    (3, PostEvent (Some alice) (party "abc party" "2024-05-01"))].

(** The same, after the bootstrap script has created the administrator. *)
Definition town_hall : State :=
  createAdmin 4 town "root" "root@example.com" "secret1" "12345" "".

Definition says (t : string) : Body := {[ "text" := JStr t ]}.

Definition alice_account : User :=
  {| username := "alice"; email := "alice@example.com";
     password := "hash:secret1"; zipcode := "12345"; isAdmin := false;
     lastLogin := None; createdAt := 1 |}.

Definition bob_account : User :=
  {| username := "bob"; email := "bob@example.com";
     password := "hash:secret1"; zipcode := "12345"; isAdmin := false;
     lastLogin := None; createdAt := 2 |}.

Definition root_account : User :=
  {| username := "root"; email := "root@example.com";
     password := "hash:secret1"; zipcode := "12345"; isAdmin := true;
     lastLogin := None; createdAt := 4 |}.

Definition picnic_event : Event :=
  {| details :=
       {| title := "abc party"; description := None; category := "general";
          date := "2024-05-01"; time := None; location := "Town hall";
          contact_info := None; image_url := None; max_capacity := 0;
          tags := [] |};
     organizer := "alice"; organizer_id := alice;
     attendees_going := 0; attendees_interested := 0;
     rsvps := []; favorites := []; comments := [];
     created_at := 3; updated_at := 3 |}.

End Scenario.

(** The route that clears the collection. *)
Definition is_clear_all (r : Request) : bool :=
  match r with
  | DeleteClearAll _ => true
  | _ => false
  end.

(** ** Further invariants and frames *)

(** Ids already handed out lie below the next one. *)
Definition ids_fresh (s : State) : Prop :=
  (∀ i, is_Some (users s !! i) → (i < next_oid s)%N) ∧
  (∀ i, is_Some (events s !! i) → (i < next_oid s)%N).

(** Entries are kept only for the two statuses that count. *)
Definition statuses_ok (ev : Event) : Prop :=
  Forall (λ r, status r = "going" ∨ status r = "interested") (rsvps ev).

(** What of an event the schema's keys do not reach. *)
Definition same_interactions (a b : Event) : Prop :=
  organizer b = organizer a ∧ organizer_id b = organizer_id a ∧
  attendees_going b = attendees_going a ∧
  attendees_interested b = attendees_interested a ∧
  rsvps b = rsvps a ∧ favorites b = favorites a ∧ comments b = comments a ∧
  created_at b = created_at a.

(** All accounts, and all events but the one addressed, are as before. *)
Definition others_untouched (id : ObjectId) (s s' : State) : Prop :=
  users s' = users s ∧ ∀ j, j ≠ id → events s' !! j = events s !! j.

(** The constraints of [eventSchema], read on a stored event. *)
Definition details_ok `{Platform} (d : Details) : Prop :=
  (3 ≤ String.length (title d) ≤ 100)%nat ∧
  category d ∈ categories ∧
  date_pattern (date d) = true ∧
  (1 ≤ String.length (location d) ≤ 200)%nat ∧
  (∀ x, description d = Some x → (String.length x ≤ 2000)%nat) ∧
  (∀ x, contact_info d = Some x → (String.length x ≤ 100)%nat) ∧
  (∀ x, image_url d = Some x → x = "" ∨ joi_uri x = true) ∧
  0 ≤ max_capacity d ∧
  (length (tags d) ≤ 10)%nat.

(** The organizer of every event is an account, and the name the event
    carries is that account's. *)
Definition organizers_ok (s : State) : Prop :=
  ∀ id ev, events s !! id = Some ev →
    ∃ u, users s !! organizer_id ev = Some u ∧ username u = organizer ev.

Definition no_admin (s : State) : Prop :=
  ∀ i u, users s !! i = Some u → isAdmin u = false.

(** What an account is known by and logs in with. *)
Definition same_profile (u u' : User) : Prop :=
  username u' = username u ∧ email u' = email u ∧ password u' = password u ∧
  zipcode u' = zipcode u ∧ createdAt u' = createdAt u.

(** The routes that only read. *)
Definition is_read (r : Request) : bool :=
  match r with
  | GetEvents _ _ _ | GetEvent _ _ | GetComments _ _ => true
  | _ => false
  end.

Definition comment_ok (c : Comment) : Prop :=
  (1 ≤ String.length (text c) ≤ 500)%nat ∧ Text.trim (text c) = text c.

(** The text of every comment is as [POST /:id/comments] lets it in, and
    the author's name on it is the author's username while the account
    exists. *)
Definition comments_ok (s : State) : Prop :=
  ∀ id ev c, events s !! id = Some ev → c ∈ comments ev →
    comment_ok c ∧ (comment_user_id c < next_oid s)%N ∧
    ∀ u, users s !! comment_user_id c = Some u → username u = comment_username c.

Definition posted_at (t : Z) (c : Comment) : bool := comment_created_at c =? t.

(** The body of a login with the credentials of a registration. *)
Definition credentials (e p : string) : Body :=
  {[ "email" := JStr e; "password" := JStr p ]}.

(** * The admin console and the server's middleware

    The reading routes of the admin router, its statistics and its
    notification routes with [models/Notification], then the CORS check
    and the error handler of [server.js].  A query parameter is a string
    or absent, and so is each field of a notification payload.  Numbers
    are integers, as the JavaScript numbers are below 2^53. *)

Module Notification.

(** A document of [notificationSchema]. *)
Record doc := {
  title : string;
  message : string;
  type : string;
  priority : string;
  targetUsers : string;
  specificUserIds : list ObjectId;
  createdBy : ObjectId;
  expiresAt : option Z;
  isActive : bool;
  createdAt : Z;
  updatedAt : Z;
}.

Definition types : list string := ["info"; "warning"; "success"; "error"].
Definition priorities : list string := ["low"; "normal"; "high"].
Definition targets : list string := ["all"; "admins"; "specific"].

Definition one_of (allowed : list string) (s : string) : bool :=
  existsb (String.eqb s) allowed.

(** The validators [save()] runs on a document whose attributes have
    been cast: [required] and [maxlength] on [title] and [message],
    [enum] on [type], [priority] and [targetUsers]. *)
Definition validate (n : doc) : bool :=
  negb (String.eqb (title n) "") && (String.length (title n) <=? 100)%nat &&
  negb (String.eqb (message n) "") && (String.length (message n) <=? 500)%nat &&
  one_of types (type n) && one_of priorities (priority n) &&
  one_of targets (targetUsers n).

End Notification.

(** [req.body] of [POST /api/admin/notifications]. *)
Record NotificationBody := {
  body_title : option string;
  body_message : option string;
  body_type : option string;
  body_priority : option string;
  body_targetUsers : option string;
  body_expiresAt : option string;
}.

(** The store with the notification collection beside it. *)
Record Console := {
  store : State;
  notifications : gmap ObjectId Notification.doc;
}.

Definition set_store (c : Console) (s : State) : Console :=
  {| store := s; notifications := notifications c |}.

Definition set_notifications (c : Console)
    (ns : gmap ObjectId Notification.doc) : Console :=
  {| store := store c; notifications := ns |}.

Definition empty_console : Console :=
  {| store := empty_state; notifications := ∅ |}.

(** The [pagination] object of the listings. *)
Record Pagination := {
  currentPage : Z;
  totalPages : Z;
  total : nat;
  perPage : Z;
}.

(** [populate(path, 'username email')]: the account referred to, or
    [null] when there is none any more. *)
Definition populate (us : gmap ObjectId User) (id : ObjectId) : option (string * string) :=
  (λ u, (username u, email u)) <$> us !! id.

Inductive AdminPayload :=
| Plain (p : Payload)
| UserPage (l : list (ObjectId * User)) (p : Pagination)
| MemberPage (l : list (ObjectId * User)) (days : Z) (p : Pagination)
| EventPage (l : list (ObjectId * Event * option (string * string))) (p : Pagination)
| StatsReport (totalUsers totalEvents adminUsers recentUsers upcomingEvents : nat)
    (eventsByCategory : list (string * nat))
| NotificationCreated (m : string) (id : ObjectId) (n : Notification.doc)
| NotificationPage
    (l : list (ObjectId * Notification.doc * option (string * string)))
    (p : Pagination).

Record AdminResponse := { admin_status : Z; admin_payload : AdminPayload }.

Definition plain (r : Response) : AdminResponse :=
  {| admin_status := http_status r; admin_payload := Plain (payload r) |}.

Definition admin_respond (code : Z) (p : AdminPayload) : AdminResponse :=
  {| admin_status := code; admin_payload := p |}.

Inductive AdminRequest :=
| GetUsers (tok : Token) (page limit : option string)
| GetActiveMembers (tok : Token) (days page limit : option string)
| GetAdminEvents (tok : Token) (page limit : option string)
| GetStats (tok : Token)
| PostNotification (tok : Token) (body : NotificationBody)
| GetNotifications (tok : Token) (page limit : option string)
| DeleteNotification (tok : Token) (id : ObjectId).

(** [Math.ceil(a / b)] *)
Definition ceil_div (a b : Z) : Z := - ((- a) / b).

(** [.skip(skip).limit(limit)] on the sorted result; a limit of zero is
    no limit.  [None] for a skip or a limit that is negative or beyond
    the safe integers, whose outcome is the driver's and not the
    router's. *)
Definition skip_limit {A} (skip limit : Z) (l : list A) : option (list A) :=
  if (skip <? 0) || (limit <? 0) || (Joi.max_safe_integer <? skip)
     || (Joi.max_safe_integer <? limit)
  then None
  else if limit =? 0 then Some (drop (Z.to_nat skip) l)
  else Some (take (Z.to_nat limit) (drop (Z.to_nat skip) l)).

(** The page and the [pagination] object of a listing. *)
Definition paginate {A} (page limit : Z) (count : nat) (sorted : list A)
    : option (list A * Pagination) :=
  match skip_limit ((page - 1) * limit) limit sorted with
  | Some l =>
      Some (l, {| currentPage := page;
                  totalPages := ceil_div (Z.of_nat count) limit;
                  total := count; perPage := limit |})
  | None => None
  end.

(** [.sort({ key: -1 })] *)
Definition newest {A} (key : A → Z) (a b : ObjectId * A) : Prop :=
  key b.2 ≤ key a.2.

#[global] Instance newest_dec {A} (key : A → Z) a b : Decision (newest key a b).
Proof. unfold newest. apply _. Defined.

Definition sort_desc {A} (key : A → Z) (l : list (ObjectId * A)) : list (ObjectId * A) :=
  merge_sort (newest key) l.

(** [$group] by a key with [$sum: 1]: each key once, with its count. *)
Definition group_count (l : list string) : list (string * nat) :=
  (λ c, (c, length (List.filter (String.eqb c) l))) <$> remove_dups l.

Definition more_first (a b : string * nat) : Prop := (b.2 ≤ a.2)%nat.

#[global] Instance more_first_dec a b : Decision (more_first a b).
Proof. unfold more_first. apply _. Defined.

(** [x || d] on a string that may be absent. *)
Definition or_default (x : option string) (d : string) : string :=
  match x with
  | Some s => if String.eqb s "" then d else s
  | None => d
  end.

Section AdminConsole.

(** Outside the repository: [parseInt] ([None] is [NaN]), [new
    Date(string)] ([None] is an invalid date), the date a number of
    days before an instant ([setDate(getDate() - days)], [None] when
    that is no valid date) and the calendar date of an instant
    ([toISOString().split('T')[0]]). *)
Variable parseInt : option string → option Z.
Variable Date_parse : string → option Z.
Variable days_before : Z → Z → option Z.
Variable isoDate : Z → string.

(** [parseInt(q) || d]: [NaN] and zero give the default. *)
Definition or_number (q : option string) (d : Z) : Z :=
  match parseInt q with
  | Some n => if n =? 0 then d else n
  | None => d
  end.

(** [GET /api/admin/users] *)
Definition get_users (c : Console) (tok : Token) (page limit : option string)
    : option (Console * AdminResponse) :=
  match adminAuth (store c) tok with
  | inl r => Some (c, plain r)
  | inr _ =>
      let page1 := or_number page 1 in
      let limit1 := or_number limit 50 in
      let totalUsers := size (users (store c)) in
      match paginate page1 limit1 totalUsers
              (sort_desc createdAt (map_to_list (users (store c)))) with
      | Some (l, p) => Some (c, admin_respond 200 (UserPage l p))
      | None => None
      end
  end.

(** [lastLogin: { $gte: daysAgo }]: an account that never logged in
    does not match. *)
Definition active_since (daysAgo : Z) (u : User) : bool :=
  match lastLogin u with
  | Some t => daysAgo <=? t
  | None => false
  end.

(** [GET /api/admin/active-members] *)
Definition get_active_members (now : Z) (c : Console) (tok : Token)
    (days page limit : option string) : option (Console * AdminResponse) :=
  match adminAuth (store c) tok with
  | inl r => Some (c, plain r)
  | inr _ =>
      let days1 := or_number days 30 in
      let page1 := or_number page 1 in
      let limit1 := or_number limit 50 in
      match days_before now days1 with
      | None => Some (c, plain (message 500 "Failed to fetch active members"))
      | Some daysAgo =>
          let matching :=
            List.filter (λ kv, active_since daysAgo kv.2)
              (map_to_list (users (store c))) in
          match paginate page1 limit1 (length matching)
                  (sort_desc (λ u, default 0 (lastLogin u)) matching) with
          | Some (l, p) => Some (c, admin_respond 200 (MemberPage l days1 p))
          | None => None
          end
      end
  end.

(** [GET /api/admin/events] *)
Definition get_admin_events (c : Console) (tok : Token) (page limit : option string)
    : option (Console * AdminResponse) :=
  match adminAuth (store c) tok with
  | inl r => Some (c, plain r)
  | inr _ =>
      let page1 := or_number page 1 in
      let limit1 := or_number limit 50 in
      let totalEvents := size (events (store c)) in
      match paginate page1 limit1 totalEvents
              (sort_desc created_at (map_to_list (events (store c)))) with
      | Some (l, p) =>
          Some (c, admin_respond 200
                     (EventPage
                        ((λ kv, (kv, populate (users (store c)) (organizer_id kv.2))) <$> l)
                        p))
      | None => None
      end
  end.

(** [GET /api/admin/stats] *)
Definition get_stats (now : Z) (c : Console) (tok : Token)
    : option (Console * AdminResponse) :=
  match adminAuth (store c) tok with
  | inl r => Some (c, plain r)
  | inr _ =>
      let us := map_to_list (users (store c)) in
      let es := map_to_list (events (store c)) in
      match days_before now 7 with
      | None => Some (c, plain (message 500 "Failed to fetch statistics"))
      | Some sevenDaysAgo =>
          let today := isoDate now in
          Some (c, admin_respond 200
            (StatsReport
               (size (users (store c)))
               (size (events (store c)))
               (length (List.filter (λ kv, isAdmin kv.2) us))
               (length (List.filter (λ kv, sevenDaysAgo <=? createdAt kv.2) us))
               (length (List.filter
                          (λ kv, String.leb today (date (details kv.2))) es))
               (merge_sort more_first
                  (group_count ((λ kv, category (details kv.2)) <$> es)))))
      end
  end.

(** [POST /api/admin/notifications] *)
Definition create_notification (now : Z) (c : Console) (tok : Token)
    (body : NotificationBody) : option (Console * AdminResponse) :=
  match adminAuth (store c) tok with
  | inl r => Some (c, plain r)
  | inr (userId, _) =>
      let title0 := or_default (body_title body) "" in
      let message0 := or_default (body_message body) "" in
      if String.eqb title0 "" || String.eqb message0 ""
      then Some (c, plain (message 400 "Title and message are required"))
      else if (100 <? String.length title0)%nat
      then Some (c, plain (message 400 "Title must be 100 characters or less"))
      else if (500 <? String.length message0)%nat
      then Some (c, plain (message 400 "Message must be 500 characters or less"))
      else
        let failed := Some (c, plain (message 500 "Failed to create notification")) in
        let save expiresAt0 :=
          let notification :=
            {| Notification.title := Text.trim title0;
               Notification.message := message0;
               Notification.type := or_default (body_type body) "info";
               Notification.priority := or_default (body_priority body) "normal";
               Notification.targetUsers := or_default (body_targetUsers body) "all";
               Notification.specificUserIds := [];
               Notification.createdBy := userId;
               Notification.expiresAt := expiresAt0;
               Notification.isActive := true;
               Notification.createdAt := now;
               Notification.updatedAt := now |} in
          if Notification.validate notification
          then
            let id := next_oid (store c) in
            Some ({| store := take_oid (store c);
                     notifications := <[id := notification]> (notifications c) |},
                  admin_respond 201
                    (NotificationCreated "Notification created successfully"
                       id notification))
          else failed in
        match body_expiresAt body with
        | None => save None
        | Some d =>
            if String.eqb d "" then save None
            else
              match Date_parse d with
              | Some t => save (Some t)
              | None => failed
              end
        end
  end.

(** [GET /api/admin/notifications] *)
Definition get_notifications (c : Console) (tok : Token) (page limit : option string)
    : option (Console * AdminResponse) :=
  match adminAuth (store c) tok with
  | inl r => Some (c, plain r)
  | inr _ =>
      let page1 := or_number page 1 in
      let limit1 := or_number limit 20 in
      let totalNotifications := size (notifications c) in
      match paginate page1 limit1 totalNotifications
              (sort_desc Notification.createdAt (map_to_list (notifications c))) with
      | Some (l, p) =>
          Some (c, admin_respond 200
                     (NotificationPage
                        ((λ kv, (kv, populate (users (store c))
                                       (Notification.createdBy kv.2))) <$> l)
                        p))
      | None => None
      end
  end.

(** [DELETE /api/admin/notifications/:id] *)
Definition delete_notification (c : Console) (tok : Token) (notificationId : ObjectId)
    : option (Console * AdminResponse) :=
  match adminAuth (store c) tok with
  | inl r => Some (c, plain r)
  | inr _ =>
      match notifications c !! notificationId with
      | None => Some (c, plain (message 404 "Notification not found"))
      | Some _ =>
          Some (set_notifications c (delete notificationId (notifications c)),
                plain (message 200 "Notification deleted successfully"))
      end
  end.

(** The rest of the admin router: one request, at server time [now]. *)
Definition admin_handle (now : Z) (c : Console) (r : AdminRequest)
    : option (Console * AdminResponse) :=
  match r with
  | GetUsers tok page limit => get_users c tok page limit
  | GetActiveMembers tok days page limit => get_active_members now c tok days page limit
  | GetAdminEvents tok page limit => get_admin_events c tok page limit
  | GetStats tok => get_stats now c tok
  | PostNotification tok body => create_notification now c tok body
  | GetNotifications tok page limit => get_notifications c tok page limit
  | DeleteNotification tok id => delete_notification c tok id
  end.

Context `{Platform}.

(** The consoles the service can be in: requests to the three routers
    and runs of the bootstrap script, from empty collections. *)
Inductive console_reachable : Console → Prop :=
| console_empty : console_reachable empty_console
| console_request now c r :
    console_reachable c → console_reachable (set_store c (handle now (store c) r).1)
| console_bootstrap now c u e p z a :
    console_reachable c →
    console_reachable (set_store c (createAdmin now (store c) u e p z a))
| console_admin now c r c' resp :
    console_reachable c → admin_handle now c r = Some (c', resp) →
    console_reachable c'.

End AdminConsole.

(** What the notification schema and the route promise of a stored
    notification. *)
Definition notification_ok (n : Notification.doc) : Prop :=
  (1 ≤ String.length (Notification.title n) ≤ 100)%nat ∧
  Text.trim (Notification.title n) = Notification.title n ∧
  (1 ≤ String.length (Notification.message n) ≤ 500)%nat ∧
  Notification.type n ∈ Notification.types ∧
  Notification.priority n ∈ Notification.priorities ∧
  Notification.targetUsers n ∈ Notification.targets ∧
  Notification.specificUserIds n = [] ∧
  Notification.isActive n = true.


(** ** The middleware of [server.js] *)

(** [s.split(',')] on the characters of [s]: the pieces between the
    commas, at least one. *)
Fixpoint split_commas (l : list ascii) : list (list ascii) :=
  match l with
  | [] => [[]]
  | c :: l' =>
      if Ascii.eqb c ","
      then [] :: split_commas l'
      else
        match split_commas l' with
        | piece :: pieces => (c :: piece) :: pieces
        | [] => [[c]]
        end
  end.

Definition split (s : string) : list string :=
  string_of_list_ascii <$> split_commas (list_ascii_of_string s).

(** [pieces.join(',')] *)
Fixpoint join_commas (pieces : list (list ascii)) : list ascii :=
  match pieces with
  | [] => []
  | [piece] => piece
  | piece :: pieces' => piece ++ ","%char :: join_commas pieces'
  end.

(** The [origin] function of [corsOptions]: [true] for [callback(null,
    true)], [false] for the error [Not allowed by CORS].
    [CORS_ORIGIN] is the environment variable, [origin] the request
    header. *)
Definition cors_origin (CORS_ORIGIN origin : option string) : bool :=
  match origin with
  | None => true
  | Some o =>
      if String.eqb o "" then true
      else
        match CORS_ORIGIN with
        | Some e =>
            if String.eqb e "*" then true
            else existsb (String.eqb o) (split e)
        | None => false
        end
  end.

(** What the error-handling middleware reads of an error. *)
Record ServerError := {
  error_name : string;
  error_status : option Z;
  error_message : option string;
  error_errors : list string;
}.

Inductive ErrorBody :=
| ValidationErrors (m : string) (errors : list string)
| ErrorMessage (m : string).

(** [app.use((err, req, res, next) => ..)] *)
Definition error_handler (err : ServerError) : Z * ErrorBody :=
  if String.eqb (error_name err) "ValidationError"
  then (400, ValidationErrors "Validation error" (error_errors err))
  else if String.eqb (error_name err) "UnauthorizedError"
  then (401, ErrorMessage "Invalid token")
  else
    (match error_status err with
     | Some n => if n =? 0 then 500 else n
     | None => 500
     end,
     ErrorMessage (or_default (error_message err) "Internal server error")).

(** [new Error('Not allowed by CORS')] *)
Definition cors_error : ServerError :=
  {| error_name := "Error"; error_status := None;
     error_message := Some "Not allowed by CORS"; error_errors := [] |}.

(** The answer to a request as far as the CORS check decides it: the
    [cors] middleware passes the callback's error on to the error
    handler, and lets the request through to the routers otherwise. *)
Definition cors_gate (CORS_ORIGIN origin : option string) : option (Z * ErrorBody) :=
  if cors_origin CORS_ORIGIN origin then None else Some (error_handler cors_error).

(** * Properties *)

(** Closed examples run on the example platform. *)
#[local] Existing Instance Sample.platform.

(** ** Lists *)

Lemma findIndex_None {A} (p : A → bool) (l : list A) :
  findIndex p l = None ↔ ∀ x, x ∈ l → p x = false.
Proof.
  induction l as [|y l IH]; simpl.
  - split; [intros _ x Hx; inversion Hx | done].
  - destruct (p y) eqn:Hy.
    + split; [done | intros Hall]. specialize (Hall y (list_elem_of_here _ _)). congruence.
    + destruct (findIndex p l) eqn:Hf; simpl.
      * split; [done | intros Hall]. exfalso.
        assert (Some n = None) as Hn; [| done].
        apply IH. intros x Hx. apply Hall. by apply list_elem_of_further.
      * split; [intros _ x Hx | done].
        apply elem_of_cons in Hx as [-> | Hx]; [done |].
        destruct IH as [IH _]. by apply IH.
Qed.

Lemma findIndex_Some {A} (p : A → bool) (l : list A) (i : nat) :
  findIndex p l = Some i →
  ∃ (l1 : list A) (x : A) (l2 : list A),
    l = (l1 ++ x :: l2)%list ∧ length l1 = i ∧ p x = true ∧
    ∀ y, y ∈ l1 → p y = false.
Proof.
  revert i. induction l as [|y l IH]; simpl; intros i Hi; [done |].
  destruct (p y) eqn:Hy.
  - injection Hi as <-. exists [], y, l. repeat split; try done.
    intros z Hz. inversion Hz.
  - destruct (findIndex p l) as [j|] eqn:Hf; simpl in Hi; [| done].
    injection Hi as <-.
    destruct (IH j eq_refl) as (l1 & x & l2 & -> & Hlen & Hx & Hl1).
    exists (y :: l1), x, l2. repeat split; simpl; try done; [by rewrite Hlen |].
    intros z Hz. apply elem_of_cons in Hz as [-> | Hz]; [done | by apply Hl1].
Qed.

Lemma splice1_middle {A} (l1 l2 : list A) (x : A) :
  splice1 (length l1) (l1 ++ x :: l2) = l1 ++ l2.
Proof.
  unfold splice1. rewrite take_app_length.
  replace (S (length l1)) with (length (l1 ++ [x])) by (rewrite length_app; simpl; lia).
  by rewrite (cons_middle x l1 l2), app_assoc, drop_app_length.
Qed.

Lemma lookup_middle {A} (l1 l2 : list A) (x : A) :
  (l1 ++ x :: l2) !! length l1 = Some x.
Proof. by rewrite list_lookup_middle. Qed.

Lemma filter_none {A} (p : A → bool) (l : list A) :
  (∀ x, x ∈ l → p x = false) → List.filter p l = [].
Proof.
  induction l as [|y l IH]; simpl; intros Hall; [done |].
  rewrite (Hall y (list_elem_of_here _ _)). apply IH.
  intros x Hx. apply Hall. by apply list_elem_of_further.
Qed.

Lemma filter_all {A} (p : A → bool) (l : list A) :
  (∀ x, x ∈ l → p x = true) → List.filter p l = l.
Proof.
  induction l as [|y l IH]; simpl; intros Hall; [done |].
  rewrite (Hall y (list_elem_of_here _ _)). f_equal. apply IH.
  intros x Hx. apply Hall. by apply list_elem_of_further.
Qed.

Lemma elem_of_filter_bool {A} (p : A → bool) (l : list A) (x : A) :
  x ∈ List.filter p l ↔ x ∈ l ∧ p x = true.
Proof. rewrite !list_elem_of_In. apply filter_In. Qed.

Lemma NoDup_fmap_filter {A B} `{EqDecision B} (f : A → B) (p : A → bool) (l : list A) :
  NoDup (f <$> l) → NoDup (f <$> List.filter p l).
Proof.
  induction l as [|y l IH]; simpl; intros Hnd; [done |].
  apply NoDup_cons in Hnd as [Hy Hnd].
  destruct (p y); simpl; [| by apply IH].
  apply NoDup_cons. split; [| by apply IH].
  intros Hin. apply Hy. apply list_elem_of_fmap in Hin as (z & -> & Hz).
  apply list_elem_of_fmap. exists z. split; [done |].
  by apply elem_of_filter_bool in Hz as [Hz _].
Qed.

(** ** The RSVP transition *)

Lemma count_status_app st (l1 l2 : list Rsvp) :
  count_status st (l1 ++ l2) = count_status st l1 + count_status st l2.
Proof. unfold count_status. rewrite List.filter_app, length_app. lia. Qed.

Lemma count_status_one st (r : Rsvp) :
  count_status st [r] = if String.eqb (status r) st then 1 else 0.
Proof. unfold count_status. simpl. by destruct (String.eqb (status r) st). Qed.

Lemma count_status_split st uid (l : list Rsvp) :
  count_status st l =
  count_status st (entries_of uid l) + count_status st (entries_but uid l).
Proof.
  unfold count_status, entries_of, entries_but.
  induction l as [|r l IH]; simpl; [done |].
  destruct (user_id r =? uid)%N; simpl;
    destruct (String.eqb (status r) st); simpl; lia.
Qed.

Lemma entries_but_ids uid (l : list Rsvp) : uid ∉ user_id <$> entries_but uid l.
Proof.
  intros Hin. apply list_elem_of_fmap in Hin as (r & -> & Hr).
  apply elem_of_filter_bool in Hr as [_ Hr].
  by rewrite N.eqb_refl in Hr.
Qed.

(** With one entry per user, the entry [findIndex] finds is the only one. *)
Lemma entries_found uid (l1 l2 : list Rsvp) (x : Rsvp) :
  NoDup (user_id <$> l1 ++ x :: l2) →
  (user_id x =? uid)%N = true →
  (∀ y, y ∈ l1 → (user_id y =? uid)%N = false) →
  entries_of uid (l1 ++ x :: l2) = [x] ∧ entries_but uid (l1 ++ x :: l2) = l1 ++ l2.
Proof.
  intros Hnd Hx Hl1.
  assert (∀ y, y ∈ l2 → (user_id y =? uid)%N = false) as Hl2.
  { intros y Hy. apply N.eqb_neq. intros Heq. apply N.eqb_eq in Hx.
    rewrite fmap_app, fmap_cons in Hnd.
    apply NoDup_app in Hnd as (_ & _ & Hnd).
    apply NoDup_cons in Hnd as [Hnot _]. apply Hnot.
    apply list_elem_of_fmap. exists y. split; [congruence | done]. }
  unfold entries_of, entries_but. rewrite !List.filter_app. simpl. rewrite Hx. simpl.
  rewrite (filter_none _ l1), (filter_none _ l2) by done.
  rewrite (filter_all _ l1), (filter_all _ l2); [done | |];
    intros y Hy; [rewrite Hl2 | rewrite Hl1]; done.
Qed.

Lemma set_rsvps_same (ev : Event) :
  set_rsvps ev (attendees_going ev) (attendees_interested ev) (rsvps ev) = ev.
Proof. by destruct ev. Qed.

(** The removal the handler performs is the removal of the specification. *)
Lemma drop_rsvp_spec (ev : Event) (uid : ObjectId) :
  NoDup (user_id <$> rsvps ev) → drop_rsvp ev uid = spec_remove ev uid.
Proof.
  intros Hnd. unfold drop_rsvp, spec_remove.
  destruct (findIndex _ (rsvps ev)) as [i|] eqn:Hi.
  - apply findIndex_Some in Hi as (l1 & x & l2 & Hl & <- & Hx & Hl1).
    rewrite Hl in Hnd |- *.
    destruct (entries_found uid l1 l2 x Hnd Hx Hl1) as [-> ->].
    rewrite lookup_middle, splice1_middle, !count_status_one. simpl.
    f_equal; destruct (String.eqb (status x) _); lia.
  - assert (∀ x, x ∈ rsvps ev → (user_id x =? uid)%N = false) as Hall
      by (by apply findIndex_None).
    unfold entries_of, entries_but.
    rewrite filter_none by done.
    rewrite filter_all by (intros x Hx; by rewrite Hall).
    unfold count_status. simpl. rewrite !Z.sub_0_r. by rewrite set_rsvps_same.
Qed.

Lemma rsvp_status_in (st : string) :
  st ∈ rsvp_statuses ↔ rsvp_status_of (JStr st) = Some st.
Proof.
  unfold rsvp_statuses, rsvp_status_of. simpl. rewrite !elem_of_cons.
  destruct (String.eqb_spec st "going"), (String.eqb_spec st "interested"),
    (String.eqb_spec st "not_going"), (String.eqb_spec st ""); simpl;
    split; try done; try (intros _; tauto).
  intros [|[|[|[|Hin]]]]; try done. inversion Hin.
Qed.

Lemma push_rsvp_spec (ev : Event) (uid : ObjectId) (st : string) :
  st ∈ rsvp_statuses → push_rsvp ev uid st = spec_insert ev uid st.
Proof.
  unfold rsvp_statuses. rewrite !elem_of_cons. unfold push_rsvp, spec_insert.
  intros [-> | [-> | [-> | [-> | Hin]]]]; simpl; try done.
  - inversion Hin.
Qed.

Lemma apply_rsvp_spec (ev : Event) (uid : ObjectId) (st : string) :
  NoDup (user_id <$> rsvps ev) → st ∈ rsvp_statuses →
  apply_rsvp ev uid st = spec_rsvp ev uid st.
Proof.
  intros Hnd Hst. unfold apply_rsvp, spec_rsvp.
  by rewrite drop_rsvp_spec, push_rsvp_spec.
Qed.

Lemma spec_remove_ok (ev : Event) (uid : ObjectId) :
  event_ok ev → event_ok (spec_remove ev uid).
Proof.
  intros [Hnd Hg Hi Hf]. split; simpl; [| | | done].
  - by apply NoDup_fmap_filter.
  - rewrite Hg, (count_status_split "going" uid). lia.
  - rewrite Hi, (count_status_split "interested" uid). lia.
Qed.

Lemma spec_insert_ok (ev : Event) (uid : ObjectId) (st : string) :
  uid ∉ user_id <$> rsvps ev → event_ok ev → event_ok (spec_insert ev uid st).
Proof.
  intros Hfresh [Hnd Hg Hi Hf]. unfold spec_insert.
  assert (NoDup (user_id <$> rsvps ev ++ [{| user_id := uid; status := st |}])) as Hnd'.
  { rewrite fmap_app. apply NoDup_app. repeat split; [done | | apply NoDup_singleton].
    intros x Hx Hx'. apply list_elem_of_singleton in Hx'. simpl in Hx'. by subst. }
  destruct (String.eqb_spec st "going") as [-> | _];
    [| destruct (String.eqb_spec st "interested") as [-> | _]];
    [split; simpl; try done; rewrite count_status_app, count_status_one; simpl; lia ..
    | by split].
Qed.

Lemma apply_rsvp_ok (ev : Event) (uid : ObjectId) (st : string) :
  st ∈ rsvp_statuses → event_ok ev → event_ok (apply_rsvp ev uid st).
Proof.
  intros Hst Hok. rewrite apply_rsvp_spec; [| by destruct Hok | done].
  unfold spec_rsvp. apply spec_insert_ok; [| by apply spec_remove_ok].
  simpl. apply entries_but_ids.
Qed.

(** ** Favorites *)

Lemma findIndex_absent (uid : ObjectId) (l : list ObjectId) :
  findIndex (N.eqb uid) l = None ↔ uid ∉ l.
Proof.
  rewrite findIndex_None. split.
  - intros Hall Hin. specialize (Hall uid Hin). by rewrite N.eqb_refl in Hall.
  - intros Hnot x Hx. apply N.eqb_neq. by intros <-.
Qed.

Lemma findIndex_present (uid : ObjectId) (l : list ObjectId) (i : nat) :
  findIndex (N.eqb uid) l = Some i →
  ∃ l1 l2 : list ObjectId, l = (l1 ++ uid :: l2) ∧ length l1 = i ∧ uid ∉ l1.
Proof.
  intros Hi. apply findIndex_Some in Hi as (l1 & x & l2 & -> & Hlen & Hx & Hl1).
  apply N.eqb_eq in Hx as <-. exists l1, l2. repeat split; [done |].
  intros Hin. specialize (Hl1 uid Hin). by rewrite N.eqb_refl in Hl1.
Qed.

(** What the handler leaves in the array, case by case. *)
Lemma apply_favorite_favorites (ev : Event) (uid : ObjectId) (v : JsVal) :
  (truthy v = true ∧ uid ∈ favorites ev ∧
     favorites (apply_favorite ev uid v) = favorites ev) ∨
  (truthy v = true ∧ (uid ∉ favorites ev) ∧
     favorites (apply_favorite ev uid v) = (favorites ev ++ [uid])) ∨
  (truthy v = false ∧ (uid ∉ favorites ev) ∧
     favorites (apply_favorite ev uid v) = favorites ev) ∨
  (truthy v = false ∧
     ∃ l1 l2 : list ObjectId, favorites ev = (l1 ++ uid :: l2) ∧ (uid ∉ l1) ∧
       favorites (apply_favorite ev uid v) = (l1 ++ l2)).
Proof.
  unfold apply_favorite.
  destruct (truthy v), (findIndex (N.eqb uid) (favorites ev)) as [i|] eqn:Hi; simpl.
  - left. apply findIndex_present in Hi as (l1 & l2 & -> & _ & _).
    repeat split. apply elem_of_app. right. apply list_elem_of_here.
  - right; left. by apply findIndex_absent in Hi.
  - do 3 right. apply findIndex_present in Hi as (l1 & l2 & Hl & <- & Hl1).
    split; [done |]. exists l1, l2. by rewrite Hl, splice1_middle.
  - right; right; left. by apply findIndex_absent in Hi.
Qed.

Lemma apply_favorite_rest (ev : Event) (uid : ObjectId) (v : JsVal) :
  apply_favorite ev uid v = set_favorites ev (favorites (apply_favorite ev uid v)).
Proof.
  unfold apply_favorite.
  destruct (truthy v), (findIndex _ _); simpl; try done; by destruct ev.
Qed.

Lemma apply_favorite_NoDup (ev : Event) (uid : ObjectId) (v : JsVal) :
  NoDup (favorites ev) → NoDup (favorites (apply_favorite ev uid v)).
Proof.
  intros Hnd.
  destruct (apply_favorite_favorites ev uid v)
    as [(_ & _ & ->) | [(_ & Hnot & ->) | [(_ & _ & ->) | (_ & l1 & l2 & Hl & _ & ->)]]];
    try done.
  - apply NoDup_app. repeat split; [done | | apply NoDup_singleton].
    intros x Hx Hx'. apply list_elem_of_singleton in Hx'. by subst.
  - rewrite Hl in Hnd. apply NoDup_app in Hnd as (H1 & H2 & H3).
    apply NoDup_cons in H3 as [_ H3]. apply NoDup_app. repeat split; [done | | done].
    intros x Hx Hx'. apply (H2 x Hx). by apply list_elem_of_further.
Qed.

Lemma apply_favorite_member (ev : Event) (uid : ObjectId) (v : JsVal) :
  NoDup (favorites ev) →
  uid ∈ favorites (apply_favorite ev uid v) ↔ truthy v = true.
Proof.
  intros Hnd.
  destruct (apply_favorite_favorites ev uid v)
    as [(Ht & Hin & ->) | [(Ht & _ & ->) | [(Ht & Hnot & ->) | (Ht & l1 & l2 & Hl & Hl1 & ->)]]].
  - done.
  - split; [done | intros _]. apply elem_of_app. right. apply list_elem_of_here.
  - rewrite Ht. split; [done | done].
  - rewrite Ht. split; [| done]. intros Hin. exfalso.
    rewrite Hl in Hnd. apply NoDup_app in Hnd as (_ & H2 & H3).
    apply NoDup_cons in H3 as [H3 _].
    apply elem_of_app in Hin as [Hin | Hin]; [by apply Hl1 | by apply H3].
Qed.

Lemma apply_favorite_others (ev : Event) (uid x : ObjectId) (v : JsVal) :
  x ≠ uid → x ∈ favorites (apply_favorite ev uid v) ↔ x ∈ favorites ev.
Proof.
  intros Hne.
  destruct (apply_favorite_favorites ev uid v)
    as [(_ & _ & ->) | [(_ & _ & ->) | [(_ & _ & ->) | (_ & l1 & l2 & -> & _ & ->)]]];
    try done.
  - rewrite elem_of_app, list_elem_of_singleton. tauto.
  - rewrite !elem_of_app, elem_of_cons. tauto.
Qed.

Lemma apply_favorite_ok (ev : Event) (uid : ObjectId) (v : JsVal) :
  event_ok ev → event_ok (apply_favorite ev uid v).
Proof.
  intros [Hnd Hg Hi Hf]. rewrite apply_favorite_rest.
  split; simpl; try done. by apply apply_favorite_NoDup.
Qed.

(** ** The invariants hold in every reachable store *)

Lemma events_ok_insert (es : gmap ObjectId Event) (id : ObjectId) (ev : Event) :
  events_ok es → event_ok ev → events_ok (<[id := ev]> es).
Proof.
  intros Hes Hev j ev' Hj. apply lookup_insert_Some in Hj as [[_ <-] | [_ Hj]]; eauto.
Qed.

Lemma events_ok_delete (es : gmap ObjectId Event) (id : ObjectId) :
  events_ok es → events_ok (delete id es).
Proof. intros Hes j ev' Hj. apply lookup_delete_Some in Hj as [_ Hj]. eauto. Qed.

Lemma events_ok_deleteMany (es : gmap ObjectId Event) (p : Event → bool) :
  events_ok es → events_ok (deleteMany p es).
Proof.
  intros Hes j ev' Hj. unfold deleteMany in Hj.
  apply map_lookup_filter_Some in Hj as [Hj _]. eauto.
Qed.

Lemma new_event_ok (b : Body) (uid : ObjectId) (u : User) (now : Z) :
  event_ok (new_event b uid u now).
Proof. split; simpl; try done; apply NoDup_nil_2. Qed.

Lemma set_details_ok (ev : Event) (d : Details) (now : Z) :
  event_ok ev → event_ok (set_details ev d now).
Proof. by intros []. Qed.

Lemma set_comments_ok (ev : Event) (l : list Comment) :
  event_ok ev → event_ok (set_comments ev l).
Proof. by intros []. Qed.

Lemma rsvp_status_of_in (v : JsVal) (st : string) :
  rsvp_status_of v = Some st → v = JStr st ∧ st ∈ rsvp_statuses.
Proof.
  destruct v; simpl; try done. case_match; [| done].
  intros [= <-]. split; [done |]. apply rsvp_status_in. simpl. by case_match.
Qed.

Create HintDb store.

#[local] Hint Resolve events_ok_insert events_ok_delete events_ok_deleteMany
  new_event_ok set_details_ok set_comments_ok apply_favorite_ok : store.

Section Reachable.
Context `{Platform}.

Lemma handle_ok (now : Z) (s : State) (r : Request) :
  store_ok s → store_ok (handle now s r).1.
Proof.
  unfold store_ok. intros Hs.
  destruct r; simpl;
    unfold register, login, list_events, get_event, create_event, update_event,
      delete_event, rsvp, favorite, add_comment, get_comments, clear_all,
      admin_delete_user, admin_delete_event;
    repeat (case_match; simpl; try done); eauto 6 with store.
  apply events_ok_insert; [done |].
  match goal with H : rsvp_status_of _ = Some _ |- _ =>
    apply rsvp_status_of_in in H as [_ H] end.
  apply apply_rsvp_ok; eauto.
Qed.

Lemma createAdmin_events now (s : State) (u e p z a : string) :
  events (createAdmin now s u e p z a) = events s.
Proof. unfold createAdmin. by repeat case_match. Qed.

Lemma reachable_ok (s : State) : reachable s → store_ok s.
Proof.
  induction 1 as [| now s r _ IH | now s u e p z a _ IH].
  - intros id ev Hid. simpl in Hid. by rewrite lookup_empty in Hid.
  - by apply handle_ok.
  - unfold store_ok. by rewrite createAdmin_events.
Qed.

Lemma run_ok (s : State) (l : list (Z * Request)) :
  store_ok s → store_ok (run s l).
Proof.
  revert s. induction l as [|r l IH]; simpl; intros s Hs; [done |].
  apply IH. by apply handle_ok.
Qed.

Lemma run_reachable (s : State) (l : list (Z * Request)) :
  reachable s → reachable (run s l).
Proof.
  revert s. induction l as [|r l IH]; simpl; intros s Hs; [done |].
  apply IH. by constructor.
Qed.

End Reachable.

(** ** RSVP counters and entries *)

Lemma rsvp_event_ok `{Platform} (s : State) (tok : Token) (id : ObjectId)
    (body : Body) (ev : Event) :
  events s !! id = Some ev → event_ok ev →
  ∃ ev', events (rsvp s tok id body).1 !! id = Some ev' ∧ event_ok ev'.
Proof.
  intros Hev Hok. unfold rsvp.
  destruct (auth s tok) as [r | [uid u]]; simpl; [by eauto |].
  destruct (rsvp_status_of _) as [st|] eqn:Hst; simpl; [| by eauto].
  rewrite Hev. simpl. rewrite lookup_insert_eq.
  eexists. split; [done |].
  apply rsvp_status_of_in in Hst as [_ Hst]. by apply apply_rsvp_ok.
Qed.

(** A successful [POST /api/events] stores [new_event] under a new id. *)
Lemma create_event_fresh `{Platform} (now : Z) (s : State) (uid : ObjectId)
    (u : User) (body : Body) :
  users s !! uid = Some u → Joi.validate eventSchema body = None →
  (handle now s (PostEvent (Some uid) body)).1 =
    take_oid (set_events s (<[next_oid s := new_event body uid u now]> (events s))).
Proof. intros Hu Hv. simpl. unfold create_event, auth. by rewrite Hu, Hv. Qed.

(** C3.  Start from an event as [POST /api/events] stores it: counters at
    zero and no entries.  After any finite sequence of RSVP requests on
    it, by any users (in particular distinct ones) and with any bodies,
    the event is still stored, [attendees_going] is the number of
    entries with status [going], [attendees_interested] the number with
    status [interested], and no user has two entries. *)
Theorem rsvp_counters_consistent `{Platform} (s : State) (id : ObjectId)
    (b : Body) (organizer0 : ObjectId) (u : User) (t0 : Z)
    (ops : list (Z * Token * Body)) :
  let s0 := set_events s (<[id := new_event b organizer0 u t0]> (events s)) in
  let requests := (λ o : Z * Token * Body, (o.1.1, PostRsvp o.1.2 id o.2)) <$> ops in
  ∃ ev, events (run s0 requests) !! id = Some ev ∧
        attendees_going ev = count_status "going" (rsvps ev) ∧
        attendees_interested ev = count_status "interested" (rsvps ev) ∧
        NoDup (user_id <$> rsvps ev).
Proof.
  intros s0 requests.
  assert (∃ ev, events s0 !! id = Some ev ∧ event_ok ev) as Hinv.
  { eexists. split; [apply lookup_insert_eq | apply new_event_ok]. }
  subst requests. generalize dependent s0. clear s.
  induction ops as [|[[t tok] body] ops IH]; intros s0 (ev & Hev & Hok).
  - exists ev. by destruct Hok.
  - simpl. apply IH. by apply (rsvp_event_ok s0 tok id body ev).
Qed.

(** C4.  In a reachable store, for an authenticated user and a stored
    event: a status among [going], [interested], [not_going] and the
    empty string is answered 200 and the event becomes what the
    specification's transition makes of it (the user's entry removed and
    its counter taken down, then for [going] and [interested] one new
    entry added and its counter taken up), after which the user's
    entries are that one entry, or none for [not_going] and the empty
    string; any other value is answered 400 and nothing changes. *)
Theorem rsvp_transition `{Platform} (now : Z) (s : State) (uid : ObjectId)
    (u : User) (id : ObjectId) (ev : Event) (body : Body) :
  reachable s → users s !! uid = Some u → events s !! id = Some ev →
  (∀ st, field body "rsvp_status" = JStr st → st ∈ rsvp_statuses →
     handle now s (PostRsvp (Some uid) id body) =
       (set_events s (<[id := spec_rsvp ev uid st]> (events s)),
        respond 200 (RsvpSet id (JStr st))) ∧
     entries_of uid (rsvps (spec_rsvp ev uid st)) =
       if String.eqb st "going" || String.eqb st "interested"
       then [{| user_id := uid; status := st |}] else []) ∧
  ((∀ st, st ∈ rsvp_statuses → field body "rsvp_status" ≠ JStr st) →
     handle now s (PostRsvp (Some uid) id body) =
       (s, message 400 "Invalid RSVP status")).
Proof.
  intros Hs Hu Hev. simpl. unfold rsvp, auth. rewrite Hu. simpl. split.
  - intros st Hst Hin. rewrite Hst.
    pose proof Hin as Hin'. apply rsvp_status_in in Hin'. rewrite Hin', Hev.
    destruct (reachable_ok s Hs id ev Hev) as [Hnd _ _ _].
    rewrite apply_rsvp_spec by done. split; [done |].
    assert (entries_of uid (entries_but uid (rsvps ev)) = []) as Hnone.
    { apply filter_none. intros x Hx.
      apply elem_of_filter_bool in Hx as [_ Hx]. by destruct (user_id x =? uid)%N. }
    unfold spec_rsvp, spec_insert.
    destruct (String.eqb_spec st "going") as [-> | _];
      [| destruct (String.eqb_spec st "interested") as [-> | _]]; simpl;
      unfold entries_of in *; rewrite ?List.filter_app, ?Hnone; simpl;
      by rewrite ?N.eqb_refl.
  - intros Hbad. destruct (rsvp_status_of _) as [st|] eqn:Hst; [| done].
    apply rsvp_status_of_in in Hst as [Hv Hin]. by destruct (Hbad st Hin).
Qed.

(** ** Favorite requests *)

Lemma set_favorites_same (ev : Event) : set_favorites ev (favorites ev) = ev.
Proof. by destruct ev. Qed.

Lemma apply_favorite_twice (ev : Event) (uid : ObjectId) (v : JsVal) :
  NoDup (favorites ev) →
  apply_favorite (apply_favorite ev uid v) uid v = apply_favorite ev uid v.
Proof.
  intros Hnd. set (ev' := apply_favorite ev uid v).
  pose proof (apply_favorite_member ev uid v Hnd) as Hmem. fold ev' in Hmem.
  rewrite (apply_favorite_rest ev' uid v).
  destruct (apply_favorite_favorites ev' uid v)
    as [(_ & _ & ->) | [(Ht & Hnot & _) | [(_ & _ & ->) | (Ht & l1 & l2 & Hl & _ & _)]]].
  - apply set_favorites_same.
  - exfalso. apply Hnot. by apply Hmem.
  - apply set_favorites_same.
  - assert (uid ∈ favorites ev') as Hin
      by (rewrite Hl; apply elem_of_app; right; apply list_elem_of_here).
    apply Hmem in Hin. congruence.
Qed.

Lemma favorite_result `{Platform} (s : State) (uid : ObjectId) (u : User)
    (id : ObjectId) (ev : Event) (body : Body) :
  users s !! uid = Some u → events s !! id = Some ev →
  favorite s (Some uid) id body =
    (set_events s (<[id := apply_favorite ev uid (field body "is_favorited")]> (events s)),
     respond 200 (FavoriteSet id (field body "is_favorited"))).
Proof. intros Hu Hev. unfold favorite, auth. by rewrite Hu, Hev. Qed.

(** C5.  In a reachable store, for an authenticated user and a stored
    event, a favorite request leaves a favorites array without
    duplicates that holds the user exactly when the request asked to
    favorite (a truthy [is_favorited]) and holds the other users as
    before; asking to favorite when already in it, or to unfavorite when
    not in it, changes nothing; and sending the request a second time
    changes nothing more. *)
Theorem favorite_set_membership `{Platform} (now : Z) (s : State) (uid : ObjectId)
    (u : User) (id : ObjectId) (ev : Event) (body : Body) :
  reachable s → users s !! uid = Some u → events s !! id = Some ev →
  let request := PostFavorite (Some uid) id body in
  let asked := truthy (field body "is_favorited") in
  ∃ ev', events (handle now s request).1 !! id = Some ev' ∧
    NoDup (favorites ev') ∧
    (uid ∈ favorites ev' ↔ asked = true) ∧
    (∀ x, x ≠ uid → x ∈ favorites ev' ↔ x ∈ favorites ev) ∧
    (asked = true → uid ∈ favorites ev → favorites ev' = favorites ev) ∧
    (asked = false → uid ∉ favorites ev → favorites ev' = favorites ev) ∧
    (handle now (handle now s request).1 request).1 = (handle now s request).1.
Proof.
  intros Hs Hu Hev request asked. subst request asked. simpl.
  destruct (reachable_ok s Hs id ev Hev) as [_ _ _ Hnd].
  rewrite (favorite_result s uid u id ev body Hu Hev). simpl.
  set (v := field body "is_favorited").
  exists (apply_favorite ev uid v). rewrite lookup_insert_eq.
  split; [done |]. split; [by apply apply_favorite_NoDup |].
  split; [by apply apply_favorite_member |].
  split; [intros x Hx; by apply apply_favorite_others |].
  destruct (apply_favorite_favorites ev uid v)
    as [(Ht & Hin & Hf) | [(Ht & Hnot & Hf) | [(Ht & Hnot & Hf) | (Ht & l1 & l2 & Hl & Hl1 & Hf)]]].
  all: split; [intros Ha Hb; first [done | congruence] |].
  all: split; [intros Ha Hb; first [done | congruence | idtac] |].
  4: { exfalso. apply Hb. rewrite Hl. apply elem_of_app. right. apply list_elem_of_here. }
  all: erewrite favorite_result; [| exact Hu | apply lookup_insert_eq]; simpl.
  all: fold v; by rewrite apply_favorite_twice, insert_insert_eq.
Qed.

(** C10.  An authenticated favorite request on a stored event is always
    answered 200, with the request's [is_favorited] value as it came
    (absent included), and never 400.  A truthy value leaves the array
    as it is when the user is in it and appends the user otherwise; a
    falsy value, an absent field among them, leaves the array as it is
    when the user is not in it and takes the user's first occurrence out
    otherwise.  Nothing else of the event changes. *)
Theorem favorite_never_rejects `{Platform} (now : Z) (s : State) (uid : ObjectId)
    (u : User) (id : ObjectId) (ev : Event) (body : Body) :
  users s !! uid = Some u → events s !! id = Some ev →
  let request := PostFavorite (Some uid) id body in
  let v := field body "is_favorited" in
  (handle now s request).2 = respond 200 (FavoriteSet id v) ∧
  (body !! "is_favorited" = None → truthy v = false) ∧
  ∃ ev', events (handle now s request).1 !! id = Some ev' ∧
    ev' = set_favorites ev (favorites ev') ∧
    (truthy v = true →
       (uid ∈ favorites ev → favorites ev' = favorites ev) ∧
       (uid ∉ favorites ev → favorites ev' = (favorites ev ++ [uid]))) ∧
    (truthy v = false →
       (uid ∉ favorites ev → favorites ev' = favorites ev) ∧
       (uid ∈ favorites ev →
          ∃ l1 l2 : list ObjectId, favorites ev = (l1 ++ uid :: l2) ∧ (uid ∉ l1) ∧
            favorites ev' = (l1 ++ l2))).
Proof.
  intros Hu Hev request v. subst request. simpl.
  rewrite (favorite_result s uid u id ev body Hu Hev). simpl. fold v.
  split; [done |]. split; [unfold v, field; by intros -> |].
  exists (apply_favorite ev uid v). rewrite lookup_insert_eq.
  split; [done |]. split.
  { rewrite (apply_favorite_rest ev uid v) at 1. by destruct ev. }
  destruct (apply_favorite_favorites ev uid v)
    as [(Ht & Hin & Hf) | [(Ht & Hnot & Hf) | [(Ht & Hnot & Hf) | (Ht & l1 & l2 & Hl & Hl1 & Hf)]]].
  all: split; intros Ht'; try congruence; split; intros Hm; try done.
  - exfalso. apply Hm. rewrite Hl. apply elem_of_app. right. apply list_elem_of_here.
  - exists l1, l2. by rewrite Hf.
Qed.

(** ** Who removes an event *)

Lemma town_reachable : reachable Scenario.town.
Proof. apply run_reachable. constructor. Qed.

Lemma town_hall_reachable : reachable Scenario.town_hall.
Proof. apply reach_bootstrap. apply town_reachable. Qed.

Lemma town_users :
  users Scenario.town !! Scenario.alice = Some Scenario.alice_account ∧
  users Scenario.town !! Scenario.bob = Some Scenario.bob_account ∧
  events Scenario.town !! Scenario.picnic = Some Scenario.picnic_event.
Proof. vm_compute. done. Qed.

Lemma insert_keeps {A} (m : gmap ObjectId A) (i j : ObjectId) (x y : A) :
  m !! j = Some y → <[i := x]> m !! j ≠ None.
Proof.
  intros Hj Hnone. apply lookup_insert_None in Hnone as [Hnone _]. congruence.
Qed.

(** C1, as the code has it.  The route that clears the collection left
    aside, a request that removes a stored event is [DELETE
    /api/events/:id] from the event's organizer, or [DELETE
    /api/admin/users/:id] from an administrator deleting the organizer's
    account (which is removed with the event), or [DELETE
    /api/admin/events/:id] from an administrator. *)
Theorem event_removal_principals `{Platform} (now : Z) (s : State) (r : Request)
    (id : ObjectId) (ev : Event) :
  events s !! id = Some ev →
  events (handle now s r).1 !! id = None →
  is_clear_all r = false →
  (∃ uid u, r = DeleteEvent (Some uid) id ∧ users s !! uid = Some u ∧
            organizer_id ev = uid) ∨
  (∃ admin a owner, r = AdminDeleteUser (Some admin) owner ∧
            users s !! admin = Some a ∧ isAdmin a = true ∧
            organizer_id ev = owner ∧
            is_Some (users s !! owner) ∧
            users (handle now s r).1 !! owner = None) ∨
  (∃ admin a, r = AdminDeleteEvent (Some admin) id ∧
            users s !! admin = Some a ∧ isAdmin a = true).
Proof.
  intros Hev Hgone Hr.
  destruct r; simpl in *; try done;
    unfold register, login, list_events, get_event, create_event, update_event,
      delete_event, rsvp, favorite, add_comment, get_comments,
      admin_delete_user, admin_delete_event, adminAuth, auth in Hgone |- *.
  all: repeat (case_match; simpl in *; simplify_eq; try congruence).
  all: try (exfalso; revert Hgone; by apply insert_keeps).
  all: try (apply lookup_insert_None in Hgone as [Hgone _]; congruence).
  - (* the organizer deletes *)
    apply lookup_delete_None in Hgone as [-> | Hgone]; [| congruence].
    left. eexists _, _. repeat split; [done |].
    match goal with H : negb _ = false |- _ =>
      apply negb_false_iff, N.eqb_eq in H end. congruence.
  - (* an administrator deletes the owner *)
    right; left. unfold deleteMany in Hgone.
    apply map_lookup_filter_None in Hgone as [Hgone | Hgone]; [congruence |].
    specialize (Hgone ev Hev). simpl in Hgone.
    destruct (organizer_id ev =? id0)%N eqn:Ho; [| done].
    apply N.eqb_eq in Ho.
    eexists _, _, _. repeat split; try done. by apply lookup_delete_eq.
  - (* an administrator deletes the event *)
    apply lookup_delete_None in Hgone as [-> | Hgone]; [| congruence].
    right; right. eexists _, _. by repeat split.
Qed.

(** C1 witness: Alice deletes her own event. *)
Lemma event_removal_principals_witness :
  events Scenario.town !! Scenario.picnic = Some Scenario.picnic_event ∧
  events (handle 5 Scenario.town
            (DeleteEvent (Some Scenario.alice) Scenario.picnic)).1 !! Scenario.picnic = None ∧
  ((∃ uid u, DeleteEvent (Some Scenario.alice) Scenario.picnic = DeleteEvent (Some uid) Scenario.picnic ∧
             users Scenario.town !! uid = Some u ∧
             organizer_id Scenario.picnic_event = uid) ∨
   (∃ admin a owner, DeleteEvent (Some Scenario.alice) Scenario.picnic = AdminDeleteUser (Some admin) owner ∧
             users Scenario.town !! admin = Some a ∧ isAdmin a = true ∧
             organizer_id Scenario.picnic_event = owner ∧
             is_Some (users Scenario.town !! owner) ∧
             users (handle 5 Scenario.town
                      (DeleteEvent (Some Scenario.alice) Scenario.picnic)).1 !! owner = None) ∨
   (∃ admin a, DeleteEvent (Some Scenario.alice) Scenario.picnic = AdminDeleteEvent (Some admin) Scenario.picnic ∧
             users Scenario.town !! admin = Some a ∧ isAdmin a = true)).
Proof.
  split; [vm_compute; reflexivity |]. split; [vm_compute; reflexivity |].
  apply (event_removal_principals 5 Scenario.town
           (DeleteEvent (Some Scenario.alice) Scenario.picnic)
           Scenario.picnic Scenario.picnic_event);
    vm_compute; reflexivity.
Defined.

(** C1 as stated fails: the administrator, who did not organize Alice's
    event, removes it through [DELETE /api/admin/events/:id] while
    Alice's account stays. *)
Lemma admin_removes_foreign_event :
  users Scenario.town_hall !! Scenario.root = Some Scenario.root_account ∧
  events Scenario.town_hall !! Scenario.picnic = Some Scenario.picnic_event ∧
  (organizer_id Scenario.picnic_event =? Scenario.root)%N = false ∧
  (let after := (handle 5 Scenario.town_hall
                   (AdminDeleteEvent (Some Scenario.root) Scenario.picnic)).1 in
   events after !! Scenario.picnic = None ∧
   users after !! Scenario.alice = Some Scenario.alice_account).
Proof. vm_compute. done. Qed.

(** The unguarded route: a request without any token empties the
    collection. *)
Lemma clear_all_unguarded `{Platform} (now : Z) (s : State) :
  events (handle now s (DeleteClearAll None)).1 = ∅.
Proof.
  simpl. unfold deleteMany. apply map_eq. intros i.
  rewrite lookup_empty. apply map_lookup_filter_None. right. done.
Qed.

(** ** Updates and deletes by someone else *)




(** ** Comments, newest first *)

Lemma sort_insert_Permutation {A} (cmp : A → A → Z) (x : A) (l : list A) :
  sort_insert cmp x l ≡ₚ x :: l.
Proof.
  induction l as [|y l IH]; simpl; [done |].
  destruct (0 <? cmp x y); [| done].
  rewrite IH. apply Permutation_swap.
Qed.

Lemma Array_sort_Permutation {A} (cmp : A → A → Z) (l : list A) :
  Array_sort cmp l ≡ₚ l.
Proof.
  induction l as [|x l IH]; simpl; [done |].
  rewrite sort_insert_Permutation. by rewrite IH.
Qed.

Lemma sort_insert_last {A} (cmp : A → A → Z) (x : A) (l : list A) :
  Forall (λ y, 0 < cmp x y) l → sort_insert cmp x l = l ++ [x].
Proof.
  induction 1 as [|y l Hy _ IH]; simpl; [done |].
  apply Z.ltb_lt in Hy. by rewrite Hy, IH.
Qed.

(** A comment older than all the others comes out last. *)
Lemma oldest_sorted_last (c : Comment) (l : list Comment) :
  Forall (λ y, comment_created_at c < comment_created_at y) l →
  ∃ newer, Array_sort newest_first (c :: l) = newer ++ [c] ∧ newer ≡ₚ l.
Proof.
  intros Hl. exists (Array_sort newest_first l).
  split; [| apply Array_sort_Permutation].
  simpl. apply sort_insert_last.
  rewrite (Array_sort_Permutation newest_first l).
  eapply Forall_impl; [exact Hl |]. intros y Hy. unfold newest_first. simpl in *. lia.
Qed.

Lemma add_comment_after `{Platform} (t0 now : Z) (s : State) (tok : Token)
    (id : ObjectId) (body : Body) (c : Comment) (added : list Comment) (ev : Event) :
  t0 < now →
  events s !! id = Some ev → comments ev = c :: added →
  Forall (λ y, t0 < comment_created_at y) added →
  ∃ ev' added', events (add_comment now s tok id body).1 !! id = Some ev' ∧
    comments ev' = c :: added' ∧ Forall (λ y, t0 < comment_created_at y) added'.
Proof.
  intros Hnow Hev Hc Hadded. unfold add_comment.
  repeat (case_match; simpl; try (by exists ev, added)).
  simplify_eq. rewrite lookup_insert_eq. eexists _, (added ++ [_]).
  split; [done |]. simpl. rewrite Hc. split; [done |].
  apply Forall_app. split; [done |]. by apply Forall_singleton.
Qed.

Lemma comments_after `{Platform} (t0 : Z) (E : ObjectId) (c : Comment)
    (later : list (Z * Token * Body)) :
  Forall (λ o : Z * Token * Body, t0 < o.1.1) later →
  ∀ (s : State) (ev : Event) (added : list Comment),
    events s !! E = Some ev → comments ev = c :: added →
    Forall (λ y, t0 < comment_created_at y) added →
    ∃ ev2 added2,
      events (run s ((λ o : Z * Token * Body, (o.1.1, PostComment o.1.2 E o.2)) <$> later))
        !! E = Some ev2 ∧
      comments ev2 = c :: added2 ∧ Forall (λ y, t0 < comment_created_at y) added2.
Proof.
  induction 1 as [|[[t tk] body] later Ht _ IH]; intros s ev added Hev Hc Hadded; simpl.
  - by exists ev, added.
  - destruct (add_comment_after t0 t s tk E body c added ev Ht Hev Hc Hadded)
      as (ev' & added' & Hev' & Hc' & Hadded').
    by apply (IH _ ev' added').
Qed.

(** C9, as the code has it.  Bob posts "Hello" on an event without
    comments: the listing is that one comment, with the text "Hello" and
    Bob's username.  After any further comment requests on the event at
    later times, the listing ends with that comment: every comment added
    later stands before it. *)
Theorem first_comment_listed_last `{Platform} (t0 : Z) (s : State) (b : ObjectId)
    (userB : User) (E : ObjectId) (ev : Event)
    (later : list (Z * Token * Body)) (tok : Token) (now : Z) :
  users s !! b = Some userB → events s !! E = Some ev → comments ev = [] →
  Forall (λ o : Z * Token * Body, t0 < o.1.1) later →
  let hello :=
    {| comment_id := next_oid s; comment_user_id := b;
       comment_username := username userB; text := "Hello";
       comment_created_at := t0 |} in
  let s1 := (handle t0 s (PostComment (Some b) E {[ "text" := JStr "Hello" ]})).1 in
  let s2 := run s1 ((λ o : Z * Token * Body, (o.1.1, PostComment o.1.2 E o.2)) <$> later) in
  (handle now s1 (GetComments tok E)).2 = respond 200 (Comments [hello]) ∧
  ∃ ev2 added newer,
    events s2 !! E = Some ev2 ∧ comments ev2 = hello :: added ∧
    Forall (λ c, t0 < comment_created_at c) added ∧ newer ≡ₚ added ∧
    (handle now s2 (GetComments tok E)).2 = respond 200 (Comments (newer ++ [hello])).
Proof.
  intros Hu Hev Hnone Hlater hello s1 s2.
  assert (events s1 !! E = Some (set_comments ev [hello])) as Hs1.
  { subst s1. simpl. unfold add_comment, auth. rewrite Hu. simpl.
    unfold field. rewrite lookup_singleton_eq. simpl.
    change (Text.trim "Hello") with "Hello". simpl. rewrite Hev. simpl.
    rewrite lookup_insert_eq, Hnone. done. }
  split.
  { simpl. unfold get_comments. by rewrite Hs1. }
  destruct (comments_after t0 E hello later Hlater s1 _ [] Hs1 eq_refl)
    as (ev2 & added & Hev2 & Hc2 & Hadded); [done |].
  destruct (oldest_sorted_last hello added) as (newer & Hsort & Hperm).
  { eapply Forall_impl; [exact Hadded |]. by intros c Hc. }
  exists ev2, added, newer. repeat split; try done.
  unfold s2, handle, get_comments. by rewrite Hev2, Hc2, Hsort.
Qed.

(** C9 witness: Bob's "Hello" at time 5 on Alice's event, then a comment
    by Alice at time 6. *)
Lemma first_comment_listed_last_witness :
  users Scenario.town !! Scenario.bob = Some Scenario.bob_account ∧
  events Scenario.town !! Scenario.picnic = Some Scenario.picnic_event ∧
  comments Scenario.picnic_event = [] ∧
  Forall (λ o : Z * Token * Body, 5 < o.1.1)
    [(6, Some Scenario.alice, Scenario.says "Second")] ∧
  ∃ newer,
    (handle 7
       (run (handle 5 Scenario.town
               (PostComment (Some Scenario.bob) Scenario.picnic
                  {[ "text" := JStr "Hello" ]})).1
            [(6, PostComment (Some Scenario.alice) Scenario.picnic
                   (Scenario.says "Second"))])
       (GetComments None Scenario.picnic)).2 =
    respond 200 (Comments (newer ++
      [{| comment_id := 4%N; comment_user_id := Scenario.bob;
          comment_username := "bob"; text := "Hello";
          comment_created_at := 5 |}])).
Proof.
  assert (Forall (λ o : Z * Token * Body, 5 < o.1.1)
            [(6, Some Scenario.alice, Scenario.says "Second")]) as Hlater
    by (repeat constructor).
  split; [vm_compute; reflexivity |]. split; [vm_compute; reflexivity |].
  split; [reflexivity |]. split; [exact Hlater |].
  destruct (first_comment_listed_last 5 Scenario.town Scenario.bob
              Scenario.bob_account Scenario.picnic Scenario.picnic_event
              [(6, Some Scenario.alice, Scenario.says "Second")] None 7)
    as (_ & ev2 & added & newer & _ & _ & _ & _ & Hlist);
    [vm_compute; reflexivity | vm_compute; reflexivity | reflexivity | exact Hlater |].
  exists newer. exact Hlist.
Defined.

(** C9 as stated fails: with Alice's comment added after Bob's "Hello",
    the listing gives Alice's comment first and "Hello" after it. *)
Lemma hello_listed_after_later_comment :
  (handle 7
     (run Scenario.town
        [(5, PostComment (Some Scenario.bob) Scenario.picnic (Scenario.says "Hello"));
         (6, PostComment (Some Scenario.alice) Scenario.picnic (Scenario.says "Second"))])
     (GetComments None Scenario.picnic)).2 =
  respond 200 (Comments [
    {| comment_id := 5%N; comment_user_id := Scenario.alice;
       comment_username := "alice"; text := "Second"; comment_created_at := 6 |};
    {| comment_id := 4%N; comment_user_id := Scenario.bob;
       comment_username := "bob"; text := "Hello"; comment_created_at := 5 |}]).
Proof. vm_compute. reflexivity. Qed.

(** ** Witnesses for the RSVP and favorite theorems *)

(** C4 witness: Bob answers "going" to Alice's event. *)
Lemma rsvp_transition_witness :
  users Scenario.town !! Scenario.bob = Some Scenario.bob_account ∧
  events Scenario.town !! Scenario.picnic = Some Scenario.picnic_event ∧
  handle 5 Scenario.town
    (PostRsvp (Some Scenario.bob) Scenario.picnic {[ "rsvp_status" := JStr "going" ]}) =
  (set_events Scenario.town
     (<[Scenario.picnic := spec_rsvp Scenario.picnic_event Scenario.bob "going"]>
        (events Scenario.town)),
   respond 200 (RsvpSet Scenario.picnic (JStr "going"))).
Proof.
  split; [vm_compute; reflexivity |]. split; [vm_compute; reflexivity |].
  destruct (rsvp_transition 5 Scenario.town Scenario.bob Scenario.bob_account
              Scenario.picnic Scenario.picnic_event
              {[ "rsvp_status" := JStr "going" ]})
    as [Hok _];
    [apply town_reachable | vm_compute; reflexivity | vm_compute; reflexivity |].
  apply (Hok "going"); [vm_compute; reflexivity | apply list_elem_of_here].
Defined.

(** C5 witness: Bob marks Alice's event as a favorite. *)
Lemma favorite_set_membership_witness :
  users Scenario.town !! Scenario.bob = Some Scenario.bob_account ∧
  events Scenario.town !! Scenario.picnic = Some Scenario.picnic_event ∧
  ∃ ev',
    events (handle 5 Scenario.town
              (PostFavorite (Some Scenario.bob) Scenario.picnic
                 {[ "is_favorited" := JBool true ]})).1 !! Scenario.picnic = Some ev' ∧
    NoDup (favorites ev') ∧ Scenario.bob ∈ favorites ev'.
Proof.
  split; [vm_compute; reflexivity |]. split; [vm_compute; reflexivity |].
  destruct (favorite_set_membership 5 Scenario.town Scenario.bob Scenario.bob_account
              Scenario.picnic Scenario.picnic_event
              {[ "is_favorited" := JBool true ]})
    as (ev' & Hev' & Hnd & Hmem & _);
    [apply town_reachable | vm_compute; reflexivity | vm_compute; reflexivity |].
  exists ev'. split; [exact Hev' |]. split; [exact Hnd |].
  apply Hmem. vm_compute. reflexivity.
Defined.

(** C10 witness: Bob sends a favorite request without the field. *)
Lemma favorite_never_rejects_witness :
  users Scenario.town !! Scenario.bob = Some Scenario.bob_account ∧
  events Scenario.town !! Scenario.picnic = Some Scenario.picnic_event ∧
  (handle 5 Scenario.town (PostFavorite (Some Scenario.bob) Scenario.picnic ∅)).2 =
    respond 200 (FavoriteSet Scenario.picnic JUndefined).
Proof.
  split; [vm_compute; reflexivity |]. split; [vm_compute; reflexivity |].
  destruct (favorite_never_rejects 5 Scenario.town Scenario.bob Scenario.bob_account
              Scenario.picnic Scenario.picnic_event ∅)
    as (Hresp & _); [vm_compute; reflexivity | vm_compute; reflexivity |].
  exact Hresp.
Defined.

(** ** Queries on a collection *)

Lemma findOne_None {A} (p : A → bool) (m : gmap ObjectId A) :
  findOne p m = None ↔ ∀ i x, m !! i = Some x → p x = false.
Proof.
  unfold findOne. split.
  - intros Hnone i x Hix.
    apply (find_none _ _ Hnone (i, x)).
    apply list_elem_of_In. by apply elem_of_map_to_list.
  - intros Hall. destruct (List.find _ _) as [[i x]|] eqn:Hfind; [| done].
    apply find_some in Hfind as [Hin Hp]. simpl in Hp.
    apply list_elem_of_In, elem_of_map_to_list in Hin.
    rewrite (Hall i x Hin) in Hp. done.
Qed.

Lemma findOne_Some {A} (p : A → bool) (m : gmap ObjectId A) (i : ObjectId) (x : A) :
  findOne p m = Some (i, x) → m !! i = Some x ∧ p x = true.
Proof.
  unfold findOne. intros Hfind. apply find_some in Hfind as [Hin Hp].
  split; [| done]. by apply elem_of_map_to_list, list_elem_of_In.
Qed.

(** ** Login failures *)

(** C7.  Take two login requests that pass the schema, one whose email
    no user has, one whose email some user has while no user with that
    email accepts the password.  Both are answered 401 with the same
    message, the two responses are equal, and neither changes the
    store. *)
Theorem login_failure_uniform `{Platform} (now1 now2 : Z) (s : State)
    (body1 body2 : Body) (e1 p1 e2 p2 : string) :
  Joi.validate loginSchema body1 = None →
  field body1 "email" = JStr e1 → field body1 "password" = JStr p1 →
  Joi.validate loginSchema body2 = None →
  field body2 "email" = JStr e2 → field body2 "password" = JStr p2 →
  (∀ id u, users s !! id = Some u → email u ≠ Text.trim (Text.toLowerCase e1)) →
  (∃ id u, users s !! id = Some u ∧ email u = Text.trim (Text.toLowerCase e2)) →
  (∀ id u, users s !! id = Some u → email u = Text.trim (Text.toLowerCase e2) →
           bcrypt_compare p2 (password u) = false) →
  (handle now1 s (PostLogin body1)).2 = (handle now2 s (PostLogin body2)).2 ∧
  (handle now1 s (PostLogin body1)).2 =
    message 401 "Invalid email or password. Please check your credentials and try again." ∧
  (handle now1 s (PostLogin body1)).1 = s ∧
  (handle now2 s (PostLogin body2)).1 = s.
Proof.
  intros Hv1 He1 Hp1 Hv2 He2 Hp2 Hunknown (id2 & u2 & Hu2 & Hmail2) Hwrong.
  simpl. unfold login. rewrite Hv1, He1, Hp1, Hv2, He2, Hp2.
  assert (findOne (λ u, String.eqb (email u) (Text.trim (Text.toLowerCase e1))) (users s) = None)
    as ->.
  { apply findOne_None. intros i x Hix. apply String.eqb_neq. by apply (Hunknown i). }
  destruct (findOne (λ u, String.eqb (email u) (Text.trim (Text.toLowerCase e2))) (users s))
    as [[i x]|] eqn:Hfind.
  - apply findOne_Some in Hfind as [Hix Hx]. apply String.eqb_eq in Hx.
    rewrite (Hwrong i x Hix Hx). done.
  - exfalso. assert (String.eqb (email u2) (Text.trim (Text.toLowerCase e2)) = false) as Hno
      by (revert Hfind; rewrite findOne_None; eauto).
    apply String.eqb_neq in Hno. done.
Qed.

(** C7 witness: a login for an address nobody has, and Alice's address
    with a wrong password. *)
Lemma login_failure_uniform_witness :
  (handle 5 Scenario.town
     (PostLogin (list_to_map [("email", JStr "carol@example.com");
                              ("password", JStr "secret1")]))).2 =
  (handle 6 Scenario.town
     (PostLogin (list_to_map [("email", JStr "Alice@Example.com");
                              ("password", JStr "guess")]))).2.
Proof.
  refine (proj1 (login_failure_uniform 5 6 Scenario.town _ _
            "carol@example.com" "secret1" "Alice@Example.com" "guess"
            _ _ _ _ _ _ _ _ _)); try (vm_compute; reflexivity).
  - intros id u Hu Hmail.
    assert (forallb (λ kv : ObjectId * User,
              negb (String.eqb (email kv.2) "carol@example.com"))
              (map_to_list (users Scenario.town)) = true) as Hall
      by (vm_compute; reflexivity).
    rewrite forallb_forall in Hall.
    specialize (Hall (id, u)). simpl in Hall.
    assert (String.eqb (email u) "carol@example.com" = true) as Hm.
    { apply String.eqb_eq. rewrite Hmail. vm_compute. reflexivity. }
    rewrite Hm in Hall. simpl in Hall.
    assert (false = true) as Hff; [| discriminate Hff].
    apply Hall. by apply list_elem_of_In, elem_of_map_to_list.
  - exists Scenario.alice, Scenario.alice_account. split; vm_compute; reflexivity.
  - intros id u Hu Hmail.
    assert (forallb (λ kv : ObjectId * User,
              negb (String.eqb (email kv.2) "alice@example.com") ||
              negb (bcrypt_compare "guess" (password kv.2)))
              (map_to_list (users Scenario.town)) = true) as Hall
      by (vm_compute; reflexivity).
    rewrite forallb_forall in Hall.
    specialize (Hall (id, u)). simpl in Hall.
    assert (String.eqb (email u) "alice@example.com" = true) as Hm.
    { apply String.eqb_eq. rewrite Hmail. vm_compute. reflexivity. }
    rewrite Hm in Hall. simpl in Hall.
    apply negb_true_iff. apply Hall.
    by apply list_elem_of_In, elem_of_map_to_list.
Defined.

(** ** Text search *)

Lemma list_of_toLowerCase (s : string) :
  list_ascii_of_string (Text.toLowerCase s) = Text.lower <$> list_ascii_of_string s.
Proof. induction s as [|c s IH]; simpl; [done | by rewrite IH]. Qed.

Lemma list_of_append (a b : string) :
  list_ascii_of_string (a +:+ b) = list_ascii_of_string a ++ list_ascii_of_string b.
Proof. induction a as [|c a IH]; simpl; [done | by rewrite IH]. Qed.

Lemma string_of_list_inj (a b : string) :
  list_ascii_of_string a = list_ascii_of_string b → a = b.
Proof.
  intros Hab. rewrite <- (string_of_list_ascii_of_string a),
    <- (string_of_list_ascii_of_string b). by rewrite Hab.
Qed.

Lemma ci_substring_lists (needle hay : string) :
  Text.ci_substring needle hay ↔
  ∃ pre post : list ascii,
    Text.lower <$> list_ascii_of_string hay =
    pre ++ (Text.lower <$> list_ascii_of_string needle) ++ post.
Proof.
  unfold Text.ci_substring. split.
  - intros (pre & post & Heq).
    exists (list_ascii_of_string pre), (list_ascii_of_string post).
    by rewrite <- !list_of_toLowerCase, Heq, !list_of_append.
  - intros (pre & post & Heq).
    exists (string_of_list_ascii pre), (string_of_list_ascii post).
    apply string_of_list_inj.
    by rewrite !list_of_append, !list_of_toLowerCase,
      !list_ascii_of_string_of_list_ascii.
Qed.

Lemma prefix_ci_spec (p s : list ascii) :
  prefix_ci p s = true ↔ ∃ post, Text.lower <$> s = (Text.lower <$> p) ++ post.
Proof.
  revert s. induction p as [|x p IH]; intros s.
  - split; [intros _; by eexists | done].
  - destruct s as [|c s]; cbn [prefix_ci].
    + split; [done | by intros (post & Heq)].
    + rewrite !fmap_cons, andb_true_iff, IH, Ascii.eqb_eq. split.
      * intros [Hx (post & Hp)]. exists post. by rewrite Hx, Hp.
      * intros (post & Heq). simpl in Heq. injection Heq as Hx Hs.
        split; [done | by exists post].
Qed.

Lemma search_spec (m : list ascii → bool) (s : list ascii) :
  Pcre.search m s = true ↔ ∃ pre suf : list ascii, s = pre ++ suf ∧ m suf = true.
Proof.
  induction s as [|c s IH]; simpl.
  - rewrite orb_false_r. split.
    + intros Hm. by exists [], [].
    + intros (pre & suf & Heq & Hm).
      symmetry in Heq. apply app_eq_nil in Heq as [_ ->]. done.
  - rewrite orb_true_iff, IH. split.
    + intros [Hm | (pre & suf & -> & Hm)].
      * by exists [], (c :: s).
      * by exists (c :: pre), suf.
    + intros (pre & suf & Heq & Hm). destruct pre as [|c' pre]; simpl in Heq.
      * left. by rewrite Heq.
      * right. injection Heq as -> ->. by exists pre, suf.
Qed.

(** [ci_includes] decides [Text.ci_substring]. *)
Lemma ci_includes_spec (needle hay : string) :
  ci_includes needle hay = true ↔ Text.ci_substring needle hay.
Proof.
  unfold ci_includes. rewrite search_spec, ci_substring_lists. split.
  - intros (pre & suf & Heq & Hm). apply prefix_ci_spec in Hm as (post & Hpost).
    exists (Text.lower <$> pre), post. by rewrite Heq, fmap_app, Hpost.
  - intros (pre & post & Heq).
    apply fmap_app_inv in Heq as (l1 & l2 & -> & Hrest & ->).
    exists l1, l2. split; [done |]. apply prefix_ci_spec. by exists post.
Qed.

Lemma not_meta (c x : ascii) :
  Pcre.is_meta c = false → In x Pcre.metacharacters → Ascii.eqb c x = false.
Proof.
  unfold Pcre.is_meta. intros Hc Hx.
  destruct (Ascii.eqb c x) eqn:Hcx; [| done].
  assert (existsb (Ascii.eqb c) Pcre.metacharacters = true) as Hex
    by (apply existsb_exists; eauto).
  congruence.
Qed.

Lemma atom_of_plain (c : ascii) :
  Pcre.is_meta c = false → Pcre.atom_of c = Some (Pcre.Lit c).
Proof.
  intros Hc. unfold Pcre.atom_of.
  rewrite (not_meta c "." Hc) by (vm_compute; tauto). by rewrite Hc.
Qed.

Lemma quant_of_plain (c : ascii) :
  Pcre.is_meta c = false → Pcre.quant_of c = None.
Proof.
  intros Hc. unfold Pcre.quant_of.
  by rewrite (not_meta c "+" Hc), (not_meta c "*" Hc), (not_meta c "?" Hc)
    by (vm_compute; tauto).
Qed.

Lemma parse_items_plain (l : list ascii) :
  forallb (λ c, negb (Pcre.is_meta c)) l = true →
  Pcre.parse_items l = Some ((λ c, (Pcre.Lit c, Pcre.One)) <$> l, false).
Proof.
  induction l as [|c l IH]; [done |].
  intros Hall. simpl in Hall. apply andb_true_iff in Hall as [Hc Hall].
  apply negb_true_iff in Hc. specialize (IH Hall).
  destruct l as [|d l].
  - simpl. rewrite (not_meta c "$" Hc) by (vm_compute; tauto).
    by rewrite atom_of_plain.
  - simpl in Hall. apply andb_true_iff in Hall as [Hd _].
    apply negb_true_iff in Hd.
    change (Pcre.parse_items (c :: d :: l)) with
      (match Pcre.atom_of c with
       | None => None
       | Some a =>
           match Pcre.quant_of d with
           | Some q => Pcre.add_item a q (Pcre.parse_items l)
           | None => Pcre.add_item a Pcre.One (Pcre.parse_items (d :: l))
           end
       end).
    by rewrite atom_of_plain, quant_of_plain, IH.
Qed.

Lemma match_items_plain (p s : list ascii) :
  Pcre.match_items ((λ c, (Pcre.Lit c, Pcre.One)) <$> p) (Pcre.at_end false) s =
  prefix_ci p s.
Proof.
  revert s. induction p as [|x p IH]; intros s; simpl; [done |].
  destruct s as [|c s]; [done |]. by rewrite IH.
Qed.

Lemma search_ext (m1 m2 : list ascii → bool) (s : list ascii) :
  (∀ x, m1 x = m2 x) → Pcre.search m1 s = Pcre.search m2 s.
Proof. intros Hm. induction s as [|c s IH]; simpl; by rewrite Hm, ?IH. Qed.

Lemma compile_plain (p : string) :
  Pcre.plain p = true →
  ∃ re, Pcre.compile p = Some re ∧ ∀ s, re s = ci_includes p s.
Proof.
  unfold Pcre.plain, Pcre.compile, Pcre.parse. intros Hp.
  pose proof (parse_items_plain _ Hp) as Hparse.
  destruct (list_ascii_of_string p) as [|c l] eqn:Hl.
  - eexists. split; [done |]. intros s.
    unfold Pcre.test, ci_includes. simpl. by rewrite Hl.
  - simpl in Hp. apply andb_true_iff in Hp as [Hc _]. apply negb_true_iff in Hc.
    rewrite (not_meta c "^" Hc) by (vm_compute; tauto).
    rewrite Hparse. eexists. split; [done |]. intros s.
    unfold Pcre.test, ci_includes. cbn [Pcre.from_start Pcre.items Pcre.to_end fst snd].
    rewrite Hl. apply search_ext. intros x. apply (match_items_plain (c :: l) x).
Qed.

(** The example engine reads text without metacharacters as itself. *)
Lemma pcre_literal_search : @literal_search Sample.platform.
Proof.
  intros p Hp. destruct (compile_plain p Hp) as (re & Hre & Hspec).
  exists re. split; [exact Hre |]. intros s. rewrite Hspec. apply ci_includes_spec.
Qed.

(** ** The listing *)

Lemma compare_refl (a : string) : String.compare a a = Eq.
Proof.
  pose proof (String.compare_antisym a a) as Ha.
  destruct (String.compare a a); simpl in Ha; congruence.
Qed.

Lemma compare_Lt_trans (a b c : string) :
  String.compare a b = Lt → String.compare b c = Lt → String.compare a c = Lt.
Proof.
  intros Hab Hbc.
  exact (StrictOrder_Transitive (R := String_as_OT.lt) a b c Hab Hbc).
Qed.

#[local] Instance listing_le_total : Total listing_le.
Proof.
  intros a b. unfold listing_le, listing_leb.
  rewrite (String.compare_antisym (date (details b.2)) (date (details a.2))).
  destruct (String.compare (date (details a.2)) (date (details b.2))); simpl; auto.
  destruct (Z.leb_spec (created_at b.2) (created_at a.2)); [by left | right].
  apply Z.leb_le. lia.
Qed.

#[local] Instance listing_le_trans : Transitive listing_le.
Proof.
  intros a b c. unfold listing_le, listing_leb.
  destruct (String.compare (date (details a.2)) (date (details b.2))) eqn:Hab;
    [| | done];
    (destruct (String.compare (date (details b.2)) (date (details c.2))) eqn:Hbc;
     [| | done]).
  - apply String.compare_eq_iff in Hab, Hbc. rewrite Hab, Hbc, compare_refl.
    rewrite !Z.leb_le. lia.
  - apply String.compare_eq_iff in Hab. by rewrite Hab, Hbc.
  - apply String.compare_eq_iff in Hbc. by rewrite <- Hbc, Hab.
  - by rewrite (compare_Lt_trans _ _ _ Hab Hbc).
Qed.

Lemma listing_le_before (a b : ObjectId * Event) :
  listing_le a b → listed_before a.2 b.2.
Proof.
  unfold listing_le, listing_leb, listed_before, String.ltb.
  destruct (String.compare _ _) eqn:Hc; [| by left | done].
  intros Hle. right. split; [by apply String.compare_eq_iff | by apply Z.leb_le].
Qed.

Lemma StronglySorted_weaken {A} (R1 R2 : A → A → Prop) (l : list A) :
  (∀ a b, R1 a b → R2 a b) → StronglySorted R1 l → StronglySorted R2 l.
Proof.
  intros HR. induction 1 as [|x l _ IH Hx]; constructor; [done |].
  eapply Forall_impl; [exact Hx | by intros y; apply HR].
Qed.

(** What [find(filter).sort(..)] returns: the stored events that pass the
    filter, each once, in the order of the sort. *)
Lemma find_sorted_spec (p : Event → bool) (es : gmap ObjectId Event) :
  NoDup (find_sorted p es) ∧
  (∀ id ev, (id, ev) ∈ find_sorted p es ↔ es !! id = Some ev ∧ p ev = true) ∧
  StronglySorted (λ a b, listed_before a.2 b.2) (find_sorted p es).
Proof.
  unfold find_sorted. split; [| split].
  - rewrite merge_sort_Permutation. apply NoDup_ListNoDup, List.NoDup_filter,
      NoDup_ListNoDup, NoDup_map_to_list.
  - intros id ev. rewrite merge_sort_Permutation, elem_of_filter_bool,
      elem_of_map_to_list. done.
  - apply (StronglySorted_weaken listing_le); [apply listing_le_before |].
    apply StronglySorted_merge_sort; apply _.
Qed.

Lemma search_filter_fields (re : string → bool) (ev : Event) :
  search_filter re ev = true ↔
  re (title (details ev)) = true ∨
  (∃ d, description (details ev) = Some d ∧ re d = true) ∨
  re (location (details ev)) = true.
Proof.
  unfold search_filter, search_fields.
  rewrite !existsb_app. simpl. rewrite !orb_false_r, !orb_true_iff.
  destruct (description (details ev)) as [d|]; simpl.
  - rewrite orb_false_r. split.
    + intros [? | [? | ?]]; eauto.
    + intros [? | [(d' & [= <-] & ?) | ?]]; eauto.
  - split.
    + intros [? | [? | ?]]; eauto. done.
    + intros [? | [(d' & ? & ?) | ?]]; eauto. done.
Qed.

Lemma category_filter_hit (c : option string) (ev : Event) :
  category_filter c ev = true ↔ category_hit c ev.
Proof.
  unfold category_filter, category_hit. destruct c as [c|].
  - destruct (String.eqb_spec c "") as [-> | Hc].
    + split; [intros _ c0 [= <-] Hc0; done | done].
    + rewrite String.eqb_eq. split; [intros Heq c0 [= <-] _; done | eauto].
  - split; [intros _ c0 Hc0; done | done].
Qed.

Lemma ci_substring_empty (s : string) : Text.ci_substring "" s.
Proof. exists "", (Text.toLowerCase s). done. Qed.

(** With an engine that reads plain text as itself, a pattern without
    metacharacters hits an event exactly when the event holds the text. *)
Lemma pattern_hit_plain `{Platform} (search : option string) (ev : Event) :
  literal_search → (∀ t, search = Some t → Pcre.plain t = true) →
  pattern_hit search ev ↔ (∀ t, search = Some t → search_hit t ev).
Proof.
  intros Hengine Hplain. unfold pattern_hit, search_hit. split.
  - intros Hhit t ->. destruct (String.eqb_spec t "") as [-> | Ht].
    + left. apply ci_substring_empty.
    + destruct (Hengine t (Hplain t eq_refl)) as (re & Hre & Hspec).
      destruct (Hhit t re eq_refl Ht Hre) as [? | [(d & ? & ?) | ?]].
      * left. by apply Hspec.
      * right; left. exists d. split; [done | by apply Hspec].
      * right; right. by apply Hspec.
  - intros Hhit t re -> Ht Hre.
    destruct (Hengine t (Hplain t eq_refl)) as (re' & Hre' & Hspec).
    assert (re' = re) as -> by congruence.
    destruct (Hhit t eq_refl) as [? | [(d & ? & ?) | ?]].
    + left. by apply Hspec.
    + right; left. exists d. split; [done | by apply Hspec].
    + right; right. by apply Hspec.
Qed.

(** C8, as the code has it.  When the search text, if one is given and
    not empty, is a pattern the engine accepts, the listing is answered
    200 with the projections of exactly the stored events whose category
    is the category asked for (when one is given and not empty) and in
    whose title, description or location the pattern matches; each event
    once, in order of date, and for one date the later created first.
    With an engine that reads text without metacharacters as itself, and
    such a search text, the pattern matches exactly where the text
    occurs, letter case ignored. *)
Theorem list_events_filter_sorted `{Platform} (now : Z) (s : State) (tok : Token)
    (category0 search : option string) :
  (∀ t, search = Some t → t ≠ "" → is_Some (regex t)) →
  ∃ l : list (ObjectId * Event),
    handle now s (GetEvents tok category0 search) =
      (s, respond 200
            (Events ((λ kv, toClientJSON kv.1 kv.2 (optionalAuth s tok)) <$> l))) ∧
    NoDup l ∧
    StronglySorted (λ a b, listed_before a.2 b.2) l ∧
    (∀ id ev, (id, ev) ∈ l ↔
       events s !! id = Some ev ∧ category_hit category0 ev ∧ pattern_hit search ev) ∧
    (literal_search → (∀ t, search = Some t → Pcre.plain t = true) →
     ∀ id ev, (id, ev) ∈ l ↔
       events s !! id = Some ev ∧ category_hit category0 ev ∧
       (∀ t, search = Some t → search_hit t ev)).
Proof.
  intros Haccepted.
  assert (∃ l : list (ObjectId * Event),
    handle now s (GetEvents tok category0 search) =
      (s, respond 200
            (Events ((λ kv, toClientJSON kv.1 kv.2 (optionalAuth s tok)) <$> l))) ∧
    NoDup l ∧
    StronglySorted (λ a b, listed_before a.2 b.2) l ∧
    (∀ id ev, (id, ev) ∈ l ↔
       events s !! id = Some ev ∧ category_hit category0 ev ∧ pattern_hit search ev))
    as (l & Hresp & Hnd & Hsorted & Hin).
  { simpl. unfold list_events, pattern_hit.
    destruct search as [t|].
    - destruct (String.eqb_spec t "") as [-> | Ht].
      + destruct (find_sorted_spec (category_filter category0) (events s))
          as (Hnd & Hin & Hsorted).
        eexists. split; [done |]. split; [done |]. split; [done |].
        intros id ev. rewrite Hin, category_filter_hit. split.
        * intros [? ?]. repeat split; try done. by intros t re [= <-].
        * intros (? & ? & _). done.
      + destruct (Haccepted t eq_refl Ht) as [re Hre]. rewrite Hre.
        destruct (find_sorted_spec
                    (λ ev, category_filter category0 ev && search_filter re ev) (events s))
          as (Hnd & Hin & Hsorted).
        eexists. split; [done |]. split; [done |]. split; [done |].
        intros id ev.
        rewrite Hin, andb_true_iff, category_filter_hit, search_filter_fields.
        split.
        * intros (? & ? & ?). repeat split; try done.
          intros t' re' [= <-] _ Hre'. by assert (re' = re) as -> by congruence.
        * intros (? & ? & Hs). repeat split; try done. by apply (Hs t re).
    - destruct (find_sorted_spec (category_filter category0) (events s))
        as (Hnd & Hin & Hsorted).
      eexists. split; [done |]. split; [done |]. split; [done |].
      intros id ev. rewrite Hin, category_filter_hit. split.
      + intros [? ?]. repeat split; done.
      + intros (? & ? & _). done. }
  exists l. do 4 (split; [done |]).
  intros Hengine Hplain id ev. rewrite Hin.
  by rewrite (pattern_hit_plain search ev Hengine Hplain).
Qed.

(** C8 witness: the listing of the town's events for the text "PARTY". *)
Lemma list_events_filter_sorted_witness :
  is_Some (regex "PARTY") ∧
  ∃ l : list (ObjectId * Event),
    handle 5 Scenario.town (GetEvents None None (Some "PARTY")) =
      (Scenario.town,
       respond 200
         (Events ((λ kv, toClientJSON kv.1 kv.2 (optionalAuth Scenario.town None)) <$> l))) ∧
    NoDup l ∧
    StronglySorted (λ a b, listed_before a.2 b.2) l.
Proof.
  assert (is_Some (regex "PARTY")) as Haccepted by (vm_compute; eexists; reflexivity).
  split; [exact Haccepted |].
  destruct (list_events_filter_sorted 5 Scenario.town None None (Some "PARTY"))
    as (l & Hresp & Hnd & Hsorted & _).
  - intros t [= <-] _. exact Haccepted.
  - exists l. split; [exact Hresp |]. split; [exact Hnd | exact Hsorted].
Defined.

(** C8 as stated fails: the search text [a.c] lists the event titled
    "abc party", which holds [a.c] in none of title, description and
    location. *)
Lemma search_pattern_lists_non_substring :
  events Scenario.town !! Scenario.picnic = Some Scenario.picnic_event ∧
  handle 5 Scenario.town (GetEvents None None (Some "a.c")) =
    (Scenario.town,
     respond 200 (Events [toClientJSON Scenario.picnic Scenario.picnic_event None])) ∧
  ci_includes "a.c" (title (details Scenario.picnic_event)) = false ∧
  description (details Scenario.picnic_event) = None ∧
  ci_includes "a.c" (location (details Scenario.picnic_event)) = false.
Proof. vm_compute. done. Qed.

(** ** Registration *)

(** C6 at the failing input: with "a+b" registered, the registration of
    "A+B" under another address is answered 201, and the collection then
    holds two usernames that differ by letter case only. *)
Lemma register_case_variant_username :
  let s1 := (handle 1 empty_state
               (PostRegister (Scenario.account "a+b" "first@example.com"))).1 in
  let second := handle 2 s1 (PostRegister (Scenario.account "A+B" "second@example.com")) in
  second.2 = respond 201 (Session 2 "A+B" "second@example.com" false 2) ∧
  username <$> users second.1 !! 1%N = Some "a+b" ∧
  username <$> users second.1 !! 2%N = Some "A+B" ∧
  Text.toLowerCase "a+b" = Text.toLowerCase "A+B".
Proof. vm_compute. done. Qed.

(** The email half of the uniqueness invariant holds: addresses are
    stored in lower case and looked up in lower case. *)

Lemma lower_lower (c : ascii) : Text.lower (Text.lower c) = Text.lower c.
Proof. destruct c as [[] [] [] [] [] [] [] []]; reflexivity. Qed.

Lemma toLowerCase_idem (s : string) :
  Text.toLowerCase (Text.toLowerCase s) = Text.toLowerCase s.
Proof. induction s as [|c s IH]; simpl; [done | by rewrite lower_lower, IH]. Qed.

Lemma lowercase_list (s : string) :
  Text.toLowerCase s = s ↔
  Forall (λ c, Text.lower c = c) (list_ascii_of_string s).
Proof.
  induction s as [|c s IH]; simpl.
  - split; [constructor | done].
  - rewrite Forall_cons, <- IH. split.
    + by intros [= ? ?].
    + by intros [-> ->].
Qed.

Lemma trimStart_Forall (P : ascii → Prop) (l : list ascii) :
  Forall P l → Forall P (Text.trimStart l).
Proof.
  induction 1 as [|c l Hc Hl IH]; simpl; [constructor |].
  destruct (Text.is_space c); [done | by constructor].
Qed.

Lemma trim_lowercase (s : string) :
  Text.toLowerCase s = s → Text.toLowerCase (Text.trim s) = Text.trim s.
Proof.
  rewrite !lowercase_list. intros Hs. unfold Text.trim.
  rewrite list_ascii_of_string_of_list_ascii.
  apply Forall_rev, trimStart_Forall, Forall_rev, trimStart_Forall, Hs.
Qed.

Lemma normalized_lowercase (e : string) :
  Text.toLowerCase (Text.trim (Text.toLowerCase e)) = Text.trim (Text.toLowerCase e).
Proof. apply trim_lowercase, toLowerCase_idem. Qed.

Lemma emails_ok_insert_new (us : gmap ObjectId User) (id : ObjectId) (u : User) :
  emails_ok us → Text.toLowerCase (email u) = email u →
  (∀ i v, us !! i = Some v → email v ≠ email u) →
  emails_ok (<[id := u]> us).
Proof.
  intros [Hlow Huniq] Hu Hnew. split.
  - intros i v Hi. apply lookup_insert_Some in Hi as [[_ <-] | [_ Hi]]; eauto.
  - intros i j v w Hi Hj Heq.
    apply lookup_insert_Some in Hi as [[<- <-] | [Hni Hi]];
      apply lookup_insert_Some in Hj as [[<- <-] | [Hnj Hj]]; try done.
    + exfalso. by apply (Hnew j w Hj).
    + exfalso. by apply (Hnew i v Hi).
    + eauto.
Qed.

Lemma emails_ok_update (us : gmap ObjectId User) (id : ObjectId) (u u' : User) :
  emails_ok us → us !! id = Some u → email u' = email u →
  emails_ok (<[id := u']> us).
Proof.
  intros [Hlow Huniq] Hid Hmail. split.
  - intros i v Hi. apply lookup_insert_Some in Hi as [[_ <-] | [_ Hi]]; [| eauto].
    rewrite Hmail. eauto.
  - intros i j v w Hi Hj Heq.
    apply lookup_insert_Some in Hi as [[<- <-] | [Hni Hi]];
      apply lookup_insert_Some in Hj as [[<- <-] | [Hnj Hj]]; try done.
    + rewrite Hmail in Heq. eauto.
    + rewrite Hmail in Heq. eauto.
    + eauto.
Qed.

Lemma emails_ok_delete (us : gmap ObjectId User) (id : ObjectId) :
  emails_ok us → emails_ok (delete id us).
Proof.
  intros [Hlow Huniq]. split.
  - intros i v Hi. apply lookup_delete_Some in Hi as [_ Hi]. eauto.
  - intros i j v w Hi Hj. apply lookup_delete_Some in Hi as [_ Hi].
    apply lookup_delete_Some in Hj as [_ Hj]. eauto.
Qed.

Lemma handle_emails_ok `{Platform} (now : Z) (s : State) (r : Request) :
  emails_ok (users s) → emails_ok (users (handle now s r).1).
Proof.
  intros Hs.
  destruct r; simpl;
    unfold register, login, list_events, get_event, create_event, update_event,
      delete_event, rsvp, favorite, add_comment, get_comments, clear_all,
      admin_delete_user, admin_delete_event;
    simpl; try exact Hs; repeat (case_match; simpl; try exact Hs).
  - (* register *)
    apply emails_ok_insert_new; [done | apply normalized_lowercase |].
    simpl. intros i v Hi Heq.
    match goal with Hf : findOne _ _ = None |- _ =>
      rewrite findOne_None in Hf; specialize (Hf i v Hi);
      apply orb_false_iff in Hf as [Hmail _] end.
    apply String.eqb_neq in Hmail. done.
  - (* login *)
    match goal with Hf : findOne _ _ = Some _ |- _ =>
      apply findOne_Some in Hf as [Hf _] end.
    by eapply emails_ok_update.
  - (* admin deletes a user *)
    by apply emails_ok_delete.
Qed.

Lemma served_emails_ok `{Platform} (s : State) : served s → emails_ok (users s).
Proof.
  induction 1 as [| now s r _ IH].
  - split; intros i; intros; simpl in *; by rewrite lookup_empty in *.
  - by apply handle_emails_ok.
Qed.

(** No two accounts of a store reached through the routes have
    addresses that differ by letter case only. *)
Lemma served_emails_unique `{Platform} (s : State) (i j : ObjectId) (u v : User) :
  served s → users s !! i = Some u → users s !! j = Some v →
  Text.toLowerCase (email u) = Text.toLowerCase (email v) → i = j.
Proof.
  intros Hs Hi Hj Heq. destruct (served_emails_ok s Hs) as [Hlow Huniq].
  rewrite (Hlow i u Hi), (Hlow j v Hj) in Heq. eauto.
Qed.

(** A registration whose address is taken, letter case ignored, by an
    account of such a store is answered 409 and stores nothing, as long
    as the engine accepts the pattern made from the username. *)
Lemma register_email_taken `{Platform} (now : Z) (s : State) (body : Body)
    (u0 e0 p0 z0 : string) (re : string → bool) (i : ObjectId) (u : User) :
  served s → Joi.validate registerSchema body = None →
  field body "username" = JStr u0 → field body "email" = JStr e0 →
  field body "password" = JStr p0 → field body "zipcode" = JStr z0 →
  regex ("^" +:+ Text.trim u0 +:+ "$") = Some re →
  users s !! i = Some u →
  Text.toLowerCase (email u) = Text.toLowerCase (Text.trim (Text.toLowerCase e0)) →
  (handle now s (PostRegister body)).1 = s ∧
  http_status (handle now s (PostRegister body)).2 = 409.
Proof.
  intros Hs Hv Hu0 He0 Hp0 Hz0 Hre Hi Heq. simpl. unfold register.
  rewrite Hv, Hu0, He0, Hp0, Hz0, Hre.
  destruct (served_emails_ok s Hs) as [Hlow _].
  rewrite (Hlow i u Hi), normalized_lowercase in Heq.
  destruct (findOne _ (users s)) as [[j w]|] eqn:Hfind.
  - by destruct (String.eqb (email w) _).
  - exfalso. rewrite findOne_None in Hfind. specialize (Hfind i u Hi).
    apply orb_false_iff in Hfind as [Hmail _]. apply String.eqb_neq in Hmail. done.
Qed.

(** * Further properties of the routes *)

(** ** Frames of the event routes *)

Ltac unfold_handlers :=
  unfold register, login, list_events, get_event, create_event, update_event,
    delete_event, rsvp, favorite, add_comment, get_comments, clear_all,
    admin_delete_user, admin_delete_event, adminAuth, auth in *.

Lemma same_interactions_refl (ev : Event) : same_interactions ev ev.
Proof. by repeat split. Qed.

Lemma others_untouched_refl (id : ObjectId) (s : State) : others_untouched id s s.
Proof. by split. Qed.

Lemma others_untouched_insert (id : ObjectId) (s : State) (ev : Event) :
  others_untouched id s (set_events s (<[id := ev]> (events s))).
Proof. split; [done |]. intros j Hj. simpl. by rewrite lookup_insert_ne. Qed.

Lemma update_event_frame `{Platform} (now : Z) (s : State) (tok : Token)
    (id : ObjectId) (body : Body) :
  let s' := (update_event now s tok id body).1 in
  others_untouched id s s' ∧ next_oid s' = next_oid s ∧
  match events s !! id with
  | None => events s' !! id = None
  | Some ev => ∃ ev', events s' !! id = Some ev' ∧ same_interactions ev ev'
  end.
Proof.
  simpl. unfold update_event.
  destruct (auth s tok) as [r | [uid u]]; simpl.
  { split; [apply others_untouched_refl |]. split; [done |].
    destruct (events s !! id) as [ev|] eqn:Hev; [| done].
    exists ev. split; [done | apply same_interactions_refl]. }
  destruct (Joi.validate eventSchema body); simpl.
  { split; [apply others_untouched_refl |]. split; [done |].
    destruct (events s !! id) as [ev|] eqn:Hev; [| done].
    exists ev. split; [done | apply same_interactions_refl]. }
  destruct (events s !! id) as [ev|] eqn:Hev; simpl.
  2: { split; [apply others_untouched_refl |]. by rewrite Hev. }
  destruct (negb (organizer_id ev =? uid)%N); simpl.
  - split; [apply others_untouched_refl |]. split; [done |]. rewrite Hev.
    exists ev. split; [done | apply same_interactions_refl].
  - split; [apply others_untouched_insert |]. split; [done |].
    rewrite lookup_insert_eq. eexists. split; [done |]. by repeat split.
Qed.


Lemma apply_rsvp_frame (ev : Event) (uid : ObjectId) (st : string) :
  details (apply_rsvp ev uid st) = details ev ∧
  organizer (apply_rsvp ev uid st) = organizer ev ∧
  organizer_id (apply_rsvp ev uid st) = organizer_id ev ∧
  favorites (apply_rsvp ev uid st) = favorites ev ∧
  comments (apply_rsvp ev uid st) = comments ev ∧
  created_at (apply_rsvp ev uid st) = created_at ev ∧
  updated_at (apply_rsvp ev uid st) = updated_at ev.
Proof.
  unfold apply_rsvp, push_rsvp, drop_rsvp.
  destruct (findIndex _ _); destruct (_ && _); done.
Qed.

Lemma unchanged_or_absent (s : State) (id : ObjectId) (P : Event → Event → Prop) :
  (∀ ev, P ev ev) →
  match events s !! id with
  | None => events s !! id = None
  | Some ev => ∃ ev', events s !! id = Some ev' ∧ P ev ev'
  end.
Proof. intros HP. destruct (events s !! id) as [ev|] eqn:Hev; [by exists ev | done]. Qed.

Lemma rsvp_frame `{Platform} (s : State) (tok : Token) (id : ObjectId) (body : Body) :
  let s' := (rsvp s tok id body).1 in
  others_untouched id s s' ∧ next_oid s' = next_oid s ∧
  match events s !! id with
  | None => events s' !! id = None
  | Some ev => ∃ ev', events s' !! id = Some ev' ∧
      details ev' = details ev ∧ organizer ev' = organizer ev ∧
      organizer_id ev' = organizer_id ev ∧ favorites ev' = favorites ev ∧
      comments ev' = comments ev ∧ created_at ev' = created_at ev ∧
      updated_at ev' = updated_at ev
  end.
Proof.
  simpl. unfold rsvp. destruct (auth s tok) as [r | [uid u]]; simpl.
  { split; [apply others_untouched_refl |]. split; [done |].
    by apply unchanged_or_absent. }
  destruct (rsvp_status_of _) as [st|]; simpl.
  2: { split; [apply others_untouched_refl |]. split; [done |].
       by apply unchanged_or_absent. }
  destruct (events s !! id) as [ev|] eqn:Hev; simpl.
  2: { split; [apply others_untouched_refl | by rewrite Hev]. }
  split; [apply others_untouched_insert |]. split; [done |]. rewrite lookup_insert_eq.
  eexists. split; [done |]. apply apply_rsvp_frame.
Qed.

Lemma favorite_frame `{Platform} (s : State) (tok : Token) (id : ObjectId) (body : Body) :
  let s' := (favorite s tok id body).1 in
  others_untouched id s s' ∧ next_oid s' = next_oid s ∧
  match events s !! id with
  | None => events s' !! id = None
  | Some ev => ∃ ev', events s' !! id = Some ev' ∧
      ev' = set_favorites ev (favorites ev')
  end.
Proof.
  simpl. unfold favorite. destruct (auth s tok) as [r | [uid u]]; simpl.
  { split; [apply others_untouched_refl |]. split; [done |].
    apply (unchanged_or_absent s id (λ ev ev', ev' = set_favorites ev (favorites ev'))).
    by intros []. }
  destruct (events s !! id) as [ev|] eqn:Hev; simpl.
  2: { split; [apply others_untouched_refl | by rewrite Hev]. }
  split; [apply others_untouched_insert |]. split; [done |]. rewrite lookup_insert_eq.
  eexists. split; [done |]. apply apply_favorite_rest.
Qed.

Lemma add_comment_frame `{Platform} (now : Z) (s : State) (tok : Token)
    (id : ObjectId) (body : Body) :
  let s' := (add_comment now s tok id body).1 in
  others_untouched id s s' ∧ (next_oid s ≤ next_oid s')%N ∧
  match events s !! id with
  | None => events s' !! id = None
  | Some ev => ∃ ev', events s' !! id = Some ev' ∧
      ev' = set_comments ev (comments ev') ∧
      comments ev `prefix_of` comments ev'
  end.
Proof.
  assert (others_untouched id s s ∧ (next_oid s ≤ next_oid s)%N ∧
          match events s !! id with
          | None => events s !! id = None
          | Some ev => ∃ ev', events s !! id = Some ev' ∧
              ev' = set_comments ev (comments ev') ∧
              comments ev `prefix_of` comments ev'
          end) as Hsame.
  { split; [apply others_untouched_refl |]. split; [done |].
    apply (unchanged_or_absent s id
             (λ ev ev', ev' = set_comments ev (comments ev') ∧
                        comments ev `prefix_of` comments ev')).
    intros ev. split; [by destruct ev | done]. }
  simpl. unfold add_comment. destruct (auth s tok) as [r | [uid u]]; simpl; [done |].
  destruct (negb (truthy (field body "text"))); simpl; [done |].
  destruct (field body "text") as [| | ? | ? | t | ? | ?]; simpl; try done.
  destruct (String.length (Text.trim t) =? 0)%nat; simpl; [done |].
  destruct (500 <? String.length t)%nat; simpl; [done |].
  destruct (events s !! id) as [ev|] eqn:Hev; simpl.
  2: { split; [apply others_untouched_refl | by rewrite Hev]. }
  split; [| split].
  - split; [done |]. intros j Hj. simpl. by rewrite lookup_insert_ne.
  - lia.
  - rewrite lookup_insert_eq. eexists. split; [done |]. simpl.
    split; [done |]. by apply prefix_app_r.
Qed.

(** X1.  The organizer's [DELETE /api/events/:id] is answered 204 with an
    empty body; the event is gone, and every other event and every
    account is as before. *)
Theorem organizer_delete_effect `{Platform} (now : Z) (s : State) (uid : ObjectId)
    (u : User) (id : ObjectId) (ev : Event) :
  users s !! uid = Some u → events s !! id = Some ev → organizer_id ev = uid →
  let result := handle now s (DeleteEvent (Some uid) id) in
  result.2 = respond 204 Empty ∧
  events result.1 !! id = None ∧
  others_untouched id s result.1 ∧
  next_oid result.1 = next_oid s.
Proof.
  intros Hu Hev Horg. simpl. unfold delete_event, auth. rewrite Hu, Hev.
  rewrite <- Horg, N.eqb_refl. simpl.
  split; [done |]. split; [apply lookup_delete_eq |]. split; [| done].
  split; [done |]. intros j Hj. simpl. by rewrite lookup_delete_ne.
Qed.

Lemma organizer_delete_effect_witness :
  users Scenario.town !! Scenario.alice = Some Scenario.alice_account ∧
  events Scenario.town !! Scenario.picnic = Some Scenario.picnic_event ∧
  organizer_id Scenario.picnic_event = Scenario.alice ∧
  (handle 5 Scenario.town (DeleteEvent (Some Scenario.alice) Scenario.picnic)).2 =
    respond 204 Empty.
Proof.
  split; [vm_compute; reflexivity |]. split; [vm_compute; reflexivity |].
  split; [reflexivity |].
  destruct (organizer_delete_effect 5 Scenario.town Scenario.alice
              Scenario.alice_account Scenario.picnic Scenario.picnic_event)
    as (Hresp & _); [vm_compute; reflexivity | vm_compute; reflexivity | reflexivity |].
  exact Hresp.
Defined.


(** ** Ids are handed out once *)

Lemma lookup_deleteMany_is_Some {A} (p : A → bool) (m : gmap ObjectId A) (i : ObjectId) :
  is_Some (deleteMany p m !! i) → is_Some (m !! i).
Proof.
  intros [x Hx]. unfold deleteMany in Hx.
  apply map_lookup_filter_Some in Hx as [Hx _]. by exists x.
Qed.

Ltac fresh_solve :=
  match goal with
  | Hs : ids_fresh _ |- ids_fresh _ =>
      repeat match goal with
        | H : findOne _ _ = Some _ |- _ => apply findOne_Some in H as [H _]
        end;
      destruct Hs as [Hfu Hfe]; split; simpl; intros i Hi;
      repeat match goal with
        | H : is_Some (<[_ := _]> _ !! _) |- _ =>
            apply lookup_insert_is_Some in H as [<- | [_ H]]
        | H : is_Some (delete _ _ !! _) |- _ =>
            apply lookup_delete_is_Some in H as [_ H]
        | H : is_Some (deleteMany _ _ !! _) |- _ =>
            apply lookup_deleteMany_is_Some in H
        end;
      try (specialize (Hfu _ Hi)); try (specialize (Hfe _ Hi));
      try lia;
      try (match goal with H : _ !! ?j = Some _ |- (?j < _)%N =>
             first [ specialize (Hfu j (ex_intro _ _ H)); lia
                   | specialize (Hfe j (ex_intro _ _ H)); lia ] end)
  end.

Lemma handle_fresh `{Platform} (now : Z) (s : State) (r : Request) :
  ids_fresh s → ids_fresh (handle now s r).1.
Proof.
  intros Hs. destruct r; simpl; unfold_handlers; simpl;
    repeat (case_match; simpl; try exact Hs); try exact Hs; try fresh_solve.
Qed.

Lemma createAdmin_fresh `{Platform} now (s : State) (u e p z a : string) :
  ids_fresh s → ids_fresh (createAdmin now s u e p z a).
Proof.
  intros Hs. unfold createAdmin. repeat (case_match; simpl; try exact Hs).
  all: fresh_solve.
Qed.

Lemma reachable_fresh `{Platform} (s : State) : reachable s → ids_fresh s.
Proof.
  induction 1 as [| now s r _ IH | now s u e p z a _ IH].
  - split; intros i [x Hx]; simpl in Hx; by rewrite lookup_empty in Hx.
  - by apply handle_fresh.
  - by apply createAdmin_fresh.
Qed.


(** ** What lasts of an event *)

(** What no route changes of an event once stored. *)
Lemma step_keeps `{Platform} (now : Z) (s : State) (r : Request)
    (id : ObjectId) (ev ev' : Event) :
  ids_fresh s → events s !! id = Some ev →
  events (handle now s r).1 !! id = Some ev' →
  comments ev `prefix_of` comments ev' ∧ organizer_id ev' = organizer_id ev ∧
  organizer ev' = organizer ev ∧ created_at ev' = created_at ev.
Proof.
  intros [_ Hfe] Hev Hev'.
  assert (id < next_oid s)%N as Hid by (apply Hfe; by exists ev).
  destruct r as [| | | | tok body | tok j body | | tok j body | tok j body
                 | tok j body | | | |].
  all: simpl in Hev'.
  1-4, 7, 11-14:
    unfold_handlers; simpl in Hev';
    repeat (case_match; simpl in Hev'; simplify_eq; try done);
    try (apply lookup_delete_Some in Hev' as [_ Hev']; by simplify_eq);
    try (unfold deleteMany in Hev';
         apply map_lookup_filter_Some in Hev' as [Hev' _]; by simplify_eq).
  - (* create *)
    unfold create_event in Hev'.
    repeat (case_match; simpl in Hev'; simplify_eq; try done).
    apply lookup_insert_Some in Hev' as [[<- _] | [_ Hev']]; [lia | by simplify_eq].
  - (* update *)
    pose proof (update_event_frame now s tok j body) as (_ & _ & Hput).
    simpl in Hput. destruct (decide (j = id)) as [-> | Hne].
    + rewrite Hev in Hput. destruct Hput as (ev2 & Hev2 & Hsame).
      rewrite Hev' in Hev2. injection Hev2 as <-.
      destruct Hsame as (? & ? & _ & _ & _ & _ & Hc & ?). by rewrite Hc.
    + pose proof (update_event_frame now s tok j body) as ([_ Hother] & _).
      simpl in Hother. rewrite (Hother id) in Hev' by done. by simplify_eq.
  - (* rsvp *)
    pose proof (rsvp_frame s tok j body) as (Hother & _ & Hsame).
    simpl in Hother, Hsame. destruct (decide (j = id)) as [-> | Hne].
    + rewrite Hev in Hsame. destruct Hsame as (ev2 & Hev2 & _ & ? & ? & _ & Hc & ? & _).
      rewrite Hev' in Hev2. injection Hev2 as <-. by rewrite Hc.
    + destruct Hother as [_ Hother]. rewrite (Hother id) in Hev' by done. by simplify_eq.
  - (* favorite *)
    pose proof (favorite_frame s tok j body) as (Hother & _ & Hsame).
    simpl in Hother, Hsame. destruct (decide (j = id)) as [-> | Hne].
    + rewrite Hev in Hsame. destruct Hsame as (ev2 & Hev2 & Heq).
      rewrite Hev' in Hev2. injection Hev2 as <-. by rewrite Heq.
    + destruct Hother as [_ Hother]. rewrite (Hother id) in Hev' by done. by simplify_eq.
  - (* comment *)
    pose proof (add_comment_frame now s tok j body) as (Hother & _ & Hsame).
    simpl in Hother, Hsame. destruct (decide (j = id)) as [-> | Hne].
    + rewrite Hev in Hsame. destruct Hsame as (ev2 & Hev2 & Heq & Hpre).
      rewrite Hev' in Hev2. injection Hev2 as <-. by rewrite Heq.
    + destruct Hother as [_ Hother]. rewrite (Hother id) in Hev' by done. by simplify_eq.
Qed.


Lemma step_absent `{Platform} (now : Z) (s : State) (r : Request) (id : ObjectId) :
  (id < next_oid s)%N → events s !! id = None →
  events (handle now s r).1 !! id = None.
Proof.
  intros Hid Hnone.
  destruct r; simpl; unfold_handlers; simpl;
    repeat (case_match; simpl; simplify_eq; try done).
  all: try (apply lookup_insert_None; split; [done |]; intros Heq; first [lia | congruence]).
  all: try (apply lookup_delete_None; by right).
  all: try (apply map_lookup_filter_None; by left).
Qed.

Lemma step_next_oid `{Platform} (now : Z) (s : State) (r : Request) :
  (next_oid s ≤ next_oid (handle now s r).1)%N.
Proof.
  destruct r; simpl; unfold_handlers; simpl;
    repeat (case_match; simpl; try done); lia.
Qed.

Lemma run_absent `{Platform} (l : list (Z * Request)) (s : State) (id : ObjectId) :
  (id < next_oid s)%N → events s !! id = None → events (run s l) !! id = None.
Proof.
  revert s. induction l as [|[t r] l IH]; intros s Hid Hnone; simpl; [done |].
  apply IH; [| by apply step_absent].
  pose proof (step_next_oid t s r). simpl. lia.
Qed.

Lemma run_fresh `{Platform} (l : list (Z * Request)) (s : State) :
  ids_fresh s → ids_fresh (run s l).
Proof.
  revert s. induction l as [|[t r] l IH]; intros s Hs; simpl; [done |].
  apply IH. by apply handle_fresh.
Qed.

(** X2.  In a reachable store, whatever requests follow, an event that
    is still stored has the organizer and the creation time it had, and
    its comments are the comments it had followed by the new ones: no
    route transfers an event, removes a comment or changes one. *)
Theorem event_identity_lasts `{Platform} (s : State) (l : list (Z * Request))
    (id : ObjectId) (ev ev' : Event) :
  reachable s → events s !! id = Some ev → events (run s l) !! id = Some ev' →
  organizer_id ev' = organizer_id ev ∧ organizer ev' = organizer ev ∧
  created_at ev' = created_at ev ∧ comments ev `prefix_of` comments ev'.
Proof.
  intros Hs. apply reachable_fresh in Hs. revert s ev Hs.
  induction l as [|[t r] l IH]; intros s ev Hs Hev Hev'; simpl in Hev'.
  - by simplify_eq.
  - destruct (events (handle t s r).1 !! id) as [ev1|] eqn:Hev1.
    + destruct (step_keeps t s r id ev ev1 Hs Hev Hev1) as (Hpre & Ho & Hn & Hc).
      destruct (IH _ ev1 (handle_fresh t s r Hs) Hev1 Hev') as (Ho' & Hn' & Hc' & Hpre').
      repeat split; try congruence. by etrans.
    + exfalso.
      assert (id < next_oid (handle t s r).1)%N as Hid.
      { destruct Hs as [_ Hfe]. pose proof (step_next_oid t s r).
        specialize (Hfe id (ex_intro _ ev Hev)). lia. }
      pose proof (run_absent l _ id Hid Hev1) as Hnone.
      simpl in Hnone. congruence.
Qed.

Lemma event_identity_lasts_witness :
  events Scenario.town !! Scenario.picnic = Some Scenario.picnic_event ∧
  organizer_id <$>
    events (run Scenario.town
              [(5, PostComment (Some Scenario.bob) Scenario.picnic (Scenario.says "Hello"));
               (6, PutEvent (Some Scenario.alice) Scenario.picnic
                     (Scenario.party "Picnic" "2024-06-01"))])
      !! Scenario.picnic = Some Scenario.alice.
Proof.
  assert (events Scenario.town !! Scenario.picnic = Some Scenario.picnic_event) as Hev
    by (vm_compute; reflexivity).
  split; [exact Hev |].
  destruct (events (run Scenario.town
              [(5, PostComment (Some Scenario.bob) Scenario.picnic (Scenario.says "Hello"));
               (6, PutEvent (Some Scenario.alice) Scenario.picnic
                     (Scenario.party "Picnic" "2024-06-01"))])
      !! Scenario.picnic) as [ev'|] eqn:Hrun; [| vm_compute in Hrun; discriminate Hrun].
  simpl. f_equal.
  exact (proj1 (event_identity_lasts Scenario.town
                  [(5, PostComment (Some Scenario.bob) Scenario.picnic (Scenario.says "Hello"));
                   (6, PutEvent (Some Scenario.alice) Scenario.picnic
                         (Scenario.party "Picnic" "2024-06-01"))]
                  Scenario.picnic Scenario.picnic_event ev' town_reachable Hev Hrun)).
Defined.

(** X3.  In a reachable store, an event that a request removes stays
    removed whatever requests follow: its id is never given to another
    event. *)
Theorem removed_event_stays_removed `{Platform} (now : Z) (s : State) (r : Request)
    (l : list (Z * Request)) (id : ObjectId) :
  reachable s → is_Some (events s !! id) →
  events (handle now s r).1 !! id = None →
  events (run (handle now s r).1 l) !! id = None.
Proof.
  intros Hs Hev Hgone. apply reachable_fresh in Hs as [_ Hfe].
  apply run_absent; [| done].
  pose proof (step_next_oid now s r). specialize (Hfe id Hev). lia.
Qed.

Lemma removed_event_stays_removed_witness :
  is_Some (events Scenario.town !! Scenario.picnic) ∧
  events (run (handle 5 Scenario.town
                 (DeleteEvent (Some Scenario.alice) Scenario.picnic)).1
            [(6, PostEvent (Some Scenario.alice) (Scenario.party "Again" "2024-06-01"))])
    !! Scenario.picnic = None.
Proof.
  assert (is_Some (events Scenario.town !! Scenario.picnic)) as Hsome
    by (vm_compute; eexists; reflexivity).
  assert (events (handle 5 Scenario.town
                    (DeleteEvent (Some Scenario.alice) Scenario.picnic)).1
            !! Scenario.picnic = None) as Hgone by (vm_compute; reflexivity).
  split; [exact Hsome |].
  exact (removed_event_stays_removed 5 Scenario.town
           (DeleteEvent (Some Scenario.alice) Scenario.picnic)
           [(6, PostEvent (Some Scenario.alice) (Scenario.party "Again" "2024-06-01"))]
           Scenario.picnic town_reachable Hsome Hgone).
Defined.

(** X4.  The three interaction routes change nothing but the addressed
    event, and create or remove none.  Of that event an RSVP request
    leaves everything but the entries and the two counters, a favorite
    request everything but the favorites, a comment request everything
    but the comments, which it only extends at the end. *)
Theorem interactions_frame `{Platform} (now : Z) (s : State) (tok : Token)
    (id : ObjectId) (body : Body) :
  (let s' := (handle now s (PostRsvp tok id body)).1 in
   others_untouched id s s' ∧
   match events s !! id with
   | None => events s' !! id = None
   | Some ev => ∃ ev', events s' !! id = Some ev' ∧
       details ev' = details ev ∧ organizer ev' = organizer ev ∧
       organizer_id ev' = organizer_id ev ∧ favorites ev' = favorites ev ∧
       comments ev' = comments ev ∧ created_at ev' = created_at ev ∧
       updated_at ev' = updated_at ev
   end) ∧
  (let s' := (handle now s (PostFavorite tok id body)).1 in
   others_untouched id s s' ∧
   match events s !! id with
   | None => events s' !! id = None
   | Some ev => ∃ ev', events s' !! id = Some ev' ∧
       ev' = set_favorites ev (favorites ev')
   end) ∧
  (let s' := (handle now s (PostComment tok id body)).1 in
   others_untouched id s s' ∧
   match events s !! id with
   | None => events s' !! id = None
   | Some ev => ∃ ev', events s' !! id = Some ev' ∧
       ev' = set_comments ev (comments ev') ∧
       comments ev `prefix_of` comments ev'
   end).
Proof.
  split; [| split]; simpl.
  - destruct (rsvp_frame s tok id body) as (Ho & _ & He). by split.
  - destruct (favorite_frame s tok id body) as (Ho & _ & He). by split.
  - destruct (add_comment_frame now s tok id body) as (Ho & _ & He). by split.
Qed.


(** ** What a payload that passes a schema is *)

Lemma check_keys_None `{Platform} (sch : Joi.Schema) (b : Body) :
  Joi.check_keys sch b = None ↔ Forall (λ k, Joi.check_key k b = None) sch.
Proof.
  induction sch as [|k sch IH]; simpl.
  - split; [constructor | done].
  - rewrite Forall_cons, <- IH. destruct (Joi.check_key k b); split; try done.
    + by intros [? _].
    + by intros [_ ?].
Qed.

Lemma unknown_key_None (sch : Joi.Schema) (b : Body) (k : string) :
  Joi.unknown_key sch b = None → is_Some (b !! k) → Joi.known sch k = true.
Proof.
  unfold Joi.unknown_key. intros Hnone [v Hv].
  destruct (List.filter _ _) as [|kv l] eqn:Hf; [| done].
  destruct (Joi.known sch k) eqn:Hk; [done |]. exfalso.
  assert ((k, v) ∈ List.filter (λ kv, negb (Joi.known sch kv.1)) (map_to_list b)) as Hin.
  { apply elem_of_filter_bool. split; [by apply elem_of_map_to_list |]. simpl. by rewrite Hk. }
  rewrite Hf in Hin. inversion Hin.
Qed.

Lemma validate_None `{Platform} (sch : Joi.Schema) (b : Body) :
  Joi.validate sch b = None ↔
  Forall (λ k, Joi.check_key k b = None) sch ∧ Joi.unknown_key sch b = None.
Proof.
  unfold Joi.validate. rewrite <- check_keys_None.
  destruct (Joi.check_keys sch b); split; try done; by intros [? ?].
Qed.

Lemma known_names (sch : Joi.Schema) (k : string) :
  Joi.known sch k = true ↔ k ∈ Joi.name <$> sch.
Proof.
  unfold Joi.known. rewrite existsb_exists, list_elem_of_fmap. split.
  - intros (key & Hin & Heq). apply String.eqb_eq in Heq.
    exists key. split; [done | by apply list_elem_of_In].
  - intros (key & -> & Hin). exists key. split; [by apply list_elem_of_In |].
    apply String.eqb_refl.
Qed.

(** A required or optional string key that passed its check. *)
Lemma check_string_key `{Platform} (k : Joi.Key) (b : Body)
    (min max : option nat) (allow : bool) (fmt : Joi.Format) :
  Joi.kind k = Joi.string_ min max allow fmt →
  Joi.check_key k b = None →
  (Joi.required k = false ∧ (b !! Joi.name k = None ∨ b !! Joi.name k = Some JUndefined)) ∨
  (∃ s, b !! Joi.name k = Some (JStr s) ∧
        ((s = "" ∧ allow = true) ∨
         (s ≠ "" ∧
          (∀ n, min = Some n → (n ≤ String.length s)%nat) ∧
          (∀ n, max = Some n → (String.length s ≤ n)%nat) ∧
          Joi.check_format fmt s = None))).
Proof.
  intros Hkind. unfold Joi.check_key. rewrite Hkind.
  destruct (b !! Joi.name k) as [v|]; [| destruct (Joi.required k); [done | auto]].
  destruct v as [| | ? | ? | s | ? | ?]; simpl; try done.
  { destruct (Joi.required k); [done | auto]. }
  intros Hcheck. right. exists s. split; [done |].
  destruct (String.eqb_spec s "") as [Hs | Hs].
  { left. split; [done |]. by destruct allow. }
  right. split; [done |].
  destruct min as [n|], max as [m|]; simpl in Hcheck.
  - destruct (Nat.ltb_spec (String.length s) n); [done |].
    destruct (Nat.ltb_spec m (String.length s)); [done |].
    repeat split; try done; intros ? [= <-]; lia.
  - destruct (Nat.ltb_spec (String.length s) n); [done |].
    repeat split; try done; intros ? [= <-]; lia.
  - destruct (Nat.ltb_spec m (String.length s)); [done |].
    repeat split; try done; intros ? [= <-]; lia.
  - repeat split; try done.
Qed.


Lemma check_valid_key `{Platform} (k : Joi.Key) (b : Body) (allowed : list string) :
  Joi.kind k = Joi.valid_ allowed → Joi.required k = true →
  Joi.check_key k b = None →
  ∃ s, b !! Joi.name k = Some (JStr s) ∧ s ∈ allowed.
Proof.
  intros Hkind Hreq. unfold Joi.check_key. rewrite Hkind, Hreq.
  destruct (b !! Joi.name k) as [v|]; [| done].
  destruct v as [| | ? | ? | s | ? | ?]; simpl; try done.
  destruct (existsb (String.eqb s) allowed) eqn:Hex; [| done].
  intros _. exists s. split; [done |].
  apply existsb_exists in Hex as (x & Hx & Heq).
  apply String.eqb_eq in Heq as ->. by apply list_elem_of_In.
Qed.

Lemma check_number_key `{Platform} (k : Joi.Key) (b : Body) (min : Z) :
  Joi.kind k = Joi.number_ min → Joi.required k = false →
  Joi.check_key k b = None →
  b !! Joi.name k = None ∨ b !! Joi.name k = Some JUndefined ∨
  (∃ n, b !! Joi.name k = Some (JNum n) ∧ min ≤ n) ∨
  (∃ s n, b !! Joi.name k = Some (JStr s) ∧ Joi.number_of_string s = Some n ∧ min ≤ n).
Proof.
  intros Hkind Hreq. unfold Joi.check_key. rewrite Hkind, Hreq.
  destruct (b !! Joi.name k) as [v|]; [| auto].
  destruct v as [| | ? | n | s | ? | ?]; simpl; try done; auto.
  - unfold Joi.check_number_value.
    destruct (_ <? Z.abs n); [done |]. destruct (Z.ltb_spec n min); [done |].
    intros _. right; right; left. by exists n.
  - destruct (Joi.number_of_string s) as [n|] eqn:Hn; [| done].
    unfold Joi.check_number_value.
    destruct (_ <? Z.abs n); [done |]. destruct (Z.ltb_spec n min); [done |].
    intros _. do 3 right. by exists s, n.
Qed.

Lemma string_items_length (l : list JsVal) :
  (length (string_items l) ≤ length l)%nat.
Proof.
  unfold string_items. induction l as [|v l IH]; simpl; [done |].
  destruct v; simpl; first [apply le_n_S, IH | apply le_S, IH].
Qed.

Lemma check_array_key `{Platform} (k : Joi.Key) (b : Body) (max : nat) :
  Joi.kind k = Joi.array_of_strings max → Joi.required k = false →
  Joi.check_key k b = None →
  b !! Joi.name k = None ∨ b !! Joi.name k = Some JUndefined ∨
  (∃ l, b !! Joi.name k = Some (JArr l) ∧ (length l ≤ max)%nat).
Proof.
  intros Hkind Hreq. unfold Joi.check_key. rewrite Hkind, Hreq.
  destruct (b !! Joi.name k) as [v|]; [| auto].
  destruct v as [| | ? | ? | ? | l | ?]; simpl; try done; auto.
  destruct (Joi.check_items l); [done |].
  destruct (Nat.ltb_spec max (length l)); [done |].
  intros _. right; right. by exists l.
Qed.

(** A payload that passes [eventSchema], assigned to details whose
    optional attributes are within the schema, gives details within the
    schema. *)
Lemma assign_ok `{Platform} (d : Details) (b : Body) :
  Joi.validate eventSchema b = None →
  (∀ x, description d = Some x → (String.length x ≤ 2000)%nat) →
  (∀ x, contact_info d = Some x → (String.length x ≤ 100)%nat) →
  (∀ x, image_url d = Some x → x = "" ∨ joi_uri x = true) →
  0 ≤ max_capacity d → (length (tags d) ≤ 10)%nat →
  details_ok (assign d b).
Proof.
  intros Hv Hdesc Hcontact Himage Hcap Holdtags.
  apply validate_None in Hv as [Hkeys _]. unfold eventSchema in Hkeys.
  apply Forall_cons in Hkeys as [Htitle Hkeys].
  apply Forall_cons in Hkeys as [Hdescription Hkeys].
  apply Forall_cons in Hkeys as [Hcategory Hkeys].
  apply Forall_cons in Hkeys as [Hdate Hkeys].
  apply Forall_cons in Hkeys as [_ Hkeys].
  apply Forall_cons in Hkeys as [Hlocation Hkeys].
  apply Forall_cons in Hkeys as [Hcontact_info Hkeys].
  apply Forall_cons in Hkeys as [Himage_url Hkeys].
  apply Forall_cons in Hkeys as [Hmax_capacity Hkeys].
  apply Forall_cons in Hkeys as [Htags _].
  eapply check_string_key in Htitle; [| reflexivity].
  eapply check_string_key in Hdate; [| reflexivity].
  eapply check_string_key in Hlocation; [| reflexivity].
  eapply check_valid_key in Hcategory; [| reflexivity | reflexivity].
  eapply check_string_key in Hdescription; [| reflexivity].
  eapply check_string_key in Hcontact_info; [| reflexivity].
  eapply check_string_key in Himage_url; [| reflexivity].
  eapply check_number_key in Hmax_capacity; [| reflexivity | reflexivity].
  eapply check_array_key in Htags; [| reflexivity | reflexivity].
  simpl in *.
  destruct Htitle as [[? _] | (t & Ht & Htitle)]; [done |].
  destruct Hdate as [[? _] | (dt & Hdt & Hdate)]; [done |].
  destruct Hlocation as [[? _] | (loc & Hloc & Hlocation)]; [done |].
  destruct Hcategory as (c & Hc & Hcategory).
  simpl in *.
  unfold details_ok, assign, set_string, set_optional. simpl.
  rewrite Ht, Hdt, Hloc, Hc.
  split; [| split; [| split; [| split]]].
  - destruct Htitle as [[_ ?] | (_ & Hmin & Hmax & _)]; [done |].
    specialize (Hmin _ eq_refl). specialize (Hmax _ eq_refl). lia.
  - done.
  - destruct Hdate as [[_ ?] | (_ & _ & _ & Hfmt)]; [done |].
    simpl in Hfmt. by destruct (date_pattern dt).
  - destruct Hlocation as [[_ ?] | (Hne & _ & Hmax & _)]; [done |].
    specialize (Hmax _ eq_refl). destruct loc; [done | simpl in *; lia].
  - split; [| split; [| split; [| split]]].
    + destruct Hdescription as [[_ [Hb | Hb]] | (s & Hb & Hs)]; rewrite Hb; try done.
      intros x [= <-]. destruct Hs as [[-> _] | (_ & _ & Hmax & _)]; [simpl; lia |].
      by apply Hmax.
    + destruct Hcontact_info as [[_ [Hb | Hb]] | (s & Hb & Hs)]; rewrite Hb; try done.
      intros x [= <-]. destruct Hs as [[-> _] | (_ & _ & Hmax & _)]; [simpl; lia |].
      by apply Hmax.
    + destruct Himage_url as [[_ [Hb | Hb]] | (s & Hb & Hs)]; rewrite Hb; try done.
      intros x [= <-]. destruct Hs as [[-> _] | (_ & _ & _ & Hfmt)]; [by left |].
      right. simpl in Hfmt. by destruct (joi_uri _).
    + destruct Hmax_capacity as [Hb | [Hb | [(n & Hb & Hn) | (s & n & Hb & Hs & Hn)]]];
        rewrite Hb; try done.
      by rewrite Hs.
    + destruct Htags as [Hb | [Hb | (l & Hb & Hl)]]; rewrite Hb; try done.
      pose proof (string_items_length l). lia.
Qed.


(** ** Invariants of stored events, route by route *)

Section Preserved.
Context `{Platform} (P : Event → Prop).
Hypothesis P_new : ∀ b uid u now,
  Joi.validate eventSchema b = None → P (new_event b uid u now).
Hypothesis P_update : ∀ ev b now,
  Joi.validate eventSchema b = None → P ev →
  P (set_details ev (assign (details ev) b) now).
Hypothesis P_rsvp : ∀ ev uid st, st ∈ rsvp_statuses → P ev → P (apply_rsvp ev uid st).
Hypothesis P_favorite : ∀ ev uid v, P ev → P (apply_favorite ev uid v).
Hypothesis P_comment : ∀ ev l, P ev → P (set_comments ev l).

Lemma handle_preserves (now : Z) (s : State) (r : Request) :
  (∀ id ev, events s !! id = Some ev → P ev) →
  ∀ id ev, events (handle now s r).1 !! id = Some ev → P ev.
Proof.
  intros Hs id ev.
  destruct r; simpl; unfold_handlers; simpl;
    repeat (case_match; simpl; try apply Hs).
  all: try (intros Hev; apply lookup_insert_Some in Hev as [[_ <-] | [_ Hev]]; eauto; fail).
  all: try (intros Hev; apply lookup_delete_Some in Hev as [_ Hev]; eauto; fail).
  all: try (intros Hev; apply map_lookup_filter_Some in Hev as [Hev _]; eauto; fail).
  all: intros Hev; apply lookup_insert_Some in Hev as [[_ <-] | [_ Hev]]; [| eauto].
  all: match goal with Hst : rsvp_status_of _ = Some _ |- _ =>
         apply rsvp_status_of_in in Hst as [_ Hst] end.
  all: eauto.
Qed.

Lemma reachable_preserves (s : State) :
  reachable s → ∀ id ev, events s !! id = Some ev → P ev.
Proof.
  induction 1 as [| now s r _ IH | now s u e p z a _ IH].
  - intros id ev Hev. simpl in Hev. by rewrite lookup_empty in Hev.
  - by apply handle_preserves.
  - by rewrite createAdmin_events.
Qed.

End Preserved.

Lemma blank_assign_ok `{Platform} (b : Body) :
  Joi.validate eventSchema b = None → details_ok (assign blank_details b).
Proof. intros Hv. apply assign_ok; simpl; try done; lia. Qed.

Lemma details_ok_assign `{Platform} (d : Details) (b : Body) :
  Joi.validate eventSchema b = None → details_ok d → details_ok (assign d b).
Proof.
  intros Hv (_ & _ & _ & _ & ? & ? & ? & ? & ?). by apply assign_ok.
Qed.

(** X5.  Every event of a reachable store is within [eventSchema]: a
    title of 3 to 100 characters, a category of the list, a date of the
    form dddd-dd-dd, a location of 1 to 200 characters, a description of
    at most 2000 and contact information of at most 100 characters when
    present, an image address that is empty or a URI, a capacity that is
    not negative and at most ten tags. *)
Theorem stored_details_within_schema `{Platform} (s : State) (id : ObjectId) (ev : Event) :
  reachable s → events s !! id = Some ev → details_ok (details ev).
Proof.
  intros Hs Hev.
  apply (reachable_preserves (λ ev, details_ok (details ev))) with (s := s) (id := id);
    try done.
  - intros b uid u now Hv. simpl. by apply blank_assign_ok.
  - intros ev0 b now Hv Hok. simpl. by apply details_ok_assign.
  - intros ev0 uid st _ Hok. by destruct (apply_rsvp_frame ev0 uid st) as [-> _].
  - intros ev0 uid v Hok. by rewrite apply_favorite_rest.
Qed.

Lemma stored_details_within_schema_witness :
  events Scenario.town !! Scenario.picnic = Some Scenario.picnic_event ∧
  details_ok (details Scenario.picnic_event).
Proof.
  assert (events Scenario.town !! Scenario.picnic = Some Scenario.picnic_event) as Hev
    by (vm_compute; reflexivity).
  split; [exact Hev |].
  exact (stored_details_within_schema Scenario.town Scenario.picnic
           Scenario.picnic_event town_reachable Hev).
Defined.

Lemma splice1_Forall {A} (Q : A → Prop) (i : nat) (l : list A) :
  Forall Q l → Forall Q (splice1 i l).
Proof.
  intros Hl. unfold splice1. apply Forall_app. split.
  - by apply Forall_take.
  - by apply Forall_drop.
Qed.

Lemma apply_rsvp_statuses (ev : Event) (uid : ObjectId) (st : string) :
  st ∈ rsvp_statuses → statuses_ok ev → statuses_ok (apply_rsvp ev uid st).
Proof.
  unfold statuses_ok, apply_rsvp. intros Hst Hok.
  assert (Forall (λ r, status r = "going" ∨ status r = "interested")
            (rsvps (drop_rsvp ev uid))) as Hdrop.
  { unfold drop_rsvp. destruct (findIndex _ _); simpl; [| done].
    by apply splice1_Forall. }
  unfold push_rsvp, rsvp_statuses in *. rewrite !elem_of_cons in Hst.
  destruct Hst as [-> | [-> | [-> | [-> | Hst]]]]; simpl; try done.
  - apply Forall_app. split; [done |]. apply Forall_singleton. by left.
  - apply Forall_app. split; [done |]. apply Forall_singleton. by right.
  - inversion Hst.
Qed.

Lemma count_two_statuses (l : list Rsvp) :
  Forall (λ r, status r = "going" ∨ status r = "interested") l →
  count_status "going" l + count_status "interested" l = Z.of_nat (length l).
Proof.
  unfold count_status. induction 1 as [|r l Hr _ IH]; simpl; [done |].
  destruct Hr as [-> | ->]; simpl; lia.
Qed.

(** X6.  In every event of a reachable store each RSVP entry has the
    status [going] or [interested], the two counters are not negative,
    and together they count the entries. *)
Theorem counters_sum_entries `{Platform} (s : State) (id : ObjectId) (ev : Event) :
  reachable s → events s !! id = Some ev →
  statuses_ok ev ∧ 0 ≤ attendees_going ev ∧ 0 ≤ attendees_interested ev ∧
  attendees_going ev + attendees_interested ev = Z.of_nat (length (rsvps ev)).
Proof.
  intros Hs Hev.
  assert (statuses_ok ev) as Hst.
  { apply (reachable_preserves statuses_ok) with (s := s) (id := id); try done.
    - intros. constructor.
    - intros. by apply apply_rsvp_statuses.
    - intros ev0 uid v Hok. unfold statuses_ok. rewrite apply_favorite_rest. exact Hok. }
  destruct (reachable_ok s Hs id ev Hev) as [_ Hg Hi _].
  split; [done |]. rewrite Hg, Hi. unfold count_status at 1 2.
  split; [lia |]. split; [lia |]. by apply count_two_statuses.
Qed.

Lemma counters_sum_entries_witness :
  events Scenario.town !! Scenario.picnic = Some Scenario.picnic_event ∧
  attendees_going Scenario.picnic_event + attendees_interested Scenario.picnic_event =
    Z.of_nat (length (rsvps Scenario.picnic_event)).
Proof.
  assert (events Scenario.town !! Scenario.picnic = Some Scenario.picnic_event) as Hev
    by (vm_compute; reflexivity).
  split; [exact Hev |].
  exact (proj2 (proj2 (proj2 (counters_sum_entries Scenario.town Scenario.picnic
           Scenario.picnic_event town_reachable Hev)))).
Defined.


(** ** Updates by the organizer *)

(** X7.  Whoever asks and whatever the payload, [PUT /api/events/:id]
    leaves every account and every other event as they were, creates and
    removes no event, and of the addressed event leaves the organizer,
    the counters, the RSVP entries, the favorites, the comments and the
    creation time as they were; a payload that passes the schema has no
    key outside the schema's ten to assign. *)
Theorem put_keeps_interactions `{Platform} (now : Z) (s : State) (tok : Token)
    (id : ObjectId) (body : Body) :
  let s' := (handle now s (PutEvent tok id body)).1 in
  others_untouched id s s' ∧ next_oid s' = next_oid s ∧
  match events s !! id with
  | None => events s' !! id = None
  | Some ev => ∃ ev', events s' !! id = Some ev' ∧ same_interactions ev ev'
  end ∧
  (Joi.validate eventSchema body = None →
   ∀ k, is_Some (body !! k) → k ∈ Joi.name <$> eventSchema).
Proof.
  simpl. destruct (update_event_frame now s tok id body) as (Ho & Hn & He).
  split; [exact Ho |]. split; [exact Hn |]. split; [exact He |].
  intros Hv k Hk. apply validate_None in Hv as [_ Hu].
  exact (proj1 (known_names eventSchema k) (unknown_key_None eventSchema body k Hu Hk)).
Qed.

(** X8.  The organizer's update with a payload that passes the schema is
    answered 200.  The stored event takes the title, category, date and
    location of the payload, keeps its description when the payload has
    none, and has the request's time as its [updated_at]. *)
Theorem organizer_update_effect `{Platform} (now : Z) (s : State) (uid : ObjectId)
    (u : User) (id : ObjectId) (ev : Event) (body : Body) :
  users s !! uid = Some u → events s !! id = Some ev → organizer_id ev = uid →
  Joi.validate eventSchema body = None →
  let result := handle now s (PutEvent (Some uid) id body) in
  http_status result.2 = 200 ∧
  ∃ ev', events result.1 !! id = Some ev' ∧ updated_at ev' = now ∧
    body !! "title" = Some (JStr (title (details ev'))) ∧
    body !! "category" = Some (JStr (category (details ev'))) ∧
    body !! "date" = Some (JStr (date (details ev'))) ∧
    body !! "location" = Some (JStr (location (details ev'))) ∧
    (body !! "description" = None →
       description (details ev') = description (details ev)).
Proof.
  intros Hu Hev Horg Hv. simpl. unfold update_event, auth.
  rewrite Hu, Hv, Hev, <- Horg, N.eqb_refl. simpl. split; [done |].
  rewrite lookup_insert_eq. eexists. split; [done |]. simpl. split; [done |].
  pose proof Hv as Hv'. apply validate_None in Hv' as [Hkeys _].
  unfold eventSchema in Hkeys.
  apply Forall_cons in Hkeys as [Htitle Hkeys].
  apply Forall_cons in Hkeys as [_ Hkeys].
  apply Forall_cons in Hkeys as [Hcategory Hkeys].
  apply Forall_cons in Hkeys as [Hdate Hkeys].
  apply Forall_cons in Hkeys as [_ Hkeys].
  apply Forall_cons in Hkeys as [Hlocation _].
  eapply check_string_key in Htitle; [| reflexivity].
  eapply check_string_key in Hdate; [| reflexivity].
  eapply check_string_key in Hlocation; [| reflexivity].
  eapply check_valid_key in Hcategory; [| reflexivity | reflexivity].
  simpl in *.
  destruct Htitle as [[? _] | (t & Ht & _)]; [done |].
  destruct Hdate as [[? _] | (dt & Hdt & _)]; [done |].
  destruct Hlocation as [[? _] | (loc & Hloc & _)]; [done |].
  destruct Hcategory as (c & Hc & _).
  unfold set_string, set_optional. rewrite Ht, Hdt, Hloc, Hc.
  repeat split; try done. by intros ->.
Qed.

Lemma organizer_update_effect_witness :
  users Scenario.town !! Scenario.alice = Some Scenario.alice_account ∧
  events Scenario.town !! Scenario.picnic = Some Scenario.picnic_event ∧
  Joi.validate eventSchema (Scenario.party "Picnic" "2024-06-01") = None ∧
  http_status (handle 5 Scenario.town
     (PutEvent (Some Scenario.alice) Scenario.picnic
        (Scenario.party "Picnic" "2024-06-01"))).2 = 200.
Proof.
  assert (users Scenario.town !! Scenario.alice = Some Scenario.alice_account) as Hu
    by (vm_compute; reflexivity).
  assert (events Scenario.town !! Scenario.picnic = Some Scenario.picnic_event) as Hev
    by (vm_compute; reflexivity).
  assert (Joi.validate eventSchema (Scenario.party "Picnic" "2024-06-01") = None) as Hv
    by (vm_compute; reflexivity).
  split; [exact Hu |]. split; [exact Hev |]. split; [exact Hv |].
  exact (proj1 (organizer_update_effect 5 Scenario.town Scenario.alice
           Scenario.alice_account Scenario.picnic Scenario.picnic_event
           (Scenario.party "Picnic" "2024-06-01") Hu Hev eq_refl Hv)).
Defined.

(** ** Requests that store nothing *)

(** X9.  A request that is answered with a status of 400 or above, and
    any of the three reading routes whatever its answer, leaves the
    accounts, the events and the id counter exactly as they were: every
    handler rejects before its first write. *)
Theorem rejections_change_nothing `{Platform} (now : Z) (s : State) (r : Request) :
  400 ≤ http_status (handle now s r).2 ∨ is_read r = true →
  (handle now s r).1 = s.
Proof.
  destruct r; simpl; unfold_handlers; simpl;
    repeat (case_match; simpl; try done); intros [Hst | Hrd]; try done; lia.
Qed.

Lemma rejections_change_nothing_witness :
  (handle 5 Scenario.town (DeleteEvent (Some Scenario.bob) Scenario.picnic)).1 =
    Scenario.town.
Proof.
  assert (400 ≤ http_status
            (handle 5 Scenario.town (DeleteEvent (Some Scenario.bob) Scenario.picnic)).2 ∨
          is_read (DeleteEvent (Some Scenario.bob) Scenario.picnic) = true) as Hst
    by (left; vm_compute; discriminate).
  exact (rejections_change_nothing 5 Scenario.town
           (DeleteEvent (Some Scenario.bob) Scenario.picnic) Hst).
Defined.

(** ** The organizer of an event *)

Lemma handle_organizers `{Platform} (now : Z) (s : State) (r : Request) :
  ids_fresh s → organizers_ok s → organizers_ok (handle now s r).1.
Proof.
  intros Hf Hok. destruct r; simpl; unfold_handlers; simpl;
    repeat (case_match; simpl; try exact Hok); try exact Hok.
  all: intros j ev Hev; simpl in *; simplify_eq.
  all: repeat match goal with
       | H : findOne _ _ = Some _ |- _ => apply findOne_Some in H as [H _]
       end.
  all: try (apply lookup_insert_Some in Hev as [[<- <-] | [Hne Hev]]).
  all: try (apply lookup_delete_Some in Hev as [Hne Hev]).
  all: try (apply map_lookup_filter_Some in Hev as [Hev Hkeep]; simpl in Hkeep).
  all: try (destruct (Hok _ _ Hev) as (u0 & Hu0 & Hname)).
  all: try (by eauto).
  all: try (by simpl; eauto).
  all: try (match goal with He : events _ !! _ = Some ?e |- context [set_details ?e _ _] =>
              destruct (Hok _ _ He) as (u1 & Hu1 & Hname1); simpl; by eauto end).
  all: try (match goal with He : events _ !! _ = Some ?e |- context [set_comments ?e _] =>
              destruct (Hok _ _ He) as (u1 & Hu1 & Hname1); simpl; by eauto end).
  all: try (match goal with He : events _ !! _ = Some ?e |- context [apply_rsvp ?e ?n ?st] =>
              destruct (Hok _ _ He) as (u1 & Hu1 & Hname1);
              destruct (apply_rsvp_frame e n st) as (_ & -> & -> & _); by eauto end).
  all: try (match goal with He : events _ !! _ = Some ?e |- context [apply_favorite ?e ?n ?v] =>
              destruct (Hok _ _ He) as (u1 & Hu1 & Hname1);
              rewrite (apply_favorite_rest e n v); simpl; by eauto end).
  1: { (* register *)
    exists u0. split; [| done]. rewrite lookup_insert_ne; [done |].
    destruct Hf as [Hfu _]. specialize (Hfu _ (ex_intro _ _ Hu0)). lia. }
  1: { (* login *)
    match goal with Hu : users _ !! ?n = Some ?u |- context [<[?n := _]> _] =>
      destruct (decide (n = organizer_id ev)) as [-> | Hne];
      [ rewrite lookup_insert_eq; eexists; split; [done |]; simpl; congruence
      | rewrite lookup_insert_ne by done; eauto ] end. }
  exists u0. split; [| done]. rewrite lookup_delete_ne; [done |].
  apply N.eqb_neq in Hkeep. congruence.
Qed.

Lemma createAdmin_organizers `{Platform} now (s : State) (u e p z a : string) :
  ids_fresh s → organizers_ok s → organizers_ok (createAdmin now s u e p z a).
Proof.
  intros Hf Hok. unfold createAdmin.
  repeat (case_match; simpl; try exact Hok).
  all: intros j ev Hev; simpl in *.
  all: destruct (Hok _ _ Hev) as (org & Horg & Hname).
  - match goal with Hfind : findOne _ _ = Some _ |- _ =>
      apply findOne_Some in Hfind as [Hfind _] end.
    match goal with Hu : users _ !! ?n = Some ?w |- context [<[?n := _]> _] =>
      destruct (decide (n = organizer_id ev)) as [-> | Hne];
      [ rewrite lookup_insert_eq; eexists; split; [done |]; simpl; congruence
      | rewrite lookup_insert_ne by done; eauto ] end.
  - exists org. split; [| done]. rewrite lookup_insert_ne; [done |].
    destruct Hf as [Hfu _]. specialize (Hfu _ (ex_intro _ _ Horg)). lia.
Qed.

(** X10.  In every reachable store the organizer of each event is an
    account that exists, and the organizer name the event carries is
    that account's username: an account is only removed together with
    the events it organizes, and no route renames an account or hands an
    event over. *)
Theorem organizer_is_an_account `{Platform} (s : State) (id : ObjectId) (ev : Event) :
  reachable s → events s !! id = Some ev →
  ∃ u, users s !! organizer_id ev = Some u ∧ username u = organizer ev.
Proof.
  intros Hs. revert id ev. change (organizers_ok s).
  induction Hs as [| now s r Hs IH | now s u e p z a Hs IH].
  - intros id ev Hev. simpl in Hev. by rewrite lookup_empty in Hev.
  - apply handle_organizers; [by apply reachable_fresh | done].
  - apply createAdmin_organizers; [by apply reachable_fresh | done].
Qed.

Lemma organizer_is_an_account_witness :
  events Scenario.town_hall !! Scenario.picnic = Some Scenario.picnic_event ∧
  ∃ u, users Scenario.town_hall !! organizer_id Scenario.picnic_event = Some u ∧
       username u = organizer Scenario.picnic_event.
Proof.
  assert (events Scenario.town_hall !! Scenario.picnic = Some Scenario.picnic_event) as Hev
    by (vm_compute; reflexivity).
  split; [exact Hev |].
  exact (organizer_is_an_account Scenario.town_hall Scenario.picnic
           Scenario.picnic_event town_hall_reachable Hev).
Defined.

(** ** Administrators come from the bootstrap only *)

Lemma run_served `{Platform} (s : State) (l : list (Z * Request)) :
  served s → served (run s l).
Proof.
  revert s. induction l as [|r l IH]; simpl; intros s Hs; [done |].
  apply IH. by constructor.
Qed.

Lemma town_served : served Scenario.town.
Proof. apply run_served. constructor. Qed.

Lemma handle_no_admin `{Platform} (now : Z) (s : State) (r : Request) :
  no_admin s → no_admin (handle now s r).1.
Proof.
  intros Hs. destruct r; simpl; unfold_handlers; simpl;
    repeat (case_match; simpl; try exact Hs); try exact Hs.
  all: intros i acct Hu; simpl in *; simplify_eq.
  all: repeat match goal with
       | H : findOne _ _ = Some _ |- _ => apply findOne_Some in H as [H _]
       end.
  all: try (apply lookup_insert_Some in Hu as [[<- <-] | [Hne Hu]]).
  all: try (apply lookup_delete_Some in Hu as [Hne Hu]).
  all: try (by eauto).
  all: simpl; eauto.
Qed.

Lemma served_no_admin `{Platform} (s : State) : served s → no_admin s.
Proof.
  induction 1 as [| now s r _ IH].
  - intros i u Hu. simpl in Hu. by rewrite lookup_empty in Hu.
  - by apply handle_no_admin.
Qed.

(** X11.  In a store reached through the routes alone no account is an
    administrator, and both deleting routes of the admin router answer
    401 or 403 and change nothing, whoever asks: registration never sets
    [isAdmin] and no route changes it, so the first administrator has to
    come from the bootstrap script. *)
Theorem no_admin_without_bootstrap `{Platform} (now : Z) (s : State) (tok : Token)
    (id : ObjectId) :
  served s →
  (∀ i u, users s !! i = Some u → isAdmin u = false) ∧
  (∀ r, r = AdminDeleteUser tok id ∨ r = AdminDeleteEvent tok id →
     (handle now s r).1 = s ∧
     (http_status (handle now s r).2 = 401 ∨ http_status (handle now s r).2 = 403)).
Proof.
  intros Hs. pose proof (served_no_admin s Hs) as Hno. split; [exact Hno |].
  intros r [-> | ->]; simpl; unfold admin_delete_user, admin_delete_event, adminAuth, auth.
  all: destruct tok as [uid|]; simpl; [| by auto].
  all: destruct (users s !! uid) as [u|] eqn:Hu; simpl; [| by auto].
  all: rewrite (Hno uid u Hu); simpl; by auto.
Qed.

Lemma no_admin_without_bootstrap_witness :
  (handle 5 Scenario.town (AdminDeleteUser (Some Scenario.alice) Scenario.bob)).1 =
    Scenario.town.
Proof.
  exact (proj1 (proj2 (no_admin_without_bootstrap 5 Scenario.town (Some Scenario.alice)
                         Scenario.bob town_served)
                  (AdminDeleteUser (Some Scenario.alice) Scenario.bob)
                  (or_introl eq_refl))).
Defined.

(** ** What lasts of an account *)

Lemma same_profile_refl (u : User) : same_profile u u.
Proof. by repeat split. Qed.

Lemma step_profile `{Platform} (now : Z) (s : State) (r : Request)
    (i : ObjectId) (u u' : User) :
  ids_fresh s → users s !! i = Some u → users (handle now s r).1 !! i = Some u' →
  same_profile u u' ∧ isAdmin u' = isAdmin u.
Proof.
  intros [Hfu _] Hu Hu'.
  assert (i < next_oid s)%N as Hi by (apply Hfu; by exists u).
  destruct r; simpl in Hu'; unfold_handlers; simpl in Hu';
    repeat (case_match; simpl in Hu'; simplify_eq;
            try (split; [apply same_profile_refl | done])).
  all: repeat match goal with
       | H : findOne _ _ = Some _ |- _ => apply findOne_Some in H as [H _]
       end.
  all: try (apply lookup_insert_Some in Hu' as [[Heq Hval] | [_ Hu']]).
  all: try (apply lookup_delete_Some in Hu' as [_ Hu']).
  all: simplify_eq; try lia; try (split; [apply same_profile_refl | done]).
  all: by repeat split.
Qed.

Lemma step_account_absent `{Platform} (now : Z) (s : State) (r : Request) (i : ObjectId) :
  (i < next_oid s)%N → users s !! i = None →
  users (handle now s r).1 !! i = None.
Proof.
  intros Hid Hnone.
  destruct r; simpl; unfold_handlers; simpl;
    repeat (case_match; simpl; simplify_eq; try done).
  all: repeat match goal with
       | H : findOne _ _ = Some _ |- _ => apply findOne_Some in H as [H _]
       end.
  all: try (apply lookup_insert_None; split; [done |]; intros Heq; first [lia | congruence]).
  all: try (apply lookup_delete_None; by right).
  exact Hnone.
Qed.

Lemma run_account_absent `{Platform} (l : list (Z * Request)) (s : State) (i : ObjectId) :
  (i < next_oid s)%N → users s !! i = None → users (run s l) !! i = None.
Proof.
  revert s. induction l as [|[t r] l IH]; intros s Hid Hnone; simpl; [done |].
  apply IH; [| by apply step_account_absent].
  pose proof (step_next_oid t s r). simpl. lia.
Qed.

(** X12.  In a reachable store, whatever requests follow, an account that
    is still stored has the username, the email, the password hash, the
    zipcode, the creation time and the [isAdmin] flag it had: no route
    edits a profile, changes a password or promotes a user. *)
Theorem profile_lasts `{Platform} (s : State) (l : list (Z * Request))
    (i : ObjectId) (u u' : User) :
  reachable s → users s !! i = Some u → users (run s l) !! i = Some u' →
  same_profile u u' ∧ isAdmin u' = isAdmin u.
Proof.
  intros Hs. apply reachable_fresh in Hs. revert s u Hs.
  induction l as [|[t r] l IH]; intros s u Hs Hu Hu'; simpl in Hu'.
  - simplify_eq. split; [apply same_profile_refl | done].
  - destruct (users (handle t s r).1 !! i) as [u1|] eqn:Hu1.
    + destruct (step_profile t s r i u u1 Hs Hu Hu1) as [(? & ? & ? & ? & ?) ?].
      destruct (IH _ u1 (handle_fresh t s r Hs) Hu1 Hu') as [(? & ? & ? & ? & ?) ?].
      repeat split; congruence.
    + exfalso.
      assert (i < next_oid (handle t s r).1)%N as Hid.
      { destruct Hs as [Hfu _]. pose proof (step_next_oid t s r).
        specialize (Hfu i (ex_intro _ u Hu)). lia. }
      pose proof (run_account_absent l _ i Hid Hu1) as Hnone.
      simpl in Hnone. congruence.
Qed.

Lemma profile_lasts_witness :
  users Scenario.town !! Scenario.alice = Some Scenario.alice_account ∧
  isAdmin <$>
    users (run Scenario.town
             [(5, PostLogin (credentials "alice@example.com" "secret1"))])
      !! Scenario.alice = Some false.
Proof.
  assert (users Scenario.town !! Scenario.alice = Some Scenario.alice_account) as Hu
    by (vm_compute; reflexivity).
  split; [exact Hu |].
  destruct (users (run Scenario.town
             [(5, PostLogin (credentials "alice@example.com" "secret1"))])
      !! Scenario.alice) as [u'|] eqn:Hrun; [| vm_compute in Hrun; discriminate Hrun].
  simpl. f_equal.
  exact (proj2 (profile_lasts Scenario.town
                  [(5, PostLogin (credentials "alice@example.com" "secret1"))]
                  Scenario.alice Scenario.alice_account u' town_reachable Hu Hrun)).
Defined.

(** X13.  A request that removes an account is [DELETE
    /api/admin/users/:id] for that account from an administrator: no
    other route removes an account, and nobody without the
    administrator flag removes one. *)
Theorem account_removal_principal `{Platform} (now : Z) (s : State) (r : Request)
    (i : ObjectId) (u : User) :
  users s !! i = Some u → users (handle now s r).1 !! i = None →
  ∃ a adm, r = AdminDeleteUser (Some a) i ∧ users s !! a = Some adm ∧
           isAdmin adm = true.
Proof.
  intros Hu Hgone.
  destruct r; simpl in Hgone; unfold_handlers; simpl in Hgone;
    repeat (case_match; simpl in Hgone; simplify_eq; try done).
  all: repeat match goal with
       | H : findOne _ _ = Some _ |- _ => apply findOne_Some in H as [H _]
       end.
  all: try congruence.
  all: try (apply lookup_insert_None in Hgone as [Hgone _]; congruence).
  apply lookup_delete_None in Hgone as [Heq | Hgone]; [subst | congruence].
  eexists _, _. split; [done |]. split; done.
Qed.

Lemma account_removal_principal_witness :
  ∃ a adm, AdminDeleteUser (Some Scenario.root) Scenario.bob =
             AdminDeleteUser (Some a) Scenario.bob ∧
           users Scenario.town_hall !! a = Some adm ∧ isAdmin adm = true.
Proof.
  assert (users Scenario.town_hall !! Scenario.bob = Some Scenario.bob_account) as Hu
    by (vm_compute; reflexivity).
  assert (users (handle 5 Scenario.town_hall
                   (AdminDeleteUser (Some Scenario.root) Scenario.bob)).1
            !! Scenario.bob = None) as Hgone by (vm_compute; reflexivity).
  exact (account_removal_principal 5 Scenario.town_hall
           (AdminDeleteUser (Some Scenario.root) Scenario.bob)
           Scenario.bob Scenario.bob_account Hu Hgone).
Defined.

(** ** Creating an event *)

(** X14.  In a reachable store, [POST /api/events] from an authenticated
    user with a payload that passes the schema is answered 201 and
    stores the event under an id that no event had: the requester is
    its organizer, by id and by username, its title is the payload's,
    and every other event and every account is as before. *)
Theorem created_event_is_new `{Platform} (now : Z) (s : State) (uid : ObjectId)
    (u : User) (body : Body) :
  reachable s → users s !! uid = Some u → Joi.validate eventSchema body = None →
  let result := handle now s (PostEvent (Some uid) body) in
  http_status result.2 = 201 ∧
  events s !! next_oid s = None ∧
  others_untouched (next_oid s) s result.1 ∧
  ∃ ev, events result.1 !! next_oid s = Some ev ∧
        organizer_id ev = uid ∧ organizer ev = username u ∧
        created_at ev = now ∧ comments ev = [] ∧
        body !! "title" = Some (JStr (title (details ev))).
Proof.
  intros Hs Hu Hv. simpl. unfold create_event, auth. rewrite Hu, Hv. simpl.
  split; [done |]. split.
  { destruct (events s !! next_oid s) as [ev|] eqn:Hev; [| done].
    destruct (reachable_fresh s Hs) as [_ Hfe].
    specialize (Hfe _ (ex_intro _ ev Hev)). lia. }
  split.
  { split; [done |]. intros j Hj. simpl. by rewrite lookup_insert_ne. }
  rewrite lookup_insert_eq. eexists. split; [done |]. simpl.
  repeat split.
  apply validate_None in Hv as [Hkeys _]. unfold eventSchema in Hkeys.
  apply Forall_cons in Hkeys as [Htitle _].
  eapply check_string_key in Htitle; [| reflexivity]. simpl in Htitle.
  destruct Htitle as [[? _] | (t & Ht & _)]; [done |].
  unfold set_string. by rewrite Ht.
Qed.

Lemma created_event_is_new_witness :
  users Scenario.town !! Scenario.bob = Some Scenario.bob_account ∧
  Joi.validate eventSchema (Scenario.party "Fair" "2024-07-04") = None ∧
  events Scenario.town !! next_oid Scenario.town = None.
Proof.
  assert (users Scenario.town !! Scenario.bob = Some Scenario.bob_account) as Hu
    by (vm_compute; reflexivity).
  assert (Joi.validate eventSchema (Scenario.party "Fair" "2024-07-04") = None) as Hv
    by (vm_compute; reflexivity).
  split; [exact Hu |]. split; [exact Hv |].
  exact (proj1 (proj2 (created_event_is_new 5 Scenario.town Scenario.bob
                         Scenario.bob_account (Scenario.party "Fair" "2024-07-04")
                         town_reachable Hu Hv))).
Defined.

(** ** One RSVP after another *)

Lemma entries_but_app uid (l1 l2 : list Rsvp) :
  entries_but uid (l1 ++ l2) = entries_but uid l1 ++ entries_but uid l2.
Proof. unfold entries_but. apply List.filter_app. Qed.

Lemma entries_of_app uid (l1 l2 : list Rsvp) :
  entries_of uid (l1 ++ l2) = entries_of uid l1 ++ entries_of uid l2.
Proof. unfold entries_of. apply List.filter_app. Qed.

Lemma entries_of_absent uid (l : list Rsvp) :
  uid ∉ user_id <$> l → entries_of uid l = [] ∧ entries_but uid l = l.
Proof.
  intros Hnot.
  assert (∀ r, r ∈ l → (user_id r =? uid)%N = false) as Hall.
  { intros r Hr. apply N.eqb_neq. intros Heq. apply Hnot.
    apply list_elem_of_fmap. by exists r. }
  unfold entries_of, entries_but. split.
  - by apply filter_none.
  - apply filter_all. intros r Hr. by rewrite Hall.
Qed.

(** Taking back an RSVP just made by a user who had none restores the
    event. *)
Lemma spec_insert_remove (ev : Event) (uid : ObjectId) (st : string) :
  uid ∉ user_id <$> rsvps ev → spec_remove (spec_insert ev uid st) uid = ev.
Proof.
  intros Hnot. destruct (entries_of_absent uid (rsvps ev) Hnot) as [Hof Hbut].
  unfold spec_insert, spec_remove.
  destruct (String.eqb st "going"); [| destruct (String.eqb st "interested")]; simpl.
  - rewrite entries_of_app, entries_but_app, Hof, Hbut. simpl. rewrite N.eqb_refl. simpl.
    rewrite app_nil_r. unfold count_status. simpl.
    destruct ev; unfold set_rsvps; simpl; f_equal; lia.
  - rewrite entries_of_app, entries_but_app, Hof, Hbut. simpl. rewrite N.eqb_refl. simpl.
    rewrite app_nil_r. unfold count_status. simpl.
    destruct ev; unfold set_rsvps; simpl; f_equal; lia.
  - rewrite Hof, Hbut. unfold count_status. simpl.
    destruct ev; unfold set_rsvps; simpl; f_equal; lia.
Qed.

Lemma spec_rsvp_overrides (ev : Event) (uid : ObjectId) (st1 st2 : string) :
  spec_rsvp (spec_rsvp ev uid st1) uid st2 = spec_rsvp ev uid st2.
Proof.
  unfold spec_rsvp. f_equal. apply spec_insert_remove. simpl. apply entries_but_ids.
Qed.

Lemma apply_rsvp_overrides (ev : Event) (uid : ObjectId) (st1 st2 : string) :
  event_ok ev → st1 ∈ rsvp_statuses → st2 ∈ rsvp_statuses →
  apply_rsvp (apply_rsvp ev uid st1) uid st2 = apply_rsvp ev uid st2.
Proof.
  intros Hok H1 H2.
  pose proof (apply_rsvp_ok ev uid st1 H1 Hok) as [Hnd1 _ _ _].
  destruct Hok as [Hnd _ _ _].
  rewrite (apply_rsvp_spec (apply_rsvp ev uid st1)) by done.
  rewrite !(apply_rsvp_spec ev) by done.
  apply spec_rsvp_overrides.
Qed.

(** X15.  In a reachable store the last RSVP of a user on an event wins:
    two RSVP requests with the same token on the same event, one after
    the other and with any bodies, leave the store as the second one
    alone would, counters included. *)
Theorem rsvp_last_wins `{Platform} (now1 now2 : Z) (s : State) (tok : Token)
    (id : ObjectId) (body1 body2 : Body) :
  reachable s → is_Some (rsvp_status_of (field body2 "rsvp_status")) →
  (handle now2 (handle now1 s (PostRsvp tok id body1)).1 (PostRsvp tok id body2)).1 =
  (handle now2 s (PostRsvp tok id body2)).1.
Proof.
  intros Hs [st2 Hst2]. simpl. unfold rsvp at 2.
  destruct (auth s tok) as [r | [uid u]] eqn:Hauth; simpl; [done |].
  destruct (rsvp_status_of (field body1 "rsvp_status")) as [st1|] eqn:Hst1; simpl; [| done].
  destruct (events s !! id) as [ev|] eqn:Hev; simpl; [| done].
  unfold rsvp. simpl.
  assert (auth (set_events s (<[id:=apply_rsvp ev uid st1]> (events s))) tok =
          inr (uid, u)) as -> by (by rewrite <- Hauth).
  rewrite Hauth, Hst2, Hev. simpl. rewrite lookup_insert_eq. simpl.
  unfold set_events. simpl. f_equal. rewrite insert_insert_eq. f_equal.
  apply rsvp_status_of_in in Hst1 as [_ Hst1].
  apply rsvp_status_of_in in Hst2 as [_ Hst2].
  apply apply_rsvp_overrides; [| done | done].
  by apply (reachable_ok s Hs id ev).
Qed.

Lemma rsvp_last_wins_witness :
  (handle 6 (handle 5 Scenario.town
               (PostRsvp (Some Scenario.bob) Scenario.picnic
                  {[ "rsvp_status" := JStr "going" ]})).1
     (PostRsvp (Some Scenario.bob) Scenario.picnic
        {[ "rsvp_status" := JStr "interested" ]})).1 =
  (handle 6 Scenario.town
     (PostRsvp (Some Scenario.bob) Scenario.picnic
        {[ "rsvp_status" := JStr "interested" ]})).1.
Proof.
  assert (is_Some (rsvp_status_of
            (field ({[ "rsvp_status" := JStr "interested" ]} : Body) "rsvp_status")))
    as Hst by (vm_compute; eexists; reflexivity).
  exact (rsvp_last_wins 5 6 Scenario.town (Some Scenario.bob) Scenario.picnic
           {[ "rsvp_status" := JStr "going" ]} {[ "rsvp_status" := JStr "interested" ]}
           town_reachable Hst).
Defined.

(** X16.  In a reachable store, when a user without an RSVP on an event
    sends one and then takes it back with [not_going] or the empty
    status, the event is exactly as it was before the two requests:
    same entries in the same order, same counters. *)
Theorem rsvp_taken_back `{Platform} (now1 now2 : Z) (s : State) (uid : ObjectId)
    (u : User) (id : ObjectId) (ev : Event) (body1 body2 : Body) :
  reachable s → users s !! uid = Some u → events s !! id = Some ev →
  uid ∉ user_id <$> rsvps ev →
  is_Some (rsvp_status_of (field body1 "rsvp_status")) →
  field body2 "rsvp_status" = JStr "not_going" ∨ field body2 "rsvp_status" = JStr "" →
  events (handle now2 (handle now1 s (PostRsvp (Some uid) id body1)).1
            (PostRsvp (Some uid) id body2)).1 !! id = Some ev.
Proof.
  intros Hs Hu Hev Hnot [st1 Hst1] Hback. simpl. unfold rsvp, auth. simpl.
  rewrite Hu, Hst1, Hev. simpl. rewrite Hu. simpl.
  assert (∃ st2, rsvp_status_of (field body2 "rsvp_status") = Some st2 ∧
                 (st2 = "not_going" ∨ st2 = "")) as (st2 & -> & Hst2).
  { destruct Hback as [-> | ->]; eexists; (split; [reflexivity |]); auto. }
  simpl. rewrite lookup_insert_eq. simpl. rewrite lookup_insert_eq. f_equal.
  apply rsvp_status_of_in in Hst1 as [_ Hst1].
  pose proof (reachable_ok s Hs id ev Hev) as Hok.
  pose proof (apply_rsvp_ok ev uid st1 Hst1 Hok) as [Hnd1 _ _ _].
  destruct Hok as [Hnd _ _ _].
  assert (st2 ∈ rsvp_statuses) as Hin2.
  { unfold rsvp_statuses. destruct Hst2 as [-> | ->]; rewrite !elem_of_cons; auto. }
  rewrite (apply_rsvp_spec (apply_rsvp ev uid st1)) by done.
  rewrite (apply_rsvp_spec ev) by done.
  unfold spec_rsvp at 1.
  assert (spec_remove (spec_rsvp ev uid st1) uid = ev) as ->.
  { unfold spec_rsvp.
    assert (spec_remove ev uid = ev) as ->.
    { destruct (entries_of_absent uid (rsvps ev) Hnot) as [Hof Hbut].
      unfold spec_remove. rewrite Hof, Hbut. unfold count_status. simpl.
      destruct ev; unfold set_rsvps; simpl; f_equal; lia. }
    by apply spec_insert_remove. }
  unfold spec_insert. by destruct Hst2 as [-> | ->].
Qed.

Lemma rsvp_taken_back_witness :
  events (handle 6 (handle 5 Scenario.town
               (PostRsvp (Some Scenario.bob) Scenario.picnic
                  {[ "rsvp_status" := JStr "going" ]})).1
     (PostRsvp (Some Scenario.bob) Scenario.picnic
        {[ "rsvp_status" := JStr "not_going" ]})).1 !! Scenario.picnic =
  Some Scenario.picnic_event.
Proof.
  assert (users Scenario.town !! Scenario.bob = Some Scenario.bob_account) as Hu
    by (vm_compute; reflexivity).
  assert (events Scenario.town !! Scenario.picnic = Some Scenario.picnic_event) as Hev
    by (vm_compute; reflexivity).
  assert (Scenario.bob ∉ user_id <$> rsvps Scenario.picnic_event) as Hnot
    by (simpl; apply not_elem_of_nil).
  assert (is_Some (rsvp_status_of
            (field ({[ "rsvp_status" := JStr "going" ]} : Body) "rsvp_status")))
    as Hst by (vm_compute; eexists; reflexivity).
  assert (field ({[ "rsvp_status" := JStr "not_going" ]} : Body) "rsvp_status" =
            JStr "not_going" ∨
          field ({[ "rsvp_status" := JStr "not_going" ]} : Body) "rsvp_status" = JStr "")
    as Hback by (left; vm_compute; reflexivity).
  exact (rsvp_taken_back 5 6 Scenario.town Scenario.bob Scenario.bob_account
           Scenario.picnic Scenario.picnic_event
           {[ "rsvp_status" := JStr "going" ]} {[ "rsvp_status" := JStr "not_going" ]}
           town_reachable Hu Hev Hnot Hst Hback).
Defined.

(** ** Comments *)

Lemma trimStart_suffix (l : list ascii) : ∃ c, l = c ++ Text.trimStart l.
Proof.
  induction l as [|x l [c IH]]; simpl; [by exists [] |].
  destruct (Text.is_space x).
  - exists (x :: c). simpl. by f_equal.
  - by exists [].
Qed.

Lemma trimStart_head (l : list ascii) (x : ascii) (m : list ascii) :
  Text.trimStart l = x :: m → Text.is_space x = false.
Proof.
  induction l as [|y l IH]; simpl; [done |].
  destruct (Text.is_space y) eqn:Hy; [done |]. by intros [= <- _].
Qed.

Lemma trimStart_fixed (l : list ascii) :
  (∀ x m, l = x :: m → Text.is_space x = false) → Text.trimStart l = l.
Proof.
  destruct l as [|x l]; simpl; [done |]. intros Hl. by rewrite (Hl x l eq_refl).
Qed.

Lemma trimStart_length (l : list ascii) :
  (length (Text.trimStart l) ≤ length l)%nat.
Proof.
  destruct (trimStart_suffix l) as [c Hc]. rewrite Hc at 2. rewrite length_app. lia.
Qed.

Lemma length_of_list (l : list ascii) :
  String.length (string_of_list_ascii l) = length l.
Proof. induction l as [|x l IH]; simpl; [done | by rewrite IH]. Qed.

Lemma length_to_list (s : string) :
  length (list_ascii_of_string s) = String.length s.
Proof. induction s as [|x s IH]; simpl; [done | by rewrite IH]. Qed.

Lemma trim_length (s : string) :
  (String.length (Text.trim s) ≤ String.length s)%nat.
Proof.
  unfold Text.trim. rewrite length_of_list, length_rev, <- length_to_list.
  etrans; [apply trimStart_length |]. rewrite length_rev. apply trimStart_length.
Qed.

(** [trim] leaves nothing to trim. *)
Lemma trim_trim (s : string) : Text.trim (Text.trim s) = Text.trim s.
Proof.
  unfold Text.trim. rewrite list_ascii_of_string_of_list_ascii.
  set (a := Text.trimStart (list_ascii_of_string s)).
  set (b := Text.trimStart (rev a)).
  assert (Text.trimStart (rev b) = rev b) as ->.
  { apply trimStart_fixed. intros x m Hx.
    destruct (trimStart_suffix (rev a)) as [c Hc]. fold b in Hc.
    assert (a = rev b ++ rev c) as Ha.
    { rewrite <- (rev_involutive a), Hc, rev_app_distr. done. }
    rewrite Hx in Ha. simpl in Ha.
    by apply (trimStart_head (list_ascii_of_string s) x (m ++ rev c)). }
  rewrite rev_involutive.
  assert (Text.trimStart b = b) as ->; [| done].
  apply trimStart_fixed. intros x m Hx. by apply (trimStart_head (rev a) x m).
Qed.

Lemma comment_text_ok (t : string) :
  (String.length (Text.trim t) =? 0)%nat = false →
  (500 <? String.length t)%nat = false →
  (1 ≤ String.length (Text.trim t) ≤ 500)%nat ∧ Text.trim (Text.trim t) = Text.trim t.
Proof.
  intros Hne Hmax. apply Nat.eqb_neq in Hne. apply Nat.ltb_ge in Hmax.
  pose proof (trim_length t). split; [lia | apply trim_trim].
Qed.

Lemma handle_comments_ok `{Platform} (now : Z) (s : State) (r : Request) :
  ids_fresh s → comments_ok s → comments_ok (handle now s r).1.
Proof.
  intros Hf Hok. pose proof Hf as [Hfu _].
  destruct r; simpl; unfold_handlers; simpl;
    repeat (case_match; simpl; try exact Hok); try exact Hok.
  all: intros j ev c Hev Hc; simpl in *; simplify_eq.
  all: repeat match goal with
       | H : findOne _ _ = Some _ |- _ => apply findOne_Some in H as [H _]
       end.
  all: try (apply lookup_insert_Some in Hev as [[<- <-] | [Hne Hev]]).
  all: try (apply lookup_delete_Some in Hev as [Hne Hev]).
  all: try (apply map_lookup_filter_Some in Hev as [Hev Hkeep]; simpl in Hkeep).
  all: try (by eauto).
  all: try (simpl in Hc; by apply not_elem_of_nil in Hc).
  all: try (match goal with
            | Hc : _ ∈ comments (apply_rsvp ?e ?n ?st) |- _ =>
                destruct (apply_rsvp_frame e n st) as (_ & _ & _ & _ & Hcs & _);
                rewrite Hcs in Hc
            | Hc : _ ∈ comments (apply_favorite ?e ?n ?v) |- _ =>
                rewrite (apply_favorite_rest e n v) in Hc; simpl in Hc
            end; by eauto).
  all: try (simpl in Hc; apply elem_of_app in Hc as [Hc | Hc]).
  all: try (apply list_elem_of_singleton in Hc as ->; simpl;
            split; [by apply comment_text_ok |];
            match goal with Hu : users _ !! ?n = Some _ |- _ =>
              split; [specialize (Hfu n (ex_intro _ _ Hu)); lia | intros; by simplify_eq]
            end).
  all: match goal with
       | He : events _ !! _ = Some ?e, Hc : _ ∈ comments ?e |- _ =>
           destruct (Hok _ _ _ He Hc) as (Hcok & Hlt & Hname)
       end.
  all: split; [done |]; split; [lia |]; intros w Hw.
  all: try (by apply Hname).
  - (* register *)
    apply lookup_insert_Some in Hw as [[Heq _] | [_ Hw]]; [lia | by apply Hname].
  - (* login *)
    apply lookup_insert_Some in Hw as [[Heq <-] | [_ Hw]]; [| by apply Hname].
    simpl. apply Hname. by rewrite <- Heq.
  - (* an administrator deletes an account *)
    apply lookup_delete_Some in Hw as [_ Hw]. by apply Hname.
Qed.

Lemma createAdmin_comments_ok `{Platform} now (s : State) (u e p z a : string) :
  ids_fresh s → comments_ok s → comments_ok (createAdmin now s u e p z a).
Proof.
  intros [Hfu _] Hok. unfold createAdmin.
  repeat (case_match; simpl; try exact Hok).
  all: intros j ev c Hev Hc; simpl in *.
  all: destruct (Hok _ _ _ Hev Hc) as (Hcok & Hlt & Hname).
  all: split; [done |]; split; [lia |]; intros w Hw.
  - match goal with Hfind : findOne _ _ = Some _ |- _ =>
      apply findOne_Some in Hfind as [Hfind _] end.
    apply lookup_insert_Some in Hw as [[Heq <-] | [_ Hw]]; [| by apply Hname].
    simpl. apply Hname. by rewrite <- Heq.
  - apply lookup_insert_Some in Hw as [[Heq _] | [_ Hw]]; [lia | by apply Hname].
Qed.

(** X17.  In every reachable store the text of each comment has between
    1 and 500 characters and no white space at either end, and while
    the account of its author exists the name the comment carries is
    that account's username. *)
Theorem stored_comments_wellformed `{Platform} (s : State) (id : ObjectId)
    (ev : Event) (c : Comment) :
  reachable s → events s !! id = Some ev → c ∈ comments ev →
  (1 ≤ String.length (text c) ≤ 500)%nat ∧ Text.trim (text c) = text c ∧
  ∀ u, users s !! comment_user_id c = Some u → username u = comment_username c.
Proof.
  intros Hs Hev Hc.
  assert (comments_ok s) as Hok.
  { clear Hev Hc. induction Hs as [| now s r Hs IH | now s u e p z a Hs IH].
    - intros j ev0 c0 Hev0. simpl in Hev0. by rewrite lookup_empty in Hev0.
    - apply handle_comments_ok; [by apply reachable_fresh | done].
    - apply createAdmin_comments_ok; [by apply reachable_fresh | done]. }
  destruct (Hok id ev c Hev Hc) as ([Hlen Htrim] & _ & Hname). done.
Qed.

Lemma stored_comments_wellformed_witness :
  Text.trim "Hello" = "Hello".
Proof.
  pose (c := {| comment_id := 4%N; comment_user_id := Scenario.bob;
                comment_username := "bob"; text := "Hello";
                comment_created_at := 5 |}).
  assert (events (handle 5 Scenario.town
                    (PostComment (Some Scenario.bob) Scenario.picnic
                       (Scenario.says "  Hello "))).1 !! Scenario.picnic =
          Some (set_comments Scenario.picnic_event [c])) as Hev
    by (vm_compute; reflexivity).
  assert (c ∈ comments (set_comments Scenario.picnic_event [c])) as Hc
    by (simpl; apply list_elem_of_here).
  exact (proj1 (proj2 (stored_comments_wellformed
           (handle 5 Scenario.town
              (PostComment (Some Scenario.bob) Scenario.picnic
                 (Scenario.says "  Hello "))).1
           Scenario.picnic (set_comments Scenario.picnic_event [c]) c
           (reach_request 5 Scenario.town
              (PostComment (Some Scenario.bob) Scenario.picnic
                 (Scenario.says "  Hello ")) town_reachable) Hev Hc))).
Defined.

Lemma length_zero (t : string) : (String.length t =? 0)%nat = true ↔ t = "".
Proof. destruct t; simpl; split; done. Qed.

(** X18.  What [POST /api/events/:id/comments] answers an authenticated
    user is decided by the text of the comment before the event is
    looked up: 400 when the text is missing, falsy, blank or longer than
    500 characters, whatever the path; 500 when it is a truthy value
    that is not a string.  For any other text the path decides: 500 when
    [:id] does not spell an id, the query throwing; 404 when it spells
    the id of no event; 201 when it spells the id of an event, and then
    the route does what the handler of [PostComment] does with that
    id. *)
Theorem comment_outcome `{Platform} (castObjectId : string → option ObjectId)
    (now : Z) (s : State) (uid : ObjectId) (u : User) (id : string) (body : Body) :
  users s !! uid = Some u →
  let code := http_status (comment_route castObjectId now s (Some uid) id body).2 in
  let txt := field body "text" in
  (truthy txt = false → code = 400) ∧
  (∀ t, txt = JStr t → Text.trim t = "" ∨ (500 < String.length t)%nat → code = 400) ∧
  (truthy txt = true → (∀ t, txt ≠ JStr t) → code = 500) ∧
  (∀ t, txt = JStr t → Text.trim t ≠ "" → (String.length t ≤ 500)%nat →
     code = match castObjectId id with
            | None => 500
            | Some eventId =>
                match events s !! eventId with Some _ => 201 | None => 404 end
            end) ∧
  (∀ eventId, castObjectId id = Some eventId →
     comment_route castObjectId now s (Some uid) id body =
     handle now s (PostComment (Some uid) eventId body)).
Proof.
  intros Hu. simpl. unfold comment_route, add_comment, auth. rewrite Hu. simpl.
  split; [| split; [| split; [| split]]].
  - by intros ->.
  - intros t -> Hbad. simpl.
    destruct (String.eqb t ""); simpl; [done |].
    destruct (String.length (Text.trim t) =? 0)%nat eqn:Htrim; simpl; [done |].
    destruct Hbad as [Hblank | Hlong].
    + apply length_zero in Hblank. congruence.
    + apply Nat.ltb_lt in Hlong. by rewrite Hlong.
  - intros -> Hnot. simpl.
    destruct (field body "text") as [| | ? | ? | t | ? | ?]; try done.
    by specialize (Hnot t).
  - intros t -> Hne Hlen. simpl.
    destruct (String.eqb_spec t "") as [-> | _]; [done |]. simpl.
    destruct (String.length (Text.trim t) =? 0)%nat eqn:Htrim.
    { apply length_zero in Htrim. done. }
    apply Nat.ltb_ge in Hlen. rewrite Hlen.
    destruct (castObjectId id) as [eventId|]; [| done].
    by destruct (events s !! eventId).
  - intros eventId ->. done.
Qed.

(** X18 witness: a comment of no-break spaces is blank, on a path that
    spells no id. *)
Lemma comment_outcome_witness :
  http_status (comment_route (λ _, None) 5 Scenario.town (Some Scenario.bob)
     "picnic" (Scenario.says (String (ascii_of_N 160) " "))).2 = 400.
Proof.
  assert (users Scenario.town !! Scenario.bob = Some Scenario.bob_account) as Hu
    by (vm_compute; reflexivity).
  assert (field (Scenario.says (String (ascii_of_N 160) " ")) "text" =
          JStr (String (ascii_of_N 160) " ")) as Htxt
    by (vm_compute; reflexivity).
  assert (Text.trim (String (ascii_of_N 160) " ") = "" ∨
          (500 < String.length (String (ascii_of_N 160) " "))%nat) as Hbad
    by (left; vm_compute; reflexivity).
  exact (proj1 (proj2 (comment_outcome (λ _, None) 5 Scenario.town Scenario.bob
                         Scenario.bob_account "picnic"
                         (Scenario.says (String (ascii_of_N 160) " ")) Hu))
           (String (ascii_of_N 160) " ") Htxt Hbad).
Defined.

(** ** The listing of comments *)

Lemma sort_insert_sorted (x : Comment) (l : list Comment) :
  StronglySorted (λ a b, comment_created_at b ≤ comment_created_at a) l →
  StronglySorted (λ a b, comment_created_at b ≤ comment_created_at a)
    (sort_insert newest_first x l).
Proof.
  induction 1 as [|y l Hl IH Hy]; simpl.
  - repeat constructor.
  - unfold newest_first at 1. destruct (Z.ltb_spec 0 (comment_created_at y - comment_created_at x)).
    + constructor; [done |].
      rewrite (sort_insert_Permutation newest_first x l).
      constructor; [lia | done].
    + constructor; [by constructor |].
      constructor; [lia |].
      eapply Forall_impl; [exact Hy |]. simpl. intros z Hz. lia.
Qed.

(** The sort is stable: comments of the same instant keep their order. *)
Lemma sort_insert_stable (t : Z) (x : Comment) (l : list Comment) :
  StronglySorted (λ a b, comment_created_at b ≤ comment_created_at a) l →
  List.filter (posted_at t) (sort_insert newest_first x l) =
  List.filter (posted_at t) (x :: l).
Proof.
  induction 1 as [|y l Hl IH Hy]; simpl; [done |].
  unfold newest_first at 1.
  destruct (Z.ltb_spec 0 (comment_created_at y - comment_created_at x)); [| done].
  simpl. rewrite IH. simpl. unfold posted_at.
  destruct (Z.eqb_spec (comment_created_at x) t), (Z.eqb_spec (comment_created_at y) t);
    try done; lia.
Qed.

Lemma Array_sort_sorted (l : list Comment) :
  StronglySorted (λ a b, comment_created_at b ≤ comment_created_at a)
    (Array_sort newest_first l).
Proof.
  induction l as [|x l IH]; simpl; [constructor | by apply sort_insert_sorted].
Qed.

Lemma Array_sort_stable (t : Z) (l : list Comment) :
  List.filter (posted_at t) (Array_sort newest_first l) = List.filter (posted_at t) l.
Proof.
  induction l as [|x l IH]; simpl; [done |].
  rewrite sort_insert_stable by apply Array_sort_sorted. simpl. by rewrite IH.
Qed.

(** X19.  [GET /api/events/:id/comments] on a stored event is answered
    200 with the event's comments, each exactly once, ordered from the
    newest to the oldest, comments of the same instant in the order they
    were stored; the store is left as it was. *)
Theorem comments_listed_newest_first `{Platform} (now : Z) (s : State) (tok : Token)
    (id : ObjectId) (ev : Event) :
  events s !! id = Some ev →
  ∃ l, handle now s (GetComments tok id) = (s, respond 200 (Comments l)) ∧
       l ≡ₚ comments ev ∧
       StronglySorted (λ a b, comment_created_at b ≤ comment_created_at a) l ∧
       ∀ t, List.filter (posted_at t) l = List.filter (posted_at t) (comments ev).
Proof.
  intros Hev. simpl. unfold get_comments. rewrite Hev.
  eexists. split; [done |]. split; [apply Array_sort_Permutation |].
  split; [apply Array_sort_sorted |]. intros t. apply Array_sort_stable.
Qed.

Lemma comments_listed_newest_first_witness :
  ∃ l, handle 5 Scenario.town (GetComments None Scenario.picnic) =
         (Scenario.town, respond 200 (Comments l)) ∧
       l ≡ₚ comments Scenario.picnic_event.
Proof.
  assert (events Scenario.town !! Scenario.picnic = Some Scenario.picnic_event) as Hev
    by (vm_compute; reflexivity).
  destruct (comments_listed_newest_first 5 Scenario.town None Scenario.picnic
              Scenario.picnic_event Hev) as (l & Hl & Hp & _).
  exists l. split; [exact Hl | exact Hp].
Defined.

(** ** Deleting an account *)

(** X20.  When an administrator deletes another, existing account, the
    answer is 200, the account is gone, and the events left are exactly
    the events some other account organizes, each one unchanged: the
    RSVP entries, favorites and comments the deleted user left on them
    stay, and so do the counters. *)
Theorem account_deletion_cascade `{Platform} (now : Z) (s : State) (a : ObjectId)
    (adm : User) (i : ObjectId) (u : User) :
  users s !! a = Some adm → isAdmin adm = true → a ≠ i → users s !! i = Some u →
  let result := handle now s (AdminDeleteUser (Some a) i) in
  http_status result.2 = 200 ∧
  users result.1 = delete i (users s) ∧
  (∀ j ev, events result.1 !! j = Some ev ↔
           events s !! j = Some ev ∧ organizer_id ev ≠ i) ∧
  next_oid result.1 = next_oid s.
Proof.
  intros Ha Hadm Hne Hu. simpl. unfold admin_delete_user, adminAuth, auth.
  rewrite Ha, Hadm. simpl.
  assert ((i =? a)%N = false) as -> by (apply N.eqb_neq; congruence).
  rewrite Hu. simpl. split; [done |]. split; [done |]. split; [| done].
  intros j ev. unfold deleteMany. rewrite map_lookup_filter_Some. simpl.
  by rewrite N.eqb_neq.
Qed.

Lemma account_deletion_cascade_witness :
  events (handle 5 Scenario.town_hall
            (AdminDeleteUser (Some Scenario.root) Scenario.alice)).1 !! Scenario.picnic =
    None.
Proof.
  assert (users Scenario.town_hall !! Scenario.root = Some Scenario.root_account) as Ha
    by (vm_compute; reflexivity).
  assert (users Scenario.town_hall !! Scenario.alice = Some Scenario.alice_account) as Hu
    by (vm_compute; reflexivity).
  assert (Scenario.root ≠ Scenario.alice) as Hne by discriminate.
  destruct (events (handle 5 Scenario.town_hall
              (AdminDeleteUser (Some Scenario.root) Scenario.alice)).1 !! Scenario.picnic)
    as [ev|] eqn:Hev; [| reflexivity].
  exfalso.
  destruct (proj1 (proj1 (proj2 (proj2 (account_deletion_cascade 5 Scenario.town_hall
              Scenario.root Scenario.root_account Scenario.alice Scenario.alice_account
              Ha eq_refl Hne Hu))) Scenario.picnic ev) Hev) as [Hold Horg].
  assert (events Scenario.town_hall !! Scenario.picnic = Some Scenario.picnic_event) as Hpic
    by (vm_compute; reflexivity).
  rewrite Hpic in Hold. injection Hold as <-. apply Horg. reflexivity.
Defined.

(** ** The bootstrap script *)

(** X21.  A run of the bootstrap script on a reachable store leaves the
    events alone and keeps every account, with its profile and last
    login, never taking the administrator flag away.  When the email or
    the username typed belongs to an account, the password and the
    zipcode typed are not used.  After a run answered [yes] or [y] in
    any letter case, some account with the email or the username typed
    is an administrator. *)
Theorem bootstrap_effect `{Platform} (now : Z) (s : State)
    (u e p z a : string) :
  reachable s →
  let s' := createAdmin now s u e p z a in
  events s' = events s ∧
  (∀ i acct, users s !! i = Some acct →
     ∃ acct', users s' !! i = Some acct' ∧ same_profile acct acct' ∧
              lastLogin acct' = lastLogin acct ∧
              (isAdmin acct = true → isAdmin acct' = true)) ∧
  ((∃ i acct, users s !! i = Some acct ∧ (email acct = e ∨ username acct = u)) →
     ∀ now' p' z', createAdmin now' s u e p' z' a = s') ∧
  (Text.toLowerCase a = "yes" ∨ Text.toLowerCase a = "y" →
     ∃ i acct, users s' !! i = Some acct ∧ isAdmin acct = true ∧
               (email acct = e ∨ username acct = u)).
Proof.
  intros Hs. pose proof (reachable_fresh s Hs) as [Hfu _]. simpl.
  split; [apply createAdmin_events |]. unfold createAdmin.
  destruct (findOne _ (users s)) as [[k w]|] eqn:Hfind.
  - apply findOne_Some in Hfind as [Hk Hmatch].
    apply orb_true_iff in Hmatch. rewrite !String.eqb_eq in Hmatch.
    destruct (isAdmin w) eqn:Hadm.
    { split; [| split; [done |]].
      - intros i acct Hi. exists acct. by repeat split.
      - intros _. by exists k, w. }
    destruct (_ || _) eqn:Hyes.
    + split; [| split; [done |]].
      * intros i acct Hi. simpl.
        destruct (decide (k = i)) as [-> | Hne].
        -- rewrite lookup_insert_eq. simplify_eq. eexists. by repeat split.
        -- rewrite lookup_insert_ne by done. exists acct. by repeat split.
      * intros _. exists k, (set_isAdmin w). simpl. by rewrite lookup_insert_eq.
    + split; [| split; [done |]].
      * intros i acct Hi. exists acct. by repeat split.
      * intros Hans. apply orb_false_iff in Hyes as [Hy1 Hy2].
        apply String.eqb_neq in Hy1, Hy2. by destruct Hans.
  - split; [| split].
    + intros i acct Hi. simpl. exists acct. split; [| by repeat split].
      rewrite lookup_insert_ne; [done |].
      specialize (Hfu i (ex_intro _ acct Hi)). lia.
    + intros (i & acct & Hi & Hmatch). exfalso.
      rewrite findOne_None in Hfind. specialize (Hfind i acct Hi).
      apply orb_false_iff in Hfind as [He Hu]. apply String.eqb_neq in He, Hu.
      by destruct Hmatch.
    + intros _. eexists _, _. simpl. rewrite lookup_insert_eq. split; [done |].
      simpl. by auto.
Qed.

Lemma bootstrap_effect_witness :
  events (createAdmin 9 Scenario.town "alice" "someone@example.com" "pw" "00000" "YES") =
    events Scenario.town.
Proof.
  exact (proj1 (bootstrap_effect 9 Scenario.town "alice" "someone@example.com" "pw"
                  "00000" "YES" town_reachable)).
Defined.

(** ** Registration followed by login *)

Lemma unknown_key_known (sch : Joi.Schema) (b : Body) :
  (∀ k, is_Some (b !! k) → Joi.known sch k = true) → Joi.unknown_key sch b = None.
Proof.
  intros Hall. unfold Joi.unknown_key. rewrite filter_none; [done |].
  intros [k v] Hkv. apply elem_of_map_to_list in Hkv. simpl.
  by rewrite (Hall k (ex_intro _ v Hkv)).
Qed.

Lemma credentials_lookup (e p : string) :
  credentials e p !! "email" = Some (JStr e) ∧
  credentials e p !! "password" = Some (JStr p) ∧
  ∀ k, is_Some (credentials e p !! k) → k = "email" ∨ k = "password".
Proof.
  unfold credentials. split; [| split].
  - by rewrite lookup_insert_eq.
  - rewrite lookup_insert_ne by done. by rewrite lookup_singleton_eq.
  - intros k [v Hk]. apply lookup_insert_Some in Hk as [[<- _] | [_ Hk]]; [by left |].
    apply lookup_singleton_Some in Hk as [<- _]. by right.
Qed.

Lemma credentials_valid `{Platform} (e p : string) :
  e ≠ "" → joi_email e = true → p ≠ "" →
  Joi.validate loginSchema (credentials e p) = None.
Proof.
  intros He Hmail Hp. destruct (credentials_lookup e p) as (Hle & Hlp & Hdom).
  apply validate_None. split.
  - unfold loginSchema. repeat constructor; unfold Joi.check_key; simpl.
    + rewrite Hle. simpl. apply String.eqb_neq in He. by rewrite He, Hmail.
    + rewrite Hlp. simpl. apply String.eqb_neq in Hp. by rewrite Hp.
  - apply unknown_key_known. intros k Hk. by destruct (Hdom k Hk) as [-> | ->].
Qed.

(** What a registration answered 201 went through. *)
Lemma register_created `{Platform} (now : Z) (s : State) (body : Body) :
  http_status (register now s body).2 = 201 →
  ∃ u0 e0 p0 z0 user,
    Joi.validate registerSchema body = None ∧
    field body "username" = JStr u0 ∧ field body "email" = JStr e0 ∧
    field body "password" = JStr p0 ∧ field body "zipcode" = JStr z0 ∧
    user = {| username := Text.trim u0; email := Text.trim (Text.toLowerCase e0);
              password := bcrypt_hash p0; zipcode := Text.trim z0;
              isAdmin := false; lastLogin := None; createdAt := now |} ∧
    (∀ i w, users s !! i = Some w → email w ≠ email user) ∧
    register now s body =
      (take_oid (set_users s (<[next_oid s := user]> (users s))),
       respond 201 (session (next_oid s) user)).
Proof.
  unfold register.
  destruct (Joi.validate registerSchema body) eqn:Hv; simpl; [done |].
  destruct (field body "username") as [| | ? | ? | u0 | ? | ?]; simpl; try done.
  destruct (field body "email") as [| | ? | ? | e0 | ? | ?]; simpl; try done.
  destruct (field body "password") as [| | ? | ? | p0 | ? | ?]; simpl; try done.
  destruct (field body "zipcode") as [| | ? | ? | z0 | ? | ?]; simpl; try done.
  destruct (regex _) as [re|]; simpl; [| done].
  destruct (findOne _ (users s)) as [[k w]|] eqn:Hfind; simpl.
  { by destruct (String.eqb (email w) _). }
  destruct (duplicate_key _ _); simpl; [done |].
  intros _. eexists u0, e0, p0, z0, _. repeat split; try done.
  intros i w Hi. simpl. rewrite findOne_None in Hfind. specialize (Hfind i w Hi).
  apply orb_false_iff in Hfind as [Hmail _]. by apply String.eqb_neq in Hmail.
Qed.

(** X22.  After a registration answered 201, a login with the email and
    the password of the registration payload is answered 200 for the
    same account: the two answers carry the same id, username, email and
    administrator flag, each with a token of its own, as long as bcrypt
    accepts a password against its own hash; the login stores its time
    as the account's last login and changes no event. *)
Theorem register_then_login `{Platform} (now now' : Z) (s : State) (body : Body)
    (e p : string) :
  http_status (handle now s (PostRegister body)).2 = 201 →
  field body "email" = JStr e → field body "password" = JStr p →
  bcrypt_compare p (bcrypt_hash p) = true →
  let registered := handle now s (PostRegister body) in
  let logged := handle now' registered.1 (PostLogin (credentials e p)) in
  http_status logged.2 = 200 ∧
  (∃ name mail admin t t',
     payload registered.2 = Session (next_oid s) name mail admin t ∧
     payload logged.2 = Session (next_oid s) name mail admin t') ∧
  events logged.1 = events s ∧
  ∃ u, users logged.1 !! next_oid s = Some u ∧ lastLogin u = Some now'.
Proof.
  intros Hst He Hp Hcmp. simpl in *.
  apply register_created in Hst
    as (u0 & e0 & p0 & z0 & user & Hv & Hu0 & He0 & Hp0 & Hz0 & Huser & Hnew & ->).
  rewrite He in He0. rewrite Hp in Hp0. simplify_eq. simpl.
  apply validate_None in Hv as [Hkeys _]. unfold registerSchema in Hkeys.
  apply Forall_cons in Hkeys as [_ Hkeys].
  apply Forall_cons in Hkeys as [Hemail Hkeys].
  apply Forall_cons in Hkeys as [Hpassword _].
  eapply check_string_key in Hemail; [| reflexivity].
  eapply check_string_key in Hpassword; [| reflexivity].
  simpl in Hemail, Hpassword.
  destruct Hemail as [[? _] | (e1 & Hb1 & He1)]; [done |].
  destruct Hpassword as [[? _] | (p1 & Hb2 & Hp1)]; [done |].
  unfold field in He, Hp. rewrite Hb1 in He. rewrite Hb2 in Hp. simpl in He, Hp.
  simplify_eq.
  destruct He1 as [[_ ?] | (Hne & _ & _ & Hfmt)]; [done |].
  destruct Hp1 as [[_ ?] | (Hpe & _)]; [done |].
  simpl in Hfmt. destruct (joi_email e0) eqn:Hmail; [| done].
  unfold login. rewrite (credentials_valid e0 p0) by done.
  destruct (credentials_lookup e0 p0) as (Hle & Hlp & _).
  unfold field. rewrite Hle, Hlp. simpl.
  set (user := {| username := Text.trim u0; email := Text.trim (Text.toLowerCase e0);
                  password := bcrypt_hash p0; zipcode := Text.trim z0;
                  isAdmin := false; lastLogin := None; createdAt := now |}) in *.
  destruct (findOne _ (<[next_oid s := user]> (users s))) as [[k w]|] eqn:Hfind.
  2: { exfalso. rewrite findOne_None in Hfind.
       specialize (Hfind (next_oid s) user (lookup_insert_eq _ _ _)).
       simpl in Hfind. by rewrite String.eqb_refl in Hfind. }
  apply findOne_Some in Hfind as [Hk Hmatch]. apply String.eqb_eq in Hmatch.
  apply lookup_insert_Some in Hk as [[<- <-] | [_ Hk]].
  2: { exfalso. by apply (Hnew k w Hk). }
  simpl. rewrite Hcmp. simpl.
  split; [done |]. split; [by eexists _, _, _, _, _ |]. split; [done |].
  eexists. rewrite lookup_insert_eq. by split.
Qed.

Lemma register_then_login_witness :
  http_status
    (handle 6 (handle 5 Scenario.town
                 (PostRegister (Scenario.account "carol" "Carol@Example.com"))).1
       (PostLogin (credentials "Carol@Example.com" "secret1"))).2 = 200.
Proof.
  assert (http_status (handle 5 Scenario.town
            (PostRegister (Scenario.account "carol" "Carol@Example.com"))).2 = 201) as Hst
    by (vm_compute; reflexivity).
  assert (field (Scenario.account "carol" "Carol@Example.com") "email" =
          JStr "Carol@Example.com") as He by (vm_compute; reflexivity).
  assert (field (Scenario.account "carol" "Carol@Example.com") "password" =
          JStr "secret1") as Hp by (vm_compute; reflexivity).
  assert (bcrypt_compare "secret1" (bcrypt_hash "secret1") = true) as Hcmp
    by (vm_compute; reflexivity).
  exact (proj1 (register_then_login 5 6 Scenario.town
                  (Scenario.account "carol" "Carol@Example.com")
                  "Carol@Example.com" "secret1" Hst He Hp Hcmp)).
Defined.

(** ** Keys outside a schema *)

Lemma validate_unknown `{Platform} (sch : Joi.Schema) (b : Body) (k : string) :
  is_Some (b !! k) → k ∉ Joi.name <$> sch → is_Some (Joi.validate sch b).
Proof.
  intros Hk Hnot. destruct (Joi.validate sch b) as [e|] eqn:Hv; [by exists e |].
  exfalso. apply Hnot. apply validate_None in Hv as [_ Hu].
  apply known_names. by apply (unknown_key_None sch b k).
Qed.

(** X23.  A payload with a key that the route's schema does not list is
    answered 400 and nothing is stored: by registration and login for
    anyone, by event creation and update for an authenticated user, the
    update before the event is looked up.  In particular a registration
    payload cannot carry [isAdmin]. *)
Theorem unknown_key_rejected `{Platform} (now : Z) (s : State) (uid : ObjectId) (u : User)
    (id : ObjectId) (body : Body) (k : string) :
  is_Some (body !! k) → users s !! uid = Some u →
  (k ∉ Joi.name <$> registerSchema →
     (handle now s (PostRegister body)).1 = s ∧
     http_status (handle now s (PostRegister body)).2 = 400) ∧
  (k ∉ Joi.name <$> loginSchema →
     (handle now s (PostLogin body)).1 = s ∧
     http_status (handle now s (PostLogin body)).2 = 400) ∧
  (k ∉ Joi.name <$> eventSchema →
     (handle now s (PostEvent (Some uid) body)).1 = s ∧
     http_status (handle now s (PostEvent (Some uid) body)).2 = 400 ∧
     (handle now s (PutEvent (Some uid) id body)).1 = s ∧
     http_status (handle now s (PutEvent (Some uid) id body)).2 = 400).
Proof.
  intros Hk Hu. simpl. split; [| split]; intros Hnot.
  - unfold register. by destruct (validate_unknown registerSchema body k Hk Hnot) as [e ->].
  - unfold login. by destruct (validate_unknown loginSchema body k Hk Hnot) as [e ->].
  - unfold create_event, update_event, auth. rewrite Hu.
    by destruct (validate_unknown eventSchema body k Hk Hnot) as [e ->].
Qed.

Lemma unknown_key_rejected_witness :
  http_status (handle 5 Scenario.town
     (PostRegister (<["isAdmin" := JBool true]>
                      (Scenario.account "carol" "carol@example.com")))).2 = 400.
Proof.
  assert ("isAdmin" ∉ Joi.name <$> registerSchema) as Hnot.
  { simpl. rewrite !not_elem_of_cons. repeat split; try discriminate.
    apply not_elem_of_nil. }
  assert (is_Some ((<["isAdmin" := JBool true]>
                      (Scenario.account "carol" "carol@example.com") : Body) !! "isAdmin"))
    as Hk by (vm_compute; eexists; reflexivity).
  assert (users Scenario.town !! Scenario.alice = Some Scenario.alice_account) as Hu
    by (vm_compute; reflexivity).
  exact (proj2 (proj1 (unknown_key_rejected 5 Scenario.town Scenario.alice
                  Scenario.alice_account Scenario.picnic
                  (<["isAdmin" := JBool true]> (Scenario.account "carol" "carol@example.com"))
                  "isAdmin" Hk Hu) Hnot)).
Defined.

(** ** Clearing the collection *)

Lemma deleteMany_all {A} (m : gmap ObjectId A) : deleteMany (λ _, true) m = ∅.
Proof.
  unfold deleteMany. apply map_eq. intros i.
  rewrite lookup_empty. apply map_lookup_filter_None. right. done.
Qed.

(** X24.  [DELETE /api/events/admin/clear-all] looks at no credential:
    for any token, or none, it is answered 200, reports as
    [deletedCount] the number of events that were stored, and leaves no
    event, every account and the id counter being as before. *)
Theorem clear_all_effect `{Platform} (now : Z) (s : State) (tok : Token) :
  handle now s (DeleteClearAll tok) =
    (set_events s ∅, respond 200 (Cleared "All events cleared" (size (events s)))).
Proof.
  simpl. unfold clear_all. rewrite deleteMany_all, map_size_empty.
  by rewrite Nat.sub_0_r.
Qed.

(** * The admin console *)

(** ** Notifications *)

Lemma one_of_elem (allowed : list string) (s : string) :
  Notification.one_of allowed s = true ↔ s ∈ allowed.
Proof.
  unfold Notification.one_of. rewrite existsb_exists. split.
  - intros (x & Hin & Heq). apply String.eqb_eq in Heq as ->. by apply list_elem_of_In.
  - intros Hin. exists s. split; [by apply list_elem_of_In | apply String.eqb_refl].
Qed.

Lemma string_nonempty (s : string) : s ≠ "" ↔ (1 ≤ String.length s)%nat.
Proof. destruct s; simpl; split; try done; lia. Qed.

Lemma validate_true (n : Notification.doc) :
  Notification.validate n = true ↔
  (1 ≤ String.length (Notification.title n) ≤ 100)%nat ∧
  (1 ≤ String.length (Notification.message n) ≤ 500)%nat ∧
  Notification.type n ∈ Notification.types ∧
  Notification.priority n ∈ Notification.priorities ∧
  Notification.targetUsers n ∈ Notification.targets.
Proof.
  unfold Notification.validate.
  rewrite !andb_true_iff, !negb_true_iff, !one_of_elem, !Nat.leb_le.
  rewrite <- !(string_nonempty), <- !String.eqb_neq. tauto.
Qed.

Lemma or_default_some (s d : string) : s ≠ "" → or_default (Some s) d = s.
Proof. intros Hs. simpl. by destruct (String.eqb_spec s ""). Qed.

Lemma or_default_nonempty (x : option string) (d : string) :
  d ≠ "" → or_default x d ≠ "".
Proof.
  intros Hd. unfold or_default. destruct x as [s|]; [| done].
  by destruct (String.eqb_spec s "").
Qed.

Section Notifications.
Context `{Platform}.
Variable parseInt : option string → option Z.
Variable Date_parse : string → option Z.
Variable days_before : Z → Z → option Z.
Variable isoDate : Z → string.

Ltac unfold_console :=
  unfold admin_handle, get_users, get_active_members, get_admin_events, get_stats,
    get_notifications, create_notification, delete_notification, paginate in *.

(** What each request of the console leaves alone. *)
Lemma admin_handle_frame (now : Z) (c c' : Console) (r : AdminRequest)
    (resp : AdminResponse) :
  admin_handle parseInt Date_parse days_before isoDate now c r = Some (c', resp) →
  users (store c') = users (store c) ∧ events (store c') = events (store c) ∧
  (next_oid (store c) ≤ next_oid (store c'))%N ∧
  ∀ i n, notifications c' !! i = Some n →
    notifications c !! i = Some n ∨
    (notification_ok n ∧ ∃ tok body, r = PostNotification tok body).
Proof.
  intros Hr.
  assert (users (store c) = users (store c) ∧ events (store c) = events (store c) ∧
          (next_oid (store c) ≤ next_oid (store c))%N ∧
          ∀ i n, notifications c !! i = Some n →
            notifications c !! i = Some n ∨
            (notification_ok n ∧ ∃ tok body, r = PostNotification tok body)) as Hsame.
  { repeat split; try done. intros i n Hn. by left. }
  destruct r; simpl in Hr; unfold_console;
    repeat (case_match; simplify_eq; try exact Hsame); simpl.
  all: split; [done |]; split; [done |]; split; [lia |]; intros i0 doc0 Hn.
  all: try (apply lookup_delete_Some in Hn as [_ Hn]; by left).
  all: apply lookup_insert_Some in Hn as [[_ <-] | [_ Hn]]; [| by left]; right.
  all: split; [| by eexists _, _].
  all: match goal with Hv : Notification.validate _ = true |- _ =>
         apply validate_true in Hv as (Ht & Hm & Hty & Hp & Hta); simpl in * end.
  all: unfold notification_ok; simpl; repeat split; try done; try lia; apply trim_trim.
Qed.


(** X25.  In every reachable console each stored notification has a title
    of 1 to 100 characters without white space at either end, a message
    of 1 to 500 characters, a type, a priority and a target of the
    schema's lists, no specific user ids and the active flag set: the
    route passes no [specificUserIds], and no route deactivates or edits
    a notification. *)
Theorem stored_notifications_valid (c : Console) (i : ObjectId) (n : Notification.doc) :
  console_reachable parseInt Date_parse days_before isoDate c →
  notifications c !! i = Some n → notification_ok n.
Proof.
  intros Hc. revert i n.
  induction Hc as [| now c r Hc IH | now c u e p z a Hc IH | now c r c' resp Hc IH Hr].
  - intros i n Hn. simpl in Hn. by rewrite lookup_empty in Hn.
  - exact IH.
  - exact IH.
  - intros i n Hn.
    destruct (admin_handle_frame now c c' r resp Hr) as (_ & _ & _ & Hns).
    destruct (Hns i n Hn) as [Hold | [Hok _]]; [by apply (IH i n) | done].
Qed.

(** X26.  For an administrator, a notification payload whose title and
    message are not empty and within 100 and 500 characters passes the
    route's own checks, and is then answered 201 or 500, never 400.  It
    is answered 500, nothing being stored, when the title is white space
    only, when the type, the priority or the target is outside the
    schema's list, or when the expiry date does not parse: the schema
    rejects what the route let through.  Otherwise it is answered 201
    and the notification is stored under a new id with the trimmed title
    and the administrator as its creator. *)
Theorem notification_outcome (now : Z) (c : Console) (a : ObjectId) (adm : User)
    (body : NotificationBody) (t m : string) :
  users (store c) !! a = Some adm → isAdmin adm = true →
  body_title body = Some t → body_message body = Some m →
  t ≠ "" → m ≠ "" → (String.length t ≤ 100)%nat → (String.length m ≤ 500)%nat →
  ∃ c' resp,
    create_notification Date_parse now c (Some a) body = Some (c', resp) ∧
    (admin_status resp = 201 ∨ admin_status resp = 500 ∧ c' = c) ∧
    (Text.trim t = "" → admin_status resp = 500) ∧
    (or_default (body_type body) "info" ∉ Notification.types →
       admin_status resp = 500) ∧
    (or_default (body_priority body) "normal" ∉ Notification.priorities →
       admin_status resp = 500) ∧
    (or_default (body_targetUsers body) "all" ∉ Notification.targets →
       admin_status resp = 500) ∧
    (∀ d, body_expiresAt body = Some d → d ≠ "" → Date_parse d = None →
       admin_status resp = 500) ∧
    (Text.trim t ≠ "" →
     or_default (body_type body) "info" ∈ Notification.types →
     or_default (body_priority body) "normal" ∈ Notification.priorities →
     or_default (body_targetUsers body) "all" ∈ Notification.targets →
     (∀ d, body_expiresAt body = Some d → d ≠ "" → is_Some (Date_parse d)) →
     admin_status resp = 201 ∧
     ∃ n, c' = {| store := take_oid (store c);
                  notifications := <[next_oid (store c) := n]> (notifications c) |} ∧
          Notification.title n = Text.trim t ∧ Notification.message n = m ∧
          Notification.createdBy n = a ∧ Notification.createdAt n = now).
Proof.
  intros Ha Hadm Ht Hm Htne Hmne Htlen Hmlen.
  unfold create_notification, adminAuth, auth. rewrite Ha, Hadm, Ht, Hm.
  rewrite !or_default_some by done.
  apply String.eqb_neq in Htne as Hte. apply String.eqb_neq in Hmne as Hme.
  rewrite Hte, Hme.
  assert ((100 <? String.length t)%nat = false) as -> by (apply Nat.ltb_ge; lia).
  assert ((500 <? String.length m)%nat = false) as -> by (apply Nat.ltb_ge; lia).
  cbv beta iota zeta. simpl orb. cbv iota.
  pose proof (trim_length t) as Htrim.
  assert (∀ e,
    Notification.validate
      {| Notification.title := Text.trim t; Notification.message := m;
         Notification.type := or_default (body_type body) "info";
         Notification.priority := or_default (body_priority body) "normal";
         Notification.targetUsers := or_default (body_targetUsers body) "all";
         Notification.specificUserIds := []; Notification.createdBy := a;
         Notification.expiresAt := e; Notification.isActive := true;
         Notification.createdAt := now; Notification.updatedAt := now |} = true ↔
    Text.trim t ≠ "" ∧
    or_default (body_type body) "info" ∈ Notification.types ∧
    or_default (body_priority body) "normal" ∈ Notification.priorities ∧
    or_default (body_targetUsers body) "all" ∈ Notification.targets) as Hvalid.
  { intros e. rewrite validate_true. simpl.
    rewrite !string_nonempty. apply string_nonempty in Hmne. split.
    - intros ([? ?] & _ & ? & ? & ?). done.
    - intros (? & ? & ? & ?). repeat split; try done; lia. }
  assert (∀ e, ∃ c' resp,
    (if Notification.validate
          {| Notification.title := Text.trim t; Notification.message := m;
             Notification.type := or_default (body_type body) "info";
             Notification.priority := or_default (body_priority body) "normal";
             Notification.targetUsers := or_default (body_targetUsers body) "all";
             Notification.specificUserIds := []; Notification.createdBy := a;
             Notification.expiresAt := e; Notification.isActive := true;
             Notification.createdAt := now; Notification.updatedAt := now |}
     then Some ({| store := take_oid (store c);
                   notifications := <[next_oid (store c) :=
                     {| Notification.title := Text.trim t; Notification.message := m;
                        Notification.type := or_default (body_type body) "info";
                        Notification.priority := or_default (body_priority body) "normal";
                        Notification.targetUsers := or_default (body_targetUsers body) "all";
                        Notification.specificUserIds := []; Notification.createdBy := a;
                        Notification.expiresAt := e; Notification.isActive := true;
                        Notification.createdAt := now; Notification.updatedAt := now |}]>
                     (notifications c) |},
                admin_respond 201
                  (NotificationCreated "Notification created successfully"
                     (next_oid (store c))
                     {| Notification.title := Text.trim t; Notification.message := m;
                        Notification.type := or_default (body_type body) "info";
                        Notification.priority := or_default (body_priority body) "normal";
                        Notification.targetUsers := or_default (body_targetUsers body) "all";
                        Notification.specificUserIds := []; Notification.createdBy := a;
                        Notification.expiresAt := e; Notification.isActive := true;
                        Notification.createdAt := now; Notification.updatedAt := now |}))
     else Some (c, plain (message 500 "Failed to create notification"))) =
      Some (c', resp) ∧
    (admin_status resp = 201 ∨ admin_status resp = 500 ∧ c' = c) ∧
    (Text.trim t = "" → admin_status resp = 500) ∧
    (or_default (body_type body) "info" ∉ Notification.types →
       admin_status resp = 500) ∧
    (or_default (body_priority body) "normal" ∉ Notification.priorities →
       admin_status resp = 500) ∧
    (or_default (body_targetUsers body) "all" ∉ Notification.targets →
       admin_status resp = 500) ∧
    (Text.trim t ≠ "" →
     or_default (body_type body) "info" ∈ Notification.types →
     or_default (body_priority body) "normal" ∈ Notification.priorities →
     or_default (body_targetUsers body) "all" ∈ Notification.targets →
     admin_status resp = 201 ∧
     ∃ n, c' = {| store := take_oid (store c);
                  notifications := <[next_oid (store c) := n]> (notifications c) |} ∧
          Notification.title n = Text.trim t ∧ Notification.message n = m ∧
          Notification.createdBy n = a ∧ Notification.createdAt n = now)) as Hsave.
  { intros e. specialize (Hvalid e).
    destruct (Notification.validate _) eqn:Hv.
    - destruct (proj1 Hvalid eq_refl) as (? & ? & ? & ?).
      eexists _, _. split; [done |]. simpl. split; [by left |].
      repeat split; try done. eexists. by repeat split.
    - eexists _, _. split; [done |]. simpl. split; [by right |].
      repeat (split; [done |]). intros ? ? ? ?. exfalso.
      assert (false = true) as Hf by (by apply Hvalid). done. }
  destruct (body_expiresAt body) as [d|] eqn:Hd.
  2: { destruct (Hsave None) as (c' & resp & Heq & H1 & H2 & H3 & H4 & H5 & H6).
       exists c', resp. split; [exact Heq |]. split; [exact H1 |].
       split; [exact H2 |]. split; [exact H3 |]. split; [exact H4 |].
       split; [exact H5 |]. split; [by intros d |].
       intros ? ? ? ? _. by apply H6. }
  destruct (String.eqb_spec d "") as [-> | Hdne].
  { destruct (Hsave None) as (c' & resp & Heq & H1 & H2 & H3 & H4 & H5 & H6).
    exists c', resp. split; [exact Heq |]. split; [exact H1 |].
    split; [exact H2 |]. split; [exact H3 |]. split; [exact H4 |].
    split; [exact H5 |]. split; [by intros d' [= <-] |].
    intros ? ? ? ? _. by apply H6. }
  destruct (Date_parse d) as [e|] eqn:Hparse.
  - destruct (Hsave (Some e)) as (c' & resp & Heq & H1 & H2 & H3 & H4 & H5 & H6).
    exists c', resp. split; [exact Heq |]. split; [exact H1 |].
    split; [exact H2 |]. split; [exact H3 |]. split; [exact H4 |].
    split; [exact H5 |]. split; [intros d' [= <-] _ Hnone; congruence |].
    intros ? ? ? ? _. by apply H6.
  - eexists _, _. split; [reflexivity |]. simpl. split; [by right |].
    split; [done |]. split; [done |]. split; [done |]. split; [done |].
    split; [done |].
    intros _ _ _ _ Hdate. destruct (Hdate d eq_refl Hdne) as [? ?]. congruence.
Qed.

(** X27.  Whatever the console answers, the accounts and the events are
    as before.  The console itself is as before after a request to one
    of the five reading routes and after any request answered with a
    status of 400 or above; a notification that is stored afterwards
    was stored before or comes from this request, a [POST
    /api/admin/notifications]. *)
Theorem console_frame (now : Z) (c c' : Console) (r : AdminRequest)
    (resp : AdminResponse) :
  admin_handle parseInt Date_parse days_before isoDate now c r = Some (c', resp) →
  users (store c') = users (store c) ∧ events (store c') = events (store c) ∧
  (400 ≤ admin_status resp → c' = c) ∧
  ((∀ tok body, r ≠ PostNotification tok body) →
   (∀ tok id, r ≠ DeleteNotification tok id) → c' = c) ∧
  (∀ i n, notifications c' !! i = Some n → notifications c !! i = None →
     ∃ tok body, r = PostNotification tok body).
Proof.
  intros Hr.
  destruct (admin_handle_frame now c c' r resp Hr) as (Hu & He & _ & Hns).
  split; [done |]. split; [done |]. split; [| split].
  - clear Hns Hu He. destruct r; simpl in Hr; unfold_console;
      repeat (case_match; simplify_eq; try done); simpl; lia.
  - clear Hns Hu He. intros Hpost Hdel.
    destruct r; simpl in Hr; unfold_console;
      repeat (case_match; simplify_eq; try done).
    all: first [by destruct (Hpost tok body) | by destruct (Hdel tok id)].
  - intros i n Hn Hnone. destruct (Hns i n Hn) as [Hold | [_ Hpost]]; [congruence | done].
Qed.

End Notifications.


Lemma console_of_store `{Platform} (parseInt : option string → option Z)
    (Date_parse : string → option Z) (days_before : Z → Z → option Z)
    (isoDate : Z → string) (s : State) :
  reachable s →
  console_reachable parseInt Date_parse days_before isoDate
    {| store := s; notifications := ∅ |}.
Proof.
  induction 1 as [| now s r _ IH | now s u e p z a _ IH].
  - apply console_empty.
  - apply (console_request _ _ _ _ now _ r) in IH. exact IH.
  - apply (console_bootstrap _ _ _ _ now _ u e p z a) in IH. exact IH.
Qed.

Lemma stored_notifications_valid_witness : Text.trim "Fair" = "Fair".
Proof.
  pose (n0 := {| Notification.title := "Fair"; Notification.message := "Saturday";
                 Notification.type := "info"; Notification.priority := "normal";
                 Notification.targetUsers := "all"; Notification.specificUserIds := [];
                 Notification.createdBy := Scenario.root;
                 Notification.expiresAt := None; Notification.isActive := true;
                 Notification.createdAt := 7; Notification.updatedAt := 7 |}).
  pose (body := {| body_title := Some "  Fair "; body_message := Some "Saturday";
                   body_type := None; body_priority := None;
                   body_targetUsers := None; body_expiresAt := None |}).
  pose (c1 := {| store := take_oid Scenario.town_hall;
                 notifications := {[ 5%N := n0 ]} |}).
  assert (admin_handle (λ _, None) (λ _, None) (λ _ _, None) (λ _, "") 7
            {| store := Scenario.town_hall; notifications := ∅ |}
            (PostNotification (Some Scenario.root) body) =
          Some (c1, admin_respond 201
                      (NotificationCreated "Notification created successfully" 5%N n0)))
    as Hr by (vm_compute; reflexivity).
  assert (notifications c1 !! 5%N = Some n0) as Hn by (vm_compute; reflexivity).
  exact (proj1 (proj2 (stored_notifications_valid
           (λ _, None) (λ _, None) (λ _ _, None) (λ _, "") c1 5%N n0
           (console_admin (λ _, None) (λ _, None) (λ _ _, None) (λ _, "") 7
              {| store := Scenario.town_hall; notifications := ∅ |}
              (PostNotification (Some Scenario.root) body) c1
              (admin_respond 201
                 (NotificationCreated "Notification created successfully" 5%N n0))
              (console_of_store (λ _, None) (λ _, None) (λ _ _, None) (λ _, "")
                 Scenario.town_hall town_hall_reachable)
              Hr)
           Hn))).
Defined.

(** X26 witness: a title of a no-break space and a space. *)
Lemma notification_outcome_witness :
  ∃ c' resp,
    create_notification (λ _, None) 7
      {| store := Scenario.town_hall; notifications := ∅ |} (Some Scenario.root)
      {| body_title := Some (String (ascii_of_N 160) " "); body_message := Some "Saturday";
         body_type := None; body_priority := None;
         body_targetUsers := None; body_expiresAt := None |} = Some (c', resp) ∧
    admin_status resp = 500.
Proof.
  assert ((String (ascii_of_N 160) " ") ≠ "") as Ht by discriminate.
  assert ("Saturday" ≠ "") as Hm by discriminate.
  assert (String.length (String (ascii_of_N 160) " ") ≤ 100)%nat as Htl by (simpl; lia).
  assert (String.length "Saturday" ≤ 500)%nat as Hml by (simpl; lia).
  assert (Text.trim (String (ascii_of_N 160) " ") = "") as Hblank by (vm_compute; reflexivity).
  assert (users (store {| store := Scenario.town_hall; notifications := ∅ |})
            !! Scenario.root = Some Scenario.root_account) as Ha
    by (vm_compute; reflexivity).
  destruct (notification_outcome (λ _, None) 7
              {| store := Scenario.town_hall; notifications := ∅ |}
              Scenario.root Scenario.root_account
              {| body_title := Some (String (ascii_of_N 160) " "); body_message := Some "Saturday";
                 body_type := None; body_priority := None;
                 body_targetUsers := None; body_expiresAt := None |}
              (String (ascii_of_N 160) " ") "Saturday" Ha eq_refl eq_refl eq_refl Ht Hm Htl Hml)
    as (c' & resp & Heq & _ & Hblank500 & _).
  exists c', resp. split; [exact Heq | exact (Hblank500 Hblank)].
Defined.

Lemma console_frame_witness :
  users (store (set_notifications
                  {| store := Scenario.town_hall; notifications := ∅ |} ∅)) =
  users Scenario.town_hall.
Proof.
  assert (admin_handle (λ _, None) (λ _, None) (λ _ _, None) (λ _, "") 7
            {| store := Scenario.town_hall; notifications := ∅ |}
            (DeleteNotification (Some Scenario.bob) 9%N) =
          Some (set_notifications
                  {| store := Scenario.town_hall; notifications := ∅ |} ∅,
                plain (respond 403 NotAdmin))) as Hr
    by (vm_compute; reflexivity).
  exact (proj1 (console_frame (λ _, None) (λ _, None) (λ _ _, None) (λ _, "") 7
                  {| store := Scenario.town_hall; notifications := ∅ |}
                  (set_notifications
                     {| store := Scenario.town_hall; notifications := ∅ |} ∅)
                  (DeleteNotification (Some Scenario.bob) 9%N)
                  (plain (respond 403 NotAdmin)) Hr)).
Defined.


(** ** Listings in pages *)

#[local] Instance newest_total {A} (key : A → Z) : Total (newest key).
Proof. intros a b. unfold newest. lia. Qed.

#[local] Instance newest_trans {A} (key : A → Z) : Transitive (newest key).
Proof. intros a b c. unfold newest. lia. Qed.










Section Listings.
Variable parseInt : option string → option Z.


End Listings.



(** ** Statistics *)

#[local] Instance more_first_total : Total more_first.
Proof. intros a b. unfold more_first. lia. Qed.

#[local] Instance more_first_trans : Transitive more_first.
Proof. intros a b c. unfold more_first. lia. Qed.

Lemma filter_bool_length {A} (p : A → bool) (l : list A) :
  (length (List.filter p l) ≤ length l)%nat.
Proof. induction l as [|x l IH]; simpl; [done |]. destruct (p x); simpl; lia. Qed.

Lemma filter_bool_nonempty {A} (p : A → bool) (l : list A) (x : A) :
  x ∈ l → p x = true → (1 ≤ length (List.filter p l))%nat.
Proof.
  intros Hx Hp.
  assert (x ∈ List.filter p l) as Hin by (by apply elem_of_filter_bool).
  destruct (List.filter p l); [inversion Hin | simpl; lia].
Qed.

Lemma count_absent (x : string) (l : list string) :
  x ∉ l → length (List.filter (String.eqb x) l) = 0%nat.
Proof.
  intros Hx. rewrite filter_none; [done |].
  intros y Hy. apply String.eqb_neq. by intros ->.
Qed.

(** What a new element adds to the counts of distinct keys. *)
Lemma sum_counts_cons (keys : list string) (x : string) (l : list string) :
  NoDup keys →
  sum_list_with (λ c, length (List.filter (String.eqb c) (x :: l))) keys =
  (sum_list_with (λ c, length (List.filter (String.eqb c) l)) keys +
   if bool_decide (x ∈ keys) then 1 else 0)%nat.
Proof.
  induction 1 as [|c keys Hc Hnd IH]; [done |].
  assert (∀ f : string → nat,
            sum_list_with f (c :: keys) = (f c + sum_list_with f keys)%nat) as Hcons
    by done.
  rewrite !Hcons, IH. simpl.
  destruct (String.eqb_spec c x) as [-> | Hne]; simpl.
  - rewrite (bool_decide_true (x ∈ x :: keys)) by apply list_elem_of_here.
    rewrite (bool_decide_false (x ∈ keys)) by done. lia.
  - destruct (decide (x ∈ keys)) as [Hin | Hnot].
    + rewrite (bool_decide_true (x ∈ keys)) by done.
      rewrite (bool_decide_true (x ∈ c :: keys)) by (by apply list_elem_of_further). lia.
    + rewrite (bool_decide_false (x ∈ keys)) by done.
      rewrite (bool_decide_false (x ∈ c :: keys)); [lia |].
      intros Hin. apply elem_of_cons in Hin as [-> | Hin]; done.
Qed.

Lemma sum_snd_fmap (f : string → nat) (keys : list string) :
  sum_list_with snd ((λ c, (c, f c)) <$> keys) = sum_list_with f keys.
Proof. induction keys as [|c keys IH]; simpl; [done |]. f_equal. exact IH. Qed.

Lemma group_count_sum (l : list string) :
  sum_list_with snd (group_count l) = length l.
Proof.
  unfold group_count.
  rewrite (sum_snd_fmap (λ c, length (List.filter (String.eqb c) l))).
  induction l as [|x l IH]; [done |].
  rewrite sum_counts_cons by apply NoDup_remove_dups.
  rewrite bool_decide_true by (apply elem_of_remove_dups, list_elem_of_here).
  assert (sum_list_with (λ c, length (List.filter (String.eqb c) l))
            (remove_dups (x :: l)) = length l) as ->; [| simpl; lia].
  simpl. destruct (decide_rel elem_of x l) as [Hin | Hnot]; [done |].
  assert (∀ f : string → nat,
            sum_list_with f (x :: remove_dups l) =
            (f x + sum_list_with f (remove_dups l))%nat) as Hcons by done.
  rewrite Hcons, IH, count_absent by done. done.
Qed.

Lemma group_count_elem (l : list string) (c : string) (n : nat) :
  (c, n) ∈ group_count l ↔
  (1 ≤ n)%nat ∧ n = length (List.filter (String.eqb c) l).
Proof.
  unfold group_count. rewrite list_elem_of_fmap. split.
  - intros (c0 & Heq & Hin). injection Heq as Hc Hn. subst c0 n.
    rewrite elem_of_remove_dups in Hin.
    split; [| done]. apply (filter_bool_nonempty _ _ c); [exact Hin | apply String.eqb_refl].
  - intros [Hn ->]. exists c. split; [done |]. apply elem_of_remove_dups.
    destruct (List.filter (String.eqb c) l) as [|y f] eqn:Hf; [simpl in Hn; lia |].
    assert (y ∈ List.filter (String.eqb c) l) as Hy by (rewrite Hf; apply list_elem_of_here).
    apply elem_of_filter_bool in Hy as [Hy Heq]. by apply String.eqb_eq in Heq as ->.
Qed.

Lemma group_count_keys (l : list string) : NoDup (fst <$> group_count l).
Proof.
  unfold group_count. rewrite <- list_fmap_compose.
  assert (∀ keys : list string,
            (fst ∘ (λ c, (c, length (List.filter (String.eqb c) l)))) <$> keys = keys)
    as ->.
  { induction keys as [|c keys IH]; simpl; [done | by f_equal]. }
  apply NoDup_remove_dups.
Qed.

Lemma filter_fmap_length {A B} (f : A → B) (p : B → bool) (l : list A) :
  length (List.filter p (f <$> l)) = length (List.filter (λ x, p (f x)) l).
Proof.
  induction l as [|x l IH]; [done |].
  change (f <$> x :: l) with (f x :: (f <$> l)). simpl.
  destruct (p (f x)); simpl; by rewrite IH.
Qed.

Section Statistics.
Variable days_before : Z → Z → option Z.
Variable isoDate : Z → string.

(** X29.  [GET /api/admin/stats] from an administrator is answered 200
    and leaves the console as it was.  [totalUsers] and [totalEvents]
    are the sizes of the two collections; [adminUsers] is at least 1
    (the requester) and, like [recentUsers], at most [totalUsers];
    [upcomingEvents] is at most [totalEvents]; [eventsByCategory] has
    one entry for each category that some event has and no other, with
    the number of such events, the larger counts first, and the counts
    add up to [totalEvents]. *)
Theorem stats_report (now : Z) (c : Console) (a : ObjectId) (adm : User) (t7 : Z) :
  users (store c) !! a = Some adm → isAdmin adm = true →
  days_before now 7 = Some t7 →
  ∃ adminUsers recentUsers upcomingEvents eventsByCategory,
    get_stats days_before isoDate now c (Some a) =
      Some (c, admin_respond 200
                 (StatsReport (size (users (store c))) (size (events (store c)))
                    adminUsers recentUsers upcomingEvents eventsByCategory)) ∧
    (1 ≤ adminUsers ≤ size (users (store c)))%nat ∧
    (recentUsers ≤ size (users (store c)))%nat ∧
    (upcomingEvents ≤ size (events (store c)))%nat ∧
    sum_list_with snd eventsByCategory = size (events (store c)) ∧
    NoDup (fst <$> eventsByCategory) ∧
    StronglySorted more_first eventsByCategory ∧
    ∀ cat n, (cat, n) ∈ eventsByCategory ↔
      (1 ≤ n)%nat ∧
      n = length (List.filter (λ kv, String.eqb cat (category (details kv.2)))
                    (map_to_list (events (store c)))).
Proof.
  intros Ha Hadm Hdays. unfold get_stats, adminAuth, auth.
  rewrite Ha, Hadm, Hdays. simpl. eexists _, _, _, _. split; [reflexivity |].
  rewrite <- !(length_map_to_list (users (store c))).
  rewrite <- !(length_map_to_list (events (store c))).
  split; [split; [| apply filter_bool_length] |].
  { apply (filter_bool_nonempty _ _ (a, adm)); [| done]. by apply elem_of_map_to_list. }
  split; [apply filter_bool_length |]. split; [apply filter_bool_length |].
  set (cats := (λ kv : ObjectId * Event, category (details kv.2))
                 <$> map_to_list (events (store c))).
  pose proof (merge_sort_Permutation more_first (group_count cats)) as Hperm.
  split; [| split; [| split]].
  - rewrite Hperm, group_count_sum. unfold cats. by rewrite length_fmap.
  - rewrite Hperm. apply group_count_keys.
  - apply StronglySorted_merge_sort; apply _.
  - intros cat n. rewrite Hperm, group_count_elem. unfold cats.
    by rewrite filter_fmap_length.
Qed.

End Statistics.

Lemma stats_report_witness :
  ∃ adminUsers recentUsers upcomingEvents eventsByCategory,
    get_stats (λ t d, Some (t - d)) (λ _, "2024-01-01") 9
        {| store := Scenario.town_hall; notifications := ∅ |} (Some Scenario.root) =
      Some ({| store := Scenario.town_hall; notifications := ∅ |},
            admin_respond 200
              (StatsReport
                 (size (users (store {| store := Scenario.town_hall;
                                        notifications := ∅ |})))
                 (size (events (store {| store := Scenario.town_hall;
                                         notifications := ∅ |})))
                 adminUsers recentUsers upcomingEvents eventsByCategory)) ∧
    (1 ≤ adminUsers)%nat.
Proof.
  assert (users (store {| store := Scenario.town_hall; notifications := ∅ |})
            !! Scenario.root = Some Scenario.root_account) as Ha
    by (vm_compute; reflexivity).
  destruct (stats_report (λ t d, Some (t - d)) (λ _, "2024-01-01") 9
              {| store := Scenario.town_hall; notifications := ∅ |}
              Scenario.root Scenario.root_account 2 Ha eq_refl eq_refl)
    as (au & ru & ue & ebc & Heq & [Hau _] & _).
  exists au, ru, ue, ebc. split; [exact Heq | exact Hau].
Defined.


(** * The middleware of the server *)

Lemma split_commas_cons (l : list ascii) : ∃ piece pieces, split_commas l = piece :: pieces.
Proof.
  induction l as [|c l (piece & pieces & IH)]; simpl; [by eexists _, _ |].
  destruct (Ascii.eqb c ","); [by eexists _, _ |]. rewrite IH. by eexists _, _.
Qed.

(** Joining the pieces gives the string back. *)
Lemma join_split (l : list ascii) : join_commas (split_commas l) = l.
Proof.
  induction l as [|c l IH]; [done |]. simpl.
  destruct (split_commas_cons l) as (piece & pieces & Hl).
  destruct (Ascii.eqb_spec c ",") as [-> | Hc].
  - rewrite Hl in IH |- *. simpl. by rewrite <- IH.
  - rewrite Hl in IH |- *. rewrite <- IH. by destruct pieces.
Qed.

Lemma split_commas_pieces (l : list ascii) :
  Forall (λ piece, ","%char ∉ piece) (split_commas l).
Proof.
  induction l as [|c l IH]; simpl.
  - constructor; [apply not_elem_of_nil | constructor].
  - destruct (Ascii.eqb_spec c ",") as [-> | Hc].
    + constructor; [apply not_elem_of_nil | done].
    + destruct (split_commas l) as [|piece pieces]; simpl.
      * constructor; [| done]. intros Hin. apply list_elem_of_singleton in Hin. done.
      * apply Forall_cons in IH as [Hpiece Hpieces]. constructor; [| done].
        intros Hin. apply elem_of_cons in Hin as [Hin | Hin]; done.
Qed.

Lemma split_pieces (e o : string) :
  o ∈ split e → ","%char ∉ list_ascii_of_string o.
Proof.
  unfold split. intros Hin. apply list_elem_of_fmap in Hin as (piece & -> & Hin).
  rewrite list_ascii_of_string_of_list_ascii.
  pose proof (split_commas_pieces (list_ascii_of_string e)) as Hall.
  rewrite Forall_forall in Hall. by apply Hall.
Qed.

(** X30.  The CORS check lets a request in exactly when it has no
    [Origin] header or an empty one, or [CORS_ORIGIN] is the single
    character [*], or the origin is, character for character, one of
    the pieces of [CORS_ORIGIN] between its commas.  Joined by commas
    the pieces give [CORS_ORIGIN] back and none holds a comma, so an
    origin with a comma is let in by [*] only; with [CORS_ORIGIN] unset
    every origin is refused.  A refused request is answered by the error
    handler with 500 and the message [Not allowed by CORS]. *)
Theorem cors_decision (CORS_ORIGIN origin : option string) :
  (cors_origin CORS_ORIGIN origin = true ↔
     origin = None ∨ origin = Some "" ∨ CORS_ORIGIN = Some "*" ∨
     ∃ e o, CORS_ORIGIN = Some e ∧ origin = Some o ∧ o ∈ split e) ∧
  (∀ e, CORS_ORIGIN = Some e →
     string_of_list_ascii (join_commas (list_ascii_of_string <$> split e)) = e) ∧
  (∀ o, origin = Some o → ","%char ∈ list_ascii_of_string o →
     CORS_ORIGIN ≠ Some "*" → cors_origin CORS_ORIGIN origin = false) ∧
  (∀ o, origin = Some o → o ≠ "" → CORS_ORIGIN = None →
     cors_origin CORS_ORIGIN origin = false) ∧
  (cors_origin CORS_ORIGIN origin = false →
     cors_gate CORS_ORIGIN origin =
       Some (500, ErrorMessage "Not allowed by CORS")).
Proof.
  assert (cors_origin CORS_ORIGIN origin = true ↔
     origin = None ∨ origin = Some "" ∨ CORS_ORIGIN = Some "*" ∨
     ∃ e o, CORS_ORIGIN = Some e ∧ origin = Some o ∧ o ∈ split e) as Hiff.
  { unfold cors_origin. destruct origin as [o|]; [| split; [by left | done]].
    destruct (String.eqb_spec o "") as [-> | Ho]; [split; [by right; left | done] |].
    destruct CORS_ORIGIN as [e|].
    - destruct (String.eqb_spec e "*") as [-> | He];
        [split; [by right; right; left | done] |].
      rewrite existsb_exists. split.
      + intros (x & Hin & Heq). apply String.eqb_eq in Heq as <-.
        do 3 right. exists e, o. split; [done |]. split; [done |]. by apply list_elem_of_In.
      + intros [? | [[= ?] | [[= ?] | (e' & o' & [= <-] & [= <-] & Hin)]]]; try done.
        exists o. split; [by apply list_elem_of_In | apply String.eqb_refl].
    - split; [done |].
      intros [? | [[= ?] | [? | (e' & o' & ? & _)]]]; done. }
  split; [exact Hiff |]. split; [| split; [| split]].
  - intros e _. unfold split. rewrite <- list_fmap_compose.
    assert (∀ pieces : list (list ascii),
              (list_ascii_of_string ∘ string_of_list_ascii) <$> pieces = pieces) as ->.
    { induction pieces as [|p ps IH]; [done |].
      change ((list_ascii_of_string ∘ string_of_list_ascii) <$> p :: ps)
        with (list_ascii_of_string (string_of_list_ascii p) ::
              ((list_ascii_of_string ∘ string_of_list_ascii) <$> ps)).
      by rewrite IH, list_ascii_of_string_of_list_ascii. }
    rewrite join_split. apply string_of_list_ascii_of_string.
  - intros o -> Hcomma Hstar.
    apply not_true_is_false. intros Hc.
    apply Hiff in Hc as [? | [[= ->] | [? | (e' & o' & _ & [= <-] & Hin)]]]; try done.
    + simpl in Hcomma. by apply not_elem_of_nil in Hcomma.
    + by apply (split_pieces e' o).
  - intros o -> Ho ->. simpl. by destruct (String.eqb_spec o "").
  - intros Hc. unfold cors_gate. by rewrite Hc.
Qed.
